(** * ScriptToScene: the generation-orchestration core

    A shallow embedding of [src/services/geminiService.ts], of the handlers of
    [src/components/SceneCard.tsx] (the component with per-frame regeneration)
    and of [handleAnalyzeScript] of [src/App.tsx], with the properties of the
    specification stated over it.

    Conventions.
    - A JavaScript string is a [string]: a sequence of code units below 256.
    - A JavaScript number that the code only uses as an integer is a [Z]; a
      delay in milliseconds is a [Q], because [Math.random()] is fractional,
      and the arithmetic on delays rounds each result to the nearest double
      ([binary64]).
    - [null] and [undefined] in a [T | null] or [T?] field are [None].
    - An [async] function is a computation in the monad [M]: it threads the
      state of the world, and ends with a value, a thrown value, or never. *)

From Stdlib Require Import List String Ascii Bool Arith ZArith QArith Lia Lqa.
From Stdlib Require Import Qround Qpower.
Import ListNotations.

Set Default Proof Using "Type".

Local Close Scope Q_scope.
Local Open Scope string_scope.
Local Open Scope nat_scope.

(* ===================================================================== *)
(** ** JavaScript strings *)
(* ===================================================================== *)

Module JsString.

(** The characters that [\s] and [String.prototype.trim] treat as white
    space, among the code units below 256: TAB, LF, VT, FF, CR, SPACE and
    NBSP. *)
Definition is_space (c : ascii) : bool :=
  let n := nat_of_ascii c in
  ((9 <=? n) && (n <=? 13)) || (n =? 32) || (n =? 160).

Definition space : ascii := " "%char.
Definition comma : ascii := ","%char.

(** The line terminator of the source files, inside template literals. *)
Definition nl : string := String (ascii_of_nat 10) "".

Fixpoint trimStart (s : string) : string :=
  match s with
  | "" => ""
  | String c s' => if is_space c then trimStart s' else s
  end.

Fixpoint trimEnd (s : string) : string :=
  match s with
  | "" => ""
  | String c s' =>
      let t := trimEnd s' in
      if is_space c && String.eqb t "" then "" else String c t
  end.

(** [s.trim()] *)
Definition trim (s : string) : string := trimEnd (trimStart s).

(** [s.replace(/\s+/g, ' ')]: every maximal run of white space becomes one
    space.  The space is emitted at the last character of the run. *)
Fixpoint collapse (s : string) : string :=
  match s with
  | "" => ""
  | String c s' =>
      if is_space c then
        match s' with
        | "" => String space (collapse s')
        | String d _ =>
            if is_space d then collapse s' else String space (collapse s')
        end
      else String c (collapse s')
  end.

Definition lower_char (c : ascii) : ascii :=
  let n := nat_of_ascii c in
  if ((65 <=? n) && (n <=? 90))
     || ((192 <=? n) && (n <=? 222) && negb (n =? 215))
  then ascii_of_nat (n + 32) else c.

(** [s.toLowerCase()] *)
Fixpoint toLowerCase (s : string) : string :=
  match s with
  | "" => ""
  | String c s' => String (lower_char c) (toLowerCase s')
  end.

(** [l.join(sep)] on an array of strings. *)
Fixpoint join (sep : string) (l : list string) : string :=
  match l with
  | [] => ""
  | [x] => x
  | x :: l' => x ++ sep ++ join sep l'
  end.

(** [s.split(',')]: the segments between commas; never empty. *)
Fixpoint split_comma (s : string) : list string :=
  match s with
  | "" => [""]
  | String c s' =>
      if Ascii.eqb c comma then "" :: split_comma s'
      else match split_comma s' with
           | [] => [String c ""]
           | seg :: rest => String c seg :: rest
           end
  end.

(** [s.includes(t)] *)
Fixpoint includes (t s : string) : bool :=
  prefix t s || match s with
                | "" => false
                | String _ s' => includes t s'
                end.

(** [s.endsWith(t)], as a proposition. *)
Definition ends_with (t s : string) : Prop := exists p, s = p ++ t.

(** A truthy string: neither [null]/[undefined] nor empty. *)
Definition truthy (o : option string) : bool :=
  match o with
  | Some s => negb (String.eqb s "")
  | None => false
  end.

(** No white space other than single spaces: every white-space character is
    a SPACE and is not followed by another white-space character. *)
Fixpoint single_spaced (s : string) : bool :=
  match s with
  | "" => true
  | String c s' =>
      (negb (is_space c)
       || (Ascii.eqb c space
           && match s' with
              | "" => true
              | String d _ => negb (is_space d)
              end))
      && single_spaced s'
  end.

Definition starts_clean (s : string) : bool :=
  match s with
  | "" => true
  | String c _ => negb (is_space c)
  end.

End JsString.
Import JsString.

(* ===================================================================== *)
(** ** Data model ([src/types.ts]) *)
(* ===================================================================== *)

Module Scene.
Record t : Type := mk {
  scene_id : string;
  location : string;
  time : string;
  mood : string;
  characters : list string;
  camera_movement : string
}.
End Scene.

Module Character.
Record t : Type := mk {
  name : string;
  description : string;
  imageUrl : option string
}.
End Character.

Module Frame.
Record t : Type := mk {
  prompt : string;
  imageUrl : option string
}.
End Frame.

Inductive VideoStatus : Type := IDLE | GENERATING | DONE | ERROR.

Module VideoState.
Record t : Type := mk {
  status : VideoStatus;
  url : option string;
  message : string
}.
End VideoState.

Module Style.
Record t : Type := mk {
  id : string;
  name : string;
  imageUrl : string;
  promptModifier : string
}.
End Style.

(** The first entry of [VIDEO_GENERATION_MESSAGES] ([src/constants.ts]). *)
Definition VIDEO_GENERATION_MESSAGES_0 : string :=
  "Warming up the virtual cameras...".

(* ===================================================================== *)
(** ** JavaScript values and thrown values *)
(* ===================================================================== *)

(** The values [JSON.parse] can return, and [undefined], which reading a
    missing property gives. *)
#[warnings="-register-all"]
Inductive JsVal : Type :=
| VUndefined
| VNull
| VBool (b : bool)
| VNum (q : Q)
| VStr (s : string)
| VArr (l : list JsVal)
| VObj (props : list (string * JsVal)).

(** What a [catch] clause can receive: an [Error] (or a subclass of it) with
    its [message], or any other value. *)
Inductive JsThrown : Type :=
| JsError (message : string)
| JsNonError (v : JsVal).

Fixpoint lookup (k : string) (props : list (string * JsVal)) : JsVal :=
  match props with
  | [] => VUndefined
  | (k', v) :: rest => if String.eqb k k' then v else lookup k rest
  end.

(** [v?.k], for the property names the code reads ([error], [status], [code],
    [message]), which only an object can have. *)
Definition opt_get (v : JsVal) (k : string) : JsVal :=
  match v with
  | VObj props => lookup k props
  | _ => VUndefined
  end.

(** [v.k]: as [v?.k], but reading a property of [null] or [undefined] throws
    a [TypeError]. *)
Definition get (v : JsVal) (k : string) : option JsVal :=
  match v with
  | VUndefined | VNull => None
  | _ => Some (opt_get v k)
  end.

Definition truthy_val (v : JsVal) : bool :=
  match v with
  | VUndefined | VNull => false
  | VBool b => b
  | VNum q => negb (Qeq_bool q 0)
  | VStr s => negb (String.eqb s "")
  | VArr _ | VObj _ => true
  end.

(** [v === 'lit'] *)
Definition strict_eq_str (v : JsVal) (lit : string) : bool :=
  match v with
  | VStr s => String.eqb s lit
  | _ => false
  end.

(** [v === n] for an integer literal [n] *)
Definition strict_eq_num (v : JsVal) (n : Z) : bool :=
  match v with
  | VNum q => Qeq_bool q (inject_Z n)
  | _ => false
  end.

(* ===================================================================== *)
(** ** The remote interfaces ([@google/genai], [fetch]) *)
(* ===================================================================== *)

Inductive Modality : Type := IMAGE | TEXT.

Record InlineData : Type := mkInlineData {
  data : option string;
  mimeType : string
}.

(** An input part of a multimodal request. *)
Inductive Part : Type :=
| PartText (text : string)
| PartInline (inlineData : InlineData).

Inductive Contents : Type :=
| ContentsText (prompt : string)
| ContentsParts (parts : list Part).

(** [sceneSchema] and [characterSchema]: arrays of objects. *)
Record Schema : Type := mkSchema {
  properties : list string;
  required : list string
}.

Definition sceneSchema : Schema :=
  let fields := ["scene_id"; "location"; "time"; "mood"; "characters";
                 "camera_movement"] in
  mkSchema fields fields.

Definition characterSchema : Schema :=
  mkSchema ["name"; "description"] ["name"; "description"].

Inductive Config : Type :=
| JsonConfig (responseMimeType : string) (responseSchema : Schema)
| ModalitiesConfig (responseModalities : list Modality).

Record GenerateContentRequest : Type := mkContentRequest {
  gc_model : string;
  gc_contents : Contents;
  gc_config : Config
}.

(** An output part: [inlineData] is [None] for a text part. *)
Record ResponsePart : Type := mkResponsePart {
  rp_inlineData : option (string * string);  (* data, mimeType *)
  rp_text : option string
}.

Record Candidate : Type := mkCandidate {
  content_parts : option (list ResponsePart)  (* [content?.parts] *)
}.

Record GenerateContentResponse : Type := mkContentResponse {
  text : option string;
  candidates : option (list Candidate)
}.

Record GenerateVideosRequest : Type := mkVideosRequest {
  gv_model : string;
  gv_prompt : string;
  gv_imageBytes : option string;
  gv_mimeType : string;
  gv_numberOfVideos : Z
}.

Record Video : Type := mkVideo { uri : option string }.
Record GeneratedVideo : Type := mkGeneratedVideo { video : option Video }.
Record GenerateVideosResponse : Type := mkVideosResponse {
  generatedVideos : option (list GeneratedVideo)
}.

(** The handle of a long-running video job; [done] absent is [false]. *)
Record Operation : Type := mkOperation {
  done : bool;
  response : option GenerateVideosResponse
}.

Definition Blob : Type := string.

Record FetchResponse : Type := mkFetchResponse {
  ok : bool;
  body : Blob
}.

Inductive Call : Type :=
| CGenerateContent (req : GenerateContentRequest)
| CGenerateVideos (req : GenerateVideosRequest)
| CGetVideosOperation (operation : Operation)
| CFetch (url : string)
| COperation (label : string).

(** What the program does to the outside, in order. *)
Inductive Event : Type :=
| EvCall (c : Call)
    (* the operation is invoked *)
| EvSleep (ms : Q)
    (* [await new Promise(resolve => setTimeout(resolve, ms))] *)
| EvWarn (delay : Q) (attempt maxRetries : Z)
    (* [console.warn] of the retry wrapper *)
| EvError (label : string)
    (* [console.error(label, ...)] *)
| EvVideoState (v : VideoState.t).
    (* [setVideoState(v)] *)

(* ===================================================================== *)
(** ** Asynchronous computations *)
(* ===================================================================== *)

(** How an awaited computation ends: with a value, with a thrown value, or
    not at all (the promise never settles). *)
Inductive Outcome (A : Type) : Type :=
| Ok (a : A)
| Throw (e : JsThrown)
| Pending.
Arguments Ok {A} a.
Arguments Throw {A} e.
Arguments Pending {A}.

Record World (St : Type) : Type := mkWorld {
  ext : St;               (* the state outside the wrapper's own effects *)
  trace : list Event;     (* the events so far, oldest first *)
  rand_idx : nat          (* how many times [Math.random()] was called *)
}.
Arguments mkWorld {St} ext trace rand_idx.
Arguments ext {St} w.
Arguments trace {St} w.
Arguments rand_idx {St} w.

Definition M (St A : Type) : Type := World St -> Outcome A * World St.

Section Monad.
Context {St : Type}.

Definition ret {A} (a : A) : M St A := fun w => (Ok a, w).

Definition bind {A B} (m : M St A) (k : A -> M St B) : M St B :=
  fun w =>
    match m w with
    | (Ok a, w') => k a w'
    | (Throw e, w') => (Throw e, w')
    | (Pending, w') => (Pending, w')
    end.

Definition throw {A} (e : JsThrown) : M St A := fun w => (Throw e, w).

Definition pending {A} : M St A := fun w => (Pending, w).

(** [try { m } catch (e) { h e }] *)
Definition try_catch {A} (m : M St A) (h : JsThrown -> M St A) : M St A :=
  fun w =>
    match m w with
    | (Throw e, w') => h e w'
    | r => r
    end.

(** [try { m } finally { f }], for an [f] that neither returns nor
    throws out of the block. *)
Definition try_finally {A} (m : M St A) (f : M St unit) : M St A :=
  fun w =>
    match m w with
    | (Pending, w') => (Pending, w')
    | (r, w') =>
        match f w' with
        | (Ok _, w'') => (r, w'')
        | (Throw e, w'') => (Throw e, w'')
        | (Pending, w'') => (Pending, w'')
        end
    end.

Definition emit (e : Event) : M St unit :=
  fun w => (Ok tt, mkWorld (ext w) (trace w ++ [e])%list (rand_idx w)).

Definition read : M St St := fun w => (Ok (ext w), w).

Definition modify (f : St -> St) : M St unit :=
  fun w => (Ok tt, mkWorld (f (ext w)) (trace w) (rand_idx w)).

(** [await new Promise(resolve => setTimeout(resolve, ms))] *)
Definition sleep (ms : Q) : M St unit := emit (EvSleep ms).

Definition console_error (label : string) : M St unit :=
  emit (EvError label).

(** Invoking an operation of the outside world: the invocation is
    recorded, and the operation acts on the outside state only. *)
Definition invoke {T} (c : Call) (op : St -> Outcome T * St) : M St T :=
  fun w =>
    let '(r, s') := op (ext w) in
    (r, mkWorld s' (trace w ++ [EvCall c])%list (rand_idx w)).

End Monad.

Notation "x <- m ;; k" := (bind m (fun x => k))
  (at level 61, m at next level, right associativity).
Notation "m ;; k" := (bind m (fun _ => k))
  (at level 61, right associativity).

(* ===================================================================== *)
(** ** The state of a browser session *)
(* ===================================================================== *)

(** The outside world as the program meets it: what each remote interface
    answers, in the order of the calls made to it, and the blobs that were
    given an object URL.  An interface with no answer left never answers. *)
Record Net : Type := mkNet {
  content_q : list (Outcome GenerateContentResponse);
      (* [ai.models.generateContent] *)
  op_q : list (Outcome Operation);
      (* [ai.models.generateVideos], [ai.operations.getVideosOperation] *)
  fetch_q : list (Outcome FetchResponse);
      (* [fetch], with the body its [blob()] gives *)
  blobs : list Blob
      (* [URL.createObjectURL] *)
}.

(** The [useState] cells of [SceneCard]. *)
Record SceneCardState : Type := mkCard {
  startFrame : Frame.t;
  endFrame : Frame.t;
  videoState : VideoState.t;
  isGeneratingStartFrame : bool;
  isGeneratingEndFrame : bool;
  card_error : option string
}.

Definition SceneCard_initial : SceneCardState :=
  mkCard (Frame.mk "" None) (Frame.mk "" None)
         (VideoState.mk IDLE None "") false false None.

(** The [useState] cells of [App].  [scenes] and [characters] hold what
    [JSON.parse] returned, which the code casts without a check. *)
Record AppState : Type := mkApp {
  script : string;
  scenes : JsVal;
  characters : JsVal;
  selectedStyle : option Style.t;
  isLoading : bool;
  app_error : option string
}.

Record Sys : Type := mkSys {
  net : Net;
  card : SceneCardState;
  app : AppState
}.

Definition with_net (f : Net -> Net) (s : Sys) : Sys :=
  mkSys (f (net s)) (card s) (app s).
Definition with_card (f : SceneCardState -> SceneCardState) (s : Sys) : Sys :=
  mkSys (net s) (f (card s)) (app s).
Definition with_app (f : AppState -> AppState) (s : Sys) : Sys :=
  mkSys (net s) (card s) (f (app s)).

(** *** The remote operations *)

Definition next_content (s : Sys) : Outcome GenerateContentResponse * Sys :=
  match content_q (net s) with
  | [] => (Pending, s)
  | r :: q =>
      (r, with_net (fun n => mkNet q (op_q n) (fetch_q n) (blobs n)) s)
  end.

Definition next_operation (s : Sys) : Outcome Operation * Sys :=
  match op_q (net s) with
  | [] => (Pending, s)
  | r :: q =>
      (r, with_net (fun n => mkNet (content_q n) q (fetch_q n) (blobs n)) s)
  end.

Definition next_fetch (s : Sys) : Outcome FetchResponse * Sys :=
  match fetch_q (net s) with
  | [] => (Pending, s)
  | r :: q =>
      (r, with_net (fun n => mkNet (content_q n) (op_q n) q (blobs n)) s)
  end.

(** [ai.models.generateContent(req)] *)
Definition generateContent (req : GenerateContentRequest)
  : M Sys GenerateContentResponse :=
  invoke (CGenerateContent req) next_content.

(** [ai.models.generateVideos(req)] *)
Definition generateVideos (req : GenerateVideosRequest) : M Sys Operation :=
  invoke (CGenerateVideos req) next_operation.

(** [ai.operations.getVideosOperation({ operation })] *)
Definition getVideosOperation (operation : Operation) : M Sys Operation :=
  invoke (CGetVideosOperation operation) next_operation.

(** [fetch(url)] followed by [.blob()] on its response. *)
Definition fetch (url : string) : M Sys FetchResponse :=
  invoke (CFetch url) next_fetch.

Fixpoint decimal_digits (fuel n : nat) (acc : string) : string :=
  match fuel with
  | O => acc
  | S fuel' =>
      let acc' := String (ascii_of_nat (48 + n mod 10)) acc in
      if n <? 10 then acc' else decimal_digits fuel' (n / 10) acc'
  end.

(** [URL.createObjectURL(blob)]: a fresh, non-empty URL for each blob. *)
Definition createObjectURL (blob : Blob) : M Sys string :=
  fun w =>
    let n := List.length (blobs (net (ext w))) in
    (Ok ("blob:" ++ decimal_digits (S n) n ""),
     mkWorld
       (with_net (fun nt => mkNet (content_q nt) (op_q nt) (fetch_q nt)
                                  (blobs nt ++ [blob])%list) (ext w))
       (trace w) (rand_idx w)).

(** *** The state setters of the components *)

Definition setStartFrame (f : Frame.t -> Frame.t) : M Sys unit :=
  modify (with_card (fun c =>
    mkCard (f (startFrame c)) (endFrame c) (videoState c)
           (isGeneratingStartFrame c) (isGeneratingEndFrame c) (card_error c))).

Definition setEndFrame (f : Frame.t -> Frame.t) : M Sys unit :=
  modify (with_card (fun c =>
    mkCard (startFrame c) (f (endFrame c)) (videoState c)
           (isGeneratingStartFrame c) (isGeneratingEndFrame c) (card_error c))).

Definition setVideoState (v : VideoState.t) : M Sys unit :=
  modify (with_card (fun c =>
    mkCard (startFrame c) (endFrame c) v
           (isGeneratingStartFrame c) (isGeneratingEndFrame c) (card_error c))) ;;
  emit (EvVideoState v).

Definition setIsGeneratingStartFrame (b : bool) : M Sys unit :=
  modify (with_card (fun c =>
    mkCard (startFrame c) (endFrame c) (videoState c)
           b (isGeneratingEndFrame c) (card_error c))).

Definition setIsGeneratingEndFrame (b : bool) : M Sys unit :=
  modify (with_card (fun c =>
    mkCard (startFrame c) (endFrame c) (videoState c)
           (isGeneratingStartFrame c) b (card_error c))).

(** [setError] of [SceneCard] *)
Definition setError (e : option string) : M Sys unit :=
  modify (with_card (fun c =>
    mkCard (startFrame c) (endFrame c) (videoState c)
           (isGeneratingStartFrame c) (isGeneratingEndFrame c) e)).

Definition setScenes (v : JsVal) : M Sys unit :=
  modify (with_app (fun a =>
    mkApp (script a) v (characters a) (selectedStyle a) (isLoading a)
          (app_error a))).

Definition setCharacters (v : JsVal) : M Sys unit :=
  modify (with_app (fun a =>
    mkApp (script a) (scenes a) v (selectedStyle a) (isLoading a)
          (app_error a))).

Definition setSelectedStyle (st : option Style.t) : M Sys unit :=
  modify (with_app (fun a =>
    mkApp (script a) (scenes a) (characters a) st (isLoading a)
          (app_error a))).

Definition setIsLoading (b : bool) : M Sys unit :=
  modify (with_app (fun a =>
    mkApp (script a) (scenes a) (characters a) (selectedStyle a) b
          (app_error a))).

(** [setError] of [App] *)
Definition setAppError (e : option string) : M Sys unit :=
  modify (with_app (fun a =>
    mkApp (script a) (scenes a) (characters a) (selectedStyle a)
          (isLoading a) e)).

(* ===================================================================== *)
(** ** JavaScript numbers *)
(* ===================================================================== *)

(** A JavaScript number is a double; the finite ones are rational numbers.
    [binary64 x] is the double that an arithmetic operation returns when its
    exact result is [x]: the number with 53 significant bits nearest to
    [x], the one with an even last bit when two are equally near.  The
    range of the exponent is not modelled: magnitudes below [2^-1022] and
    from [2^1024] on, which no delay of this program reaches, are rounded
    like the others. *)

(** [floor (log2 x)] for a positive [x]. *)
Definition exponent (x : Q) : Z :=
  let e := (Z.log2 (Qnum x) - Z.log2 (Zpos (Qden x)))%Z in
  if Qle_bool ((2 # 1) ^ e) x then e else (e - 1)%Z.

(** The integer nearest to [t], the even one of the two when [t] is half way
    between them. *)
Definition round_half_even (t : Q) : Z :=
  let f := Qfloor t in
  match (t - inject_Z f ?= 1 # 2)%Q with
  | Lt => f
  | Gt => (f + 1)%Z
  | Eq => if Z.even f then f else (f + 1)%Z
  end.

(** The number with 53 significant bits nearest to a positive [x]. *)
Definition round_positive (x : Q) : Q :=
  let s := (exponent x - 52)%Z in
  (inject_Z (round_half_even (x * (2 # 1) ^ (- s))) * (2 # 1) ^ s)%Q.

Definition binary64 (x : Q) : Q :=
  match Qnum x with
  | Z0 => 0%Q
  | Zpos _ => round_positive x
  | Zneg _ => (- round_positive (- x))%Q
  end.

(* ===================================================================== *)
(** ** A concrete platform *)
(* ===================================================================== *)

(** The program below is parametrised by the platform: [JSON.parse], the
    rendering of values in template literals, [Math.random()], the API key
    and the scheduling of [Promise.all].  This module gives one instance of
    each, on which the program runs on concrete inputs. *)
Module Sample.

(** The double quote, which a string literal of this file cannot hold. *)
Definition dq : string := String (ascii_of_nat 34) "".

Definition is_json_space (c : ascii) : bool :=
  let n := nat_of_ascii c in
  (n =? 32) || (n =? 9) || (n =? 10) || (n =? 13).

Fixpoint skip_ws (s : string) : string :=
  match s with
  | String c s' => if is_json_space c then skip_ws s' else s
  | "" => ""
  end.

Definition is_digit (c : ascii) : bool :=
  let n := nat_of_ascii c in (48 <=? n) && (n <=? 57).

Definition digit_value (c : ascii) : Z := Z.of_nat (nat_of_ascii c - 48).

(** The digits at the head of [s], their value after [acc], their number,
    and the rest of [s]. *)
Fixpoint digits (s : string) (acc : Z) (count : nat) : Z * nat * string :=
  match s with
  | String c s' =>
      if is_digit c then digits s' (10 * acc + digit_value c)%Z (S count)
      else (acc, count, s)
  | "" => (acc, count, s)
  end.

(** A JSON number, [-? int (. digits)? ([eE] [+-]? digits)?], read as the
    double nearest to it. *)
Definition parse_number (s : string) : option (Q * string) :=
  let '(negative, s1) :=
    match s with
    | String "-" s' => (true, s')
    | _ => (false, s)
    end in
  let '(int_part, n, s2) := digits s1 0%Z 0 in
  let leading_zero :=
    match s1 with
    | String "0" _ => 1 <? n
    | _ => false
    end in
  if (n =? 0) || leading_zero then None
  else
    let '(num, den, s3) :=
      match s2 with
      | String "." s' =>
          let '(all, m, rest) := digits s' int_part 0 in
          if m =? 0 then (0%Z, 0%Z, rest) else (all, (10 ^ Z.of_nat m)%Z, rest)
      | _ => (int_part, 1%Z, s2)
      end in
    match den with
    | Zpos d =>
        let mantissa := Qmake (if negative then - num else num)%Z d in
        match s3 with
        | String c s4 =>
            if Ascii.eqb c "e"%char || Ascii.eqb c "E"%char then
              let '(sign, s5) :=
                match s4 with
                | String "-" t => ((-1)%Z, t)
                | String "+" t => (1%Z, t)
                | _ => (1%Z, s4)
                end in
              let '(e, m, s6) := digits s5 0%Z 0 in
              if m =? 0 then None
              else Some (binary64 (mantissa * (10 # 1) ^ (sign * e))%Q, s6)
            else Some (binary64 mantissa, s3)
        | "" => Some (binary64 mantissa, s3)
        end
    | _ => None
    end.

(** The body of a string literal after its opening quote, with the simple
    escapes. *)
Fixpoint parse_string (s : string) : option (string * string) :=
  match s with
  | "" => None
  | String c s' =>
      if Ascii.eqb c (ascii_of_nat 34) then Some ("", s')
      else if Ascii.eqb c "\"%char then
        match s' with
        | String e s'' =>
            let unescaped :=
              if Ascii.eqb e (ascii_of_nat 34) then Some e
              else if Ascii.eqb e "\"%char then Some e
              else if Ascii.eqb e "/"%char then Some e
              else if Ascii.eqb e "n"%char then Some (ascii_of_nat 10)
              else if Ascii.eqb e "t"%char then Some (ascii_of_nat 9)
              else if Ascii.eqb e "r"%char then Some (ascii_of_nat 13)
              else None in
            match unescaped, parse_string s'' with
            | Some u, Some (str, rest) => Some (String u str, rest)
            | _, _ => None
            end
        | "" => None
        end
      else if nat_of_ascii c <? 32 then None
      else
        match parse_string s' with
        | Some (str, rest) => Some (String c str, rest)
        | None => None
        end
  end.

(** [obj[k] = v]: a later member replaces an earlier one of the same name. *)
Fixpoint set_member (k : string) (v : JsVal) (props : list (string * JsVal))
  : list (string * JsVal) :=
  match props with
  | [] => [(k, v)]
  | (k', v') :: rest =>
      if String.eqb k k' then (k, v) :: rest
      else (k', v') :: set_member k v rest
  end.

Inductive Mode : Type :=
| MValue
| MElements (acc : list JsVal)
| MMembers (acc : list (string * JsVal)).

Fixpoint parse (fuel : nat) (mode : Mode) (s : string)
  : option (JsVal * string) :=
  match fuel with
  | O => None
  | S fuel' =>
      match mode with
      | MValue =>
          match skip_ws s with
          | String "n" (String "u" (String "l" (String "l" r))) =>
              Some (VNull, r)
          | String "t" (String "r" (String "u" (String "e" r))) =>
              Some (VBool true, r)
          | String "f" (String "a" (String "l" (String "s" (String "e" r)))) =>
              Some (VBool false, r)
          | String "[" r =>
              match skip_ws r with
              | String "]" r' => Some (VArr [], r')
              | _ => parse fuel' (MElements []) r
              end
          | String "{" r =>
              match skip_ws r with
              | String "}" r' => Some (VObj [], r')
              | _ => parse fuel' (MMembers []) r
              end
          | String c r =>
              if Ascii.eqb c (ascii_of_nat 34) then
                match parse_string r with
                | Some (str, r') => Some (VStr str, r')
                | None => None
                end
              else
                match parse_number (String c r) with
                | Some (q, r') => Some (VNum q, r')
                | None => None
                end
          | "" => None
          end
      | MElements acc =>
          match parse fuel' MValue s with
          | Some (v, r) =>
              match skip_ws r with
              | String "," r' => parse fuel' (MElements (acc ++ [v])%list) r'
              | String "]" r' => Some (VArr (acc ++ [v])%list, r')
              | _ => None
              end
          | None => None
          end
      | MMembers acc =>
          match skip_ws s with
          | String c r =>
              if Ascii.eqb c (ascii_of_nat 34) then
                match parse_string r with
                | Some (k, r1) =>
                    match skip_ws r1 with
                    | String ":" r2 =>
                        match parse fuel' MValue r2 with
                        | Some (v, r3) =>
                            match skip_ws r3 with
                            | String "," r4 =>
                                parse fuel' (MMembers (set_member k v acc)) r4
                            | String "}" r4 =>
                                Some (VObj (set_member k v acc), r4)
                            | _ => None
                            end
                        | None => None
                        end
                    | _ => None
                    end
                | None => None
                end
              else None
          | "" => None
          end
      end
  end.

(** [JSON.parse] on texts without [\u] escapes and without exponents. *)
Definition parse_json (s : string) : option JsVal :=
  match parse (2 * String.length s + 2) MValue s with
  | Some (v, rest) =>
      match skip_ws rest with
      | "" => Some v
      | _ => None
      end
  | None => None
  end.

(** The decimal digits of a non-negative integer, before [acc]. *)
Fixpoint decimal_of (fuel : nat) (z : Z) (acc : string) : string :=
  match fuel with
  | O => acc
  | S fuel' =>
      let acc' := String (ascii_of_nat (48 + Z.to_nat (z mod 10))) acc in
      if (z <? 10)%Z then acc' else decimal_of fuel' (z / 10) acc'
  end.

(** A value inside a template literal: strings as they are, the named
    constants, objects, and the integers below [10^21] in decimal.  Other
    numbers and arrays are not rendered. *)
Definition render (v : JsVal) : string :=
  match v with
  | VStr s => s
  | VUndefined => "undefined"
  | VNull => "null"
  | VBool true => "true"
  | VBool false => "false"
  | VObj _ => "[object Object]"
  | VNum q =>
      match Qred q with
      | Qmake z 1 =>
          if (Z.abs z <? 10 ^ 21)%Z then
            (if (z <? 0)%Z then "-" else "")
            ++ decimal_of (S (Z.to_nat (Z.log2 (Z.abs z)))) (Z.abs z) ""
          else ""
      | _ => ""
      end
  | VArr _ => ""
  end.

(** A source of random numbers in [0, 1): 0, 1/4, 1/2, 3/4, 0, ... *)
Definition quarters (n : nat) : Q := Qmake (Z.of_nat (n mod 4)) 4.

(** One schedule of [Promise.all] on two operations: the first runs to its
    end, then the second.  (Under the real scheduler both requests are
    issued before either answer is handled; the program below takes the
    schedule as a parameter.) *)
Definition in_order (A B : Type) (a : M Sys A) (b : M Sys B)
  : M Sys (A * B) :=
  x <- a ;; y <- b ;; ret (x, y).

(** The error payload of a rate-limited call:
    [{"error":{"code":429,"status":"RESOURCE_EXHAUSTED"}}] *)
Definition rate_limit_message : string :=
  "{" ++ dq ++ "error" ++ dq ++ ":{" ++ dq ++ "code" ++ dq ++ ":429,"
  ++ dq ++ "status" ++ dq ++ ":" ++ dq ++ "RESOURCE_EXHAUSTED" ++ dq ++ "}}".

(** An operation that always fails as rate-limited, and one that always
    fails otherwise; neither has a state. *)
Definition always_limited (s : unit) : Outcome unit * unit :=
  (Throw (JsError rate_limit_message), s).

Definition always_fatal (s : unit) : Outcome unit * unit :=
  (Throw (JsError "boom"), s).

(** An operation that is rate-limited twice and then succeeds; its state
    counts the invocations. *)
Definition flaky (n : nat) : Outcome string * nat :=
  if n <? 2 then (Throw (JsError rate_limit_message), S n)
  else (Ok "done", S n).

(** The payload of an API error with a message:
    [{"error":{"code":400,"message":"API key not valid"}}] *)
Definition api_error_message : string :=
  "{" ++ dq ++ "error" ++ dq ++ ":{" ++ dq ++ "code" ++ dq ++ ":400,"
  ++ dq ++ "message" ++ dq ++ ":" ++ dq ++ "API key not valid" ++ dq ++ "}}".

(** The scene of the specification's example, with and without characters,
    and a catalog in which [alice] has a portrait. *)
Definition style : Style.t := Style.mk "x" "X" "https://example/x.png" "X".

Definition scene : Scene.t :=
  Scene.mk "S01" "Cafe" "Morning" "Tense" ["Alice"; "Bob"] "Slow dolly-in".

Definition empty_scene : Scene.t :=
  Scene.mk "S01" "Cafe" "Morning" "Tense" [] "Slow dolly-in".

Definition alice : Character.t :=
  Character.mk "alice" "tall, red coat" (Some "data:image/jpeg;base64,QUJD").

Definition catalog : list Character.t := [alice].

(** A card whose start frame has been generated. *)
Definition card_with_start_frame : SceneCardState :=
  mkCard (Frame.mk "start prompt" (Some "data:image/jpeg;base64,AAAA"))
         (Frame.mk "end prompt" None)
         (VideoState.mk IDLE None "") false false None.

Definition not_done : Operation := mkOperation false None.

Definition done_with_uri : Operation :=
  mkOperation true
    (Some (mkVideosResponse
             (Some [mkGeneratedVideo
                      (Some (mkVideo (Some "https://video.example/clip?alt=media")))]))).

Definition done_without_uri : Operation :=
  mkOperation true (Some (mkVideosResponse (Some []))).

(** A response of the image model with one inline image. *)
Definition image_response : GenerateContentResponse :=
  mkContentResponse None
    (Some [mkCandidate
             (Some [mkResponsePart None (Some "here you go");
                    mkResponsePart (Some ("QUJD", "image/png")) None])]).

Definition empty_net : Net := mkNet [] [] [] [].

Definition empty_app : AppState := mkApp "" (VArr []) (VArr []) None false None.

Definition world (n : Net) (c : SceneCardState) (a : AppState) : World Sys :=
  mkWorld (mkSys n c a) [] 0.

End Sample.

(* ===================================================================== *)
(** ** The program *)
(* ===================================================================== *)

Section Platform.

(** [JSON.parse]: [None] when it throws a [SyntaxError]. *)
Variable JSON_parse : string -> option JsVal.

(** What a template literal makes of a value ([ToString]). *)
Variable ToString : JsVal -> string.

(** The successive results of [Math.random()]. *)
Variable random : nat -> Q.

(** [process.env.API_KEY] *)
Variable API_KEY : string.

(** [Promise.all([a, b])]: how the two operations interleave is left to
    the event loop. *)
Variable promise_all :
  forall A B : Type, M Sys A -> M Sys B -> M Sys (A * B).

(* ------------------------------------------------------------------- *)
(** *** [src/services/geminiService.ts] *)
(* ------------------------------------------------------------------- *)

Definition unexpected_error_message : string :=
  "An unexpected error occurred. Please try again.".

Definition getApiErrorMessage (error : JsThrown) : string :=
  match error with
  | JsError message =>
      match JSON_parse message with
      | Some errorBody =>
          match get errorBody "error" with
          | Some err =>
              if truthy_val err && truthy_val (opt_get err "message")
              then ToString (opt_get err "message")
              else unexpected_error_message
          | None => message   (* the [TypeError] is caught *)
          end
      | None => message
      end
  | JsNonError _ => unexpected_error_message
  end.

(** The classification inside the [catch] of [callApiWithRetry]. *)
Definition isRateLimitError (error : JsThrown) : bool :=
  match error with
  | JsError message =>
      match JSON_parse message with
      | Some errorBody =>
          let err := opt_get errorBody "error" in
          strict_eq_str (opt_get err "status") "RESOURCE_EXHAUSTED"
          || strict_eq_num (opt_get err "code") 429
      | None => false
      end
  | JsNonError _ => false
  end.

Section Retry.
Context {St T : Type}.

(** [Math.random()] *)
Definition math_random : M St Q :=
  fun w => (Ok (random (rand_idx w)),
            mkWorld (ext w) (trace w) (1 + rand_idx w)).

(** [initialDelay * Math.pow(2, i) + Math.random() * 1000], with [r] the
    result of [Math.random()]: two products and a sum, each rounded to a
    double.  [Math.pow(2, i)] is exact. *)
Definition backoff_delay (initialDelay i : Z) (r : Q) : Q :=
  binary64 (binary64 (inject_Z (initialDelay * 2 ^ i))
            + binary64 (r * inject_Z 1000))%Q.

(** The [for] loop of [callApiWithRetry], with [n] iterations left, at
    index [i]. *)
Fixpoint retry_loop (apiCall : M St T) (maxRetries initialDelay : Z)
         (n : nat) (i : Z) (lastError : JsThrown) : M St T :=
  match n with
  | O => throw lastError
  | S n' =>
      try_catch apiCall (fun error =>
        if isRateLimitError error then
          r <- math_random ;;
          let delay := backoff_delay initialDelay i r in
          emit (EvWarn delay (i + 1) maxRetries) ;;
          sleep delay ;;
          retry_loop apiCall maxRetries initialDelay n' (i + 1)%Z error
        else
          throw error)
  end.

Definition callApiWithRetry (apiCall : M St T)
           (maxRetries initialDelay : Z) : M St T :=
  retry_loop apiCall maxRetries initialDelay
             (Z.to_nat maxRetries) 0%Z (JsNonError VUndefined).

End Retry.

(** The default values of [maxRetries] and [initialDelay]. *)
Definition default_maxRetries : Z := 5.
Definition default_initialDelay : Z := 1000.

Definition scene_prompt (script : string) : string :=
  nl ++ "    Analyze the following film script. Your task is to break it down into distinct scenes and extract key metadata for each one."
  ++ nl ++ "    For each scene, identify the scene ID, location, time of day, emotional tone/mood, characters involved, and suggest a cinematic camera movement."
  ++ nl ++ "    Only include characters explicitly mentioned in the scene."
  ++ nl ++ "    Return the output as a JSON array of scene objects."
  ++ nl
  ++ nl ++ "    SCRIPT:"
  ++ nl ++ "    ---"
  ++ nl ++ "    " ++ script
  ++ nl ++ "    ---"
  ++ nl ++ "  ".

Definition character_prompt (script : string) : string :=
  nl ++ "        Analyze the provided script and identify all the main characters. For each character, create a detailed visual description that can be used for a text-to-image model."
  ++ nl ++ "        Focus on physical attributes, clothing style, estimated age, and any unique features mentioned or implied."
  ++ nl ++ "        Return the output as a JSON array of character objects."
  ++ nl
  ++ nl ++ "        SCRIPT:"
  ++ nl ++ "        ---"
  ++ nl ++ "        " ++ script
  ++ nl ++ "        ---"
  ++ nl ++ "    ".

Definition trim_of_undefined : JsThrown :=
  JsError "Cannot read properties of undefined (reading 'trim')".

(** The request that [parseScriptToScenes] sends. *)
Definition scene_request (script : string) : GenerateContentRequest :=
  let prompt := scene_prompt script in
  mkContentRequest "gemini-2.5-flash" (ContentsText prompt)
    (JsonConfig "application/json" sceneSchema).

(** The request that [extractCharactersFromScript] sends. *)
Definition character_request (script : string) : GenerateContentRequest :=
  let prompt := character_prompt script in
  mkContentRequest "gemini-2.5-flash" (ContentsText prompt)
    (JsonConfig "application/json" characterSchema).

Definition parseScriptToScenes (script : string) : M Sys JsVal :=
  response <-
    callApiWithRetry (generateContent (scene_request script))
      default_maxRetries default_initialDelay ;;
  match text response with
  | None => throw trim_of_undefined
  | Some t =>
      let jsonString := trim t in
      match JSON_parse jsonString with
      | Some v => ret v
      | None =>
          console_error "Failed to parse scene JSON response:" ;;
          throw (JsError "The AI returned an invalid JSON format for scenes.")
      end
  end.

Definition extractCharactersFromScript (script : string) : M Sys JsVal :=
  response <-
    callApiWithRetry (generateContent (character_request script))
      default_maxRetries default_initialDelay ;;
  match text response with
  | None => throw trim_of_undefined
  | Some t =>
      let jsonString := trim t in
      match JSON_parse jsonString with
      | Some v => ret v
      | None =>
          console_error "Failed to parse character JSON response:" ;;
          throw (JsError
                   "The AI returned an invalid JSON format for characters.")
      end
  end.

Inductive AspectRatio : Type := AR_16_9 | AR_1_1.

Definition aspect_text (a : AspectRatio) : string :=
  match a with
  | AR_16_9 => "16:9"
  | AR_1_1 => "1:1"
  end.

(** [response.candidates?.[0]?.content?.parts] *)
Definition first_candidate_parts (response : GenerateContentResponse)
  : option (list ResponsePart) :=
  match candidates response with
  | Some (c :: _) => content_parts c
  | _ => None
  end.

(** The first part with [inlineData], as the [for] loop finds it. *)
Fixpoint first_inline (parts : list ResponsePart) : option (string * string) :=
  match parts with
  | [] => None
  | part :: rest =>
      match rp_inlineData part with
      | Some d => Some d
      | None => first_inline rest
      end
  end.

(** The request that [generateImageForPrompt] sends. *)
Definition image_request (fullPrompt : string) : GenerateContentRequest :=
  mkContentRequest "gemini-2.5-flash-image-preview"
    (ContentsParts [PartText fullPrompt])
    (ModalitiesConfig [IMAGE; TEXT]).

Definition generateImageForPrompt (prompt : string)
           (aspectRatio : AspectRatio) : M Sys string :=
  let fullPrompt :=
    prompt ++ ". Aspect ratio: " ++ aspect_text aspectRatio ++ "." in
  response <-
    callApiWithRetry (generateContent (image_request fullPrompt))
      default_maxRetries default_initialDelay ;;
  match first_candidate_parts response with
  | Some parts =>
      match first_inline parts with
      | Some (base64ImageBytes, mime) =>
          ret ("data:" ++ mime ++ ";base64," ++ base64ImageBytes)
      | None => throw (JsError "Image generation failed to return an image.")
      end
  | None => throw (JsError "Image generation failed to return an image.")
  end.

(** [operation.response?.generatedVideos?.[0]?.video?.uri] *)
Definition downloadLink (operation : Operation) : option string :=
  match response operation with
  | Some r =>
      match generatedVideos r with
      | Some (g :: _) =>
          match video g with
          | Some v => uri v
          | None => None
          end
      | _ => None
      end
  | None => None
  end.

(** The [while (!operation.done)] loop; it has no bound of its own, and
    [fuel] bounds the number of its iterations. *)
Fixpoint poll_loop (fuel : nat) (operation : Operation) : M Sys Operation :=
  if done operation then ret operation
  else
    match fuel with
    | O => pending
    | S fuel' =>
        sleep (inject_Z 10000) ;;
        operation' <-
          callApiWithRetry (getVideosOperation operation)
            default_maxRetries default_initialDelay ;;
        poll_loop fuel' operation'
    end.

(** The request that [generateVideoForScene] submits. *)
Definition video_request (prompt startFrameBase64 : string)
  : GenerateVideosRequest :=
  let base64Data := nth_error (split_comma startFrameBase64) 1 in
  mkVideosRequest "veo-2.0-generate-001" prompt base64Data "image/png" 1.

Definition generateVideoForScene (fuel : nat)
           (prompt startFrameBase64 : string) : M Sys string :=
  operation <-
    callApiWithRetry (generateVideos (video_request prompt startFrameBase64))
      default_maxRetries default_initialDelay ;;
  operation <- poll_loop fuel operation ;;
  if truthy (downloadLink operation) then
    let link := match downloadLink operation with
                | Some l => l
                | None => ""
                end in
    videoResponse <- fetch (link ++ "&key=" ++ API_KEY) ;;
    if negb (ok videoResponse) then
      throw (JsError "Failed to download the generated video file.")
    else
      let videoBlob := body videoResponse in
      createObjectURL videoBlob
  else
    throw (JsError
             "Video generation completed, but no download link was found.").

(* ------------------------------------------------------------------- *)
(** *** [src/components/SceneCard.tsx] *)
(* ------------------------------------------------------------------- *)

(** The callback of [scene.characters.map] in [basePrompt]. *)
Definition describe_character (characters : list Character.t)
           (charName : string) : string :=
  match find (fun c => String.eqb (toLowerCase (Character.name c))
                                  (toLowerCase charName)) characters with
  | Some charData =>
      let charDescription :=
        if truthy (Character.imageUrl charData)
        then "who looks like the provided image reference"
        else "(" ++ Character.description charData ++ ")" in
      Character.name charData ++ " " ++ charDescription
  | None => charName
  end.

Definition characterDetails (scene : Scene.t)
           (characters : list Character.t) : string :=
  join ", " (map (describe_character characters) (Scene.characters scene)).

(** The template literal of [basePrompt], before [replace] and [trim]. *)
Definition basePrompt_template (selectedStyle : Style.t) (scene : Scene.t)
           (details : string) : string :=
  Style.promptModifier selectedStyle ++ ". " ++ nl
  ++ "    Location: " ++ Scene.location scene
  ++ ". Time: " ++ Scene.time scene
  ++ ". Mood: " ++ Scene.mood scene ++ ". " ++ nl
  ++ "    Characters present: "
  ++ (if String.eqb details "" then "None" else details) ++ ".".

Definition basePrompt (selectedStyle : Style.t) (scene : Scene.t)
           (characters : list Character.t) : string :=
  trim (collapse (basePrompt_template selectedStyle scene
                    (characterDetails scene characters))).

Definition startPrompt (selectedStyle : Style.t) (scene : Scene.t)
           (characters : list Character.t) : string :=
  basePrompt selectedStyle scene characters
  ++ " Wide shot establishing the scene. Camera movement suggests: "
  ++ Scene.camera_movement scene ++ ".".

Definition endPrompt (selectedStyle : Style.t) (scene : Scene.t)
           (characters : list Character.t) : string :=
  basePrompt selectedStyle scene characters
  ++ " Close-up shot focusing on a key character or object, showing emotional development.".

Definition generatePrompts (selectedStyle : Style.t) (scene : Scene.t)
           (characters : list Character.t) : M Sys unit :=
  setStartFrame (fun f =>
    Frame.mk (startPrompt selectedStyle scene characters) (Frame.imageUrl f)) ;;
  setEndFrame (fun f =>
    Frame.mk (endPrompt selectedStyle scene characters) (Frame.imageUrl f)).

Definition is_line_terminator (c : ascii) : bool :=
  let n := nat_of_ascii c in (n =? 10) || (n =? 13).

(** The rest of a match of [/:(.*?);/] after its colon: the characters
    up to the first semicolon, none of them a line terminator. *)
Fixpoint until_semicolon (s : string) : option string :=
  match s with
  | "" => None
  | String c s' =>
      if Ascii.eqb c ";"%char then Some ""
      else if is_line_terminator c then None
      else option_map (String c) (until_semicolon s')
  end.

(** [header.match(/:(.*?);/)?.[1]] *)
Fixpoint match_mime (header : string) : option string :=
  match header with
  | "" => None
  | String c s' =>
      if Ascii.eqb c ":"%char then
        match until_semicolon s' with
        | Some m => Some m
        | None => match_mime s'
        end
      else match_mime s'
  end.

Definition getBase64Data (dataUrl : string) : InlineData :=
  let segments := split_comma dataUrl in
  let header := hd "" segments in
  let data := nth_error segments 1 in
  let mimeType := match_mime header in
  mkInlineData data
    (match mimeType with
     | Some m => if String.eqb m "" then "image/png" else m
     | None => "image/png"
     end).

(** A call with one argument more than the function has parameters: the
    argument is evaluated and the function never sees it. *)
Definition call_with_extra {A B C R} (f : A -> B -> R)
           (a : A) (b : B) (extra : C) : R := f a b.

(** The portraits of the characters of the scene, as [inlineData] parts. *)
Definition character_images (scene : Scene.t)
           (characters : list Character.t) : list Part :=
  let sceneCharacterNames := map toLowerCase (Scene.characters scene) in
  let relevantCharacters :=
    filter (fun c =>
              truthy (Character.imageUrl c)
              && existsb (String.eqb (toLowerCase (Character.name c)))
                         sceneCharacterNames)
           characters in
  map (fun char =>
         PartInline (getBase64Data
                       (match Character.imageUrl char with
                        | Some u => u
                        | None => ""
                        end)))
      relevantCharacters.

(** In the handlers, [snap] is the state of the render that created the
    callback: what its closure reads.  State is written through the
    setters. *)
Definition handleGenerateStartFrame (snap : SceneCardState)
           (scene : Scene.t) (characters : list Character.t) : M Sys string :=
  setIsGeneratingStartFrame true ;;
  setError None ;;
  try_finally
    (try_catch
       (let baseImages := character_images scene characters in
        imageUrl <-
          call_with_extra generateImageForPrompt
            (Frame.prompt (startFrame snap)) AR_16_9 baseImages ;;
        setStartFrame (fun f => Frame.mk (Frame.prompt f) (Some imageUrl)) ;;
        ret imageUrl)
       (fun err =>
          console_error "Start frame generation failed:" ;;
          setError (Some ("Failed to generate start frame: "
                          ++ getApiErrorMessage err)) ;;
          throw err))
    (setIsGeneratingStartFrame false).

Definition handleGenerateEndFrame (snap : SceneCardState)
           (scene : Scene.t) (characters : list Character.t)
           (startFrameImageUrl : string) : M Sys unit :=
  setIsGeneratingEndFrame true ;;
  setError None ;;
  try_finally
    (try_catch
       (let startFrameImage :=
          PartInline (getBase64Data startFrameImageUrl) in
        let characterImages := character_images scene characters in
        let baseImages := startFrameImage :: characterImages in
        imageUrl <-
          call_with_extra generateImageForPrompt
            (Frame.prompt (endFrame snap)) AR_16_9 baseImages ;;
        setEndFrame (fun f => Frame.mk (Frame.prompt f) (Some imageUrl)))
       (fun err =>
          console_error "End frame generation failed:" ;;
          setError (Some ("Failed to generate end frame: "
                          ++ getApiErrorMessage err))))
    (setIsGeneratingEndFrame false).

Definition handleGenerateImages (snap : SceneCardState)
           (scene : Scene.t) (characters : list Character.t) : M Sys unit :=
  try_catch
    (newStartFrameUrl <- handleGenerateStartFrame snap scene characters ;;
     if negb (String.eqb newStartFrameUrl "") then
       handleGenerateEndFrame snap scene characters newStartFrameUrl
     else ret tt)
    (fun err => ret tt).

Definition videoPrompt (scene : Scene.t) : string :=
  "Animate this scene with this camera movement: "
  ++ Scene.camera_movement scene ++ ". " ++ nl
  ++ "                             The scene is at " ++ Scene.location scene
  ++ " during the " ++ Scene.time scene
  ++ ". The mood is " ++ Scene.mood scene ++ ".".

Definition handleGenerateVideo (fuel : nat) (snap : SceneCardState)
           (scene : Scene.t) : M Sys unit :=
  match Frame.imageUrl (startFrame snap) with
  | Some startFrameImageUrl =>
      if String.eqb startFrameImageUrl "" then
        setError (Some "Please generate the start frame image first.")
      else
        setVideoState
          (VideoState.mk GENERATING None VIDEO_GENERATION_MESSAGES_0) ;;
        setError None ;;
        try_catch
          (videoUrl <-
             generateVideoForScene fuel (videoPrompt scene)
               startFrameImageUrl ;;
           setVideoState (VideoState.mk DONE (Some videoUrl) ""))
          (fun err =>
             console_error "Video generation failed:" ;;
             let message :=
               match err with
               | JsError m => m
               | JsNonError _ => "An unknown error occurred."
               end in
             setError
               (Some (message ++ " This is an experimental feature and may fail. Please try again.")) ;;
             setVideoState (VideoState.mk ERROR None ""))
  | None => setError (Some "Please generate the start frame image first.")
  end.

(* ------------------------------------------------------------------- *)
(** *** [src/App.tsx] *)
(* ------------------------------------------------------------------- *)

Definition handleAnalyzeScript (snap : AppState) : M Sys unit :=
  if String.eqb (trim (script snap)) "" then
    setAppError (Some "Script cannot be empty.")
  else
    setIsLoading true ;;
    setAppError None ;;
    setScenes (VArr []) ;;
    setCharacters (VArr []) ;;
    setSelectedStyle None ;;
    try_finally
      (try_catch
         (results <-
            promise_all _ _ (parseScriptToScenes (script snap))
                            (extractCharactersFromScript (script snap)) ;;
          let '(parsedScenes, extractedCharacters) := results in
          setScenes parsedScenes ;;
          setCharacters extractedCharacters)
         (fun err =>
            console_error "Error analyzing script:" ;;
            let friendlyMessage := getApiErrorMessage err in
            setAppError (Some ("Failed to analyze script: "
                               ++ friendlyMessage))))
      (setIsLoading false).

(* ------------------------------------------------------------------- *)
(** *** More of [src/components/SceneCard.tsx] and [src/App.tsx] *)
(* ------------------------------------------------------------------- *)

(** [VIDEO_GENERATION_MESSAGES] ([src/constants.ts]) *)
Definition VIDEO_GENERATION_MESSAGES : list string :=
  ["Warming up the virtual cameras...";
   "Analyzing scene depth and parallax...";
   "Rendering cinematic motion vectors...";
   "Applying digital film grain...";
   "Interpolating keyframes for smooth motion...";
   "This can take a few minutes, good things come to those who wait.";
   "Finalizing color grade and composition...";
   "Almost there, adding the final touches..."].

(** [arr.indexOf(x)] on an array of strings: [-1] when [x] is not there. *)
Fixpoint indexOf (x : string) (arr : list string) : Z :=
  match arr with
  | [] => (-1)%Z
  | y :: rest =>
      if String.eqb y x then 0%Z
      else let i := indexOf x rest in
           if (i <? 0)%Z then (-1)%Z else (i + 1)%Z
  end.

(** The updater that the interval of the [useEffect] passes to
    [setCurrentLoadingMessage]; [None] is [undefined]. *)
Definition next_loading_message (prev : string) : option string :=
  let currentIndex := indexOf prev VIDEO_GENERATION_MESSAGES in
  let nextIndex :=
    Z.rem (currentIndex + 1)
          (Z.of_nat (List.length VIDEO_GENERATION_MESSAGES)) in
  if (nextIndex <? 0)%Z then None
  else nth_error VIDEO_GENERATION_MESSAGES (Z.to_nat nextIndex).

Definition VideoStatus_eqb (a b : VideoStatus) : bool :=
  match a, b with
  | IDLE, IDLE | GENERATING, GENERATING | DONE, DONE | ERROR, ERROR => true
  | _, _ => false
  end.

(** [startFrame.imageUrl && endFrame.imageUrl &&
     videoState.status === VideoStatus.IDLE], as a condition. *)
Definition canGenerateVideo (c : SceneCardState) : bool :=
  truthy (Frame.imageUrl (startFrame c))
  && truthy (Frame.imageUrl (endFrame c))
  && VideoStatus_eqb (VideoState.status (videoState c)) IDLE.

Definition isAnyImageLoading (c : SceneCardState) : bool :=
  isGeneratingStartFrame c || isGeneratingEndFrame c.

Definition isBusy (c : SceneCardState) : bool :=
  isAnyImageLoading c
  || VideoStatus_eqb (VideoState.status (videoState c)) GENERATING.

(** The [disabled] attribute of the "Generate Video" button. *)
Definition video_button_disabled (c : SceneCardState) : bool :=
  negb (canGenerateVideo c)
  || VideoStatus_eqb (VideoState.status (videoState c)) GENERATING.

(** [onRegenerate] of the end frame:
    [() => startFrame.imageUrl && handleGenerateEndFrame(startFrame.imageUrl)] *)
Definition regenerateEndFrame (snap : SceneCardState)
           (scene : Scene.t) (characters : list Character.t) : M Sys unit :=
  match Frame.imageUrl (startFrame snap) with
  | Some startFrameImageUrl =>
      if String.eqb startFrameImageUrl "" then ret tt
      else handleGenerateEndFrame snap scene characters startFrameImageUrl
  | None => ret tt
  end.

(** The updater that [handleUpdateCharacter] passes to [setCharacters], at
    the type the state is declared with:
    [prev => prev.map(c => c.name === updatedCharacter.name
                           ? updatedCharacter : c)] *)
Definition update_characters (updatedCharacter : Character.t)
           (prev : list Character.t) : list Character.t :=
  map (fun c =>
         if String.eqb (Character.name c) (Character.name updatedCharacter)
         then updatedCharacter else c)
      prev.

(** [{ ...character, imageUrl }] *)
Definition with_portrait (character : Character.t) (imageUrl : string)
  : Character.t :=
  Character.mk (Character.name character) (Character.description character)
               (Some imageUrl).

(* ------------------------------------------------------------------- *)
(** *** [src/components/CharacterCard.tsx] *)
(* ------------------------------------------------------------------- *)

(** The [useState] cells of [CharacterCard]. *)
Record CharacterCardState : Type := mkCharacterCard {
  cc_isLoading : bool;
  cc_imageUrl : option string;
  cc_error : option string
}.

(** A character card inside the application: the session, the cells of the
    card, and the catalog that [App] holds, at the type it is declared
    with. *)
Record Studio : Type := mkStudio {
  session : Sys;
  portrait : CharacterCardState;
  catalog : list Character.t
}.

(** A service call made from the card: it acts on the session only. *)
Definition in_session {A} (m : M Sys A) : M Studio A :=
  fun w =>
    let '(r, w') := m (mkWorld (session (ext w)) (trace w) (rand_idx w)) in
    (r, mkWorld (mkStudio (ext w') (portrait (ext w)) (catalog (ext w)))
                (trace w') (rand_idx w')).

(** [setIsLoading], [setImageUrl] and [setError] of [CharacterCard]. *)
Definition setPortraitIsLoading (b : bool) : M Studio unit :=
  modify (fun s =>
    mkStudio (session s)
             (mkCharacterCard b (cc_imageUrl (portrait s))
                              (cc_error (portrait s)))
             (catalog s)).

Definition setPortraitImageUrl (u : option string) : M Studio unit :=
  modify (fun s =>
    mkStudio (session s)
             (mkCharacterCard (cc_isLoading (portrait s)) u
                              (cc_error (portrait s)))
             (catalog s)).

Definition setPortraitError (e : option string) : M Studio unit :=
  modify (fun s =>
    mkStudio (session s)
             (mkCharacterCard (cc_isLoading (portrait s))
                              (cc_imageUrl (portrait s)) e)
             (catalog s)).

(** [handleUpdateCharacter] of [App], which the card receives as
    [onUpdateCharacter]. *)
Definition handleUpdateCharacter (updatedCharacter : Character.t)
  : M Studio unit :=
  modify (fun s =>
    mkStudio (session s) (portrait s)
             (update_characters updatedCharacter (catalog s))).

Definition portrait_prompt (character : Character.t)
           (selectedStyle : Style.t) : string :=
  "Character portrait of " ++ Character.name character ++ ", "
  ++ Character.description character ++ ". Style: "
  ++ Style.promptModifier selectedStyle
  ++ ". Centered, high-detail, neutral background.".

Definition handleGeneratePortrait (character : Character.t)
           (selectedStyle : Style.t) : M Studio unit :=
  setPortraitIsLoading true ;;
  setPortraitError None ;;
  try_finally
    (try_catch
       (newImageUrl <-
          in_session
            (generateImageForPrompt (portrait_prompt character selectedStyle)
                                    AR_1_1) ;;
        setPortraitImageUrl (Some newImageUrl) ;;
        handleUpdateCharacter (with_portrait character newImageUrl))
       (fun err =>
          console_error "Failed to generate character portrait:" ;;
          setPortraitError (Some ("Image generation failed: "
                                  ++ getApiErrorMessage err))))
    (setPortraitIsLoading false).

(** The sum of a list of delays. *)
Definition total_delay (ds : list Q) : Q := fold_right Qplus 0%Q ds.

(* ------------------------------------------------------------------- *)
(** *** Auxiliary definitions of the proofs *)
(* ------------------------------------------------------------------- *)

(** The world after an invocation of an operation that leaves the outside
    in [s']. *)
Definition called {St} (c : Call) (w : World St) (s' : St) : World St :=
  mkWorld s' (trace w ++ [EvCall c])%list (rand_idx w).

(** The world after a rate-limited attempt [i] and the wait that follows. *)
Definition backed_off {St} (c : Call) (maxRetries initialDelay : Z)
           (w : World St) (s' : St) (i : Z) : World St :=
  let d := backoff_delay initialDelay i (random (rand_idx w)) in
  mkWorld s'
    (trace w ++ [EvCall c; EvWarn d (i + 1) maxRetries; EvSleep d])%list
    (1 + rand_idx w).

(** [m] only adds events to the trace, and each of them satisfies [P]. *)
Definition emits {St A} (P : Event -> Prop) (m : M St A) : Prop :=
  forall w, exists tr, trace (snd (m w)) = (trace w ++ tr)%list /\ Forall P tr.

(** [m] maintains the property [I] of the outside state. *)
Definition maintains {St A} (I : St -> Prop) (m : M St A) : Prop :=
  forall w, I (ext w) -> I (ext (snd (m w))).

(** A property of the session that does not look at the network. *)
Definition net_blind (I : Sys -> Prop) : Prop :=
  forall s f, I s -> I (with_net f s).

(** The invariant of a [VideoState]: [DONE] has a url, [ERROR] has none. *)
Definition VideoState_ok (v : VideoState.t) : Prop :=
  (VideoState.status v = DONE -> VideoState.url v <> None)
  /\ (VideoState.status v = ERROR -> VideoState.url v = None).

(** The video states set, the calls, the waits and the job-status calls of a
    trace. *)
Definition video_states (tr : list Event) : list VideoState.t :=
  flat_map (fun ev => match ev with EvVideoState v => [v] | _ => [] end) tr.

Definition calls (tr : list Event) : list Call :=
  flat_map (fun ev => match ev with EvCall c => [c] | _ => [] end) tr.

Definition sleeps (tr : list Event) : list Q :=
  flat_map (fun ev => match ev with EvSleep d => [d] | _ => [] end) tr.

Definition status_calls (tr : list Event) : list Call :=
  flat_map (fun ev => match ev with
                      | EvCall (CGenerateVideos r) => [CGenerateVideos r]
                      | EvCall (CGetVideosOperation o) => [CGetVideosOperation o]
                      | _ => []
                      end) tr.

Fixpoint no_comma (s : string) : bool :=
  match s with
  | "" => true
  | String c s' => negb (Ascii.eqb c comma) && no_comma s'
  end.

(** [limited_run op k s s']: from the state [s], [k] invocations of [op] in
    a row fail with a rate-limit failure and leave the state [s']. *)
Inductive limited_run {St T} (op : St -> Outcome T * St)
  : nat -> St -> St -> Prop :=
| limited_none s : limited_run op 0 s s
| limited_more k s s1 s' e :
    op s = (Throw e, s1) -> isRateLimitError e = true ->
    limited_run op k s1 s' -> limited_run op (S k) s s'.

(** An outcome that ends the retry loop: anything but a rate-limit failure. *)
Definition settles {T} (r : Outcome T) : Prop :=
  match r with
  | Throw e => isRateLimitError e = false
  | _ => True
  end.

(** A mime type that a data URL header can carry as it is: not empty, and
    without comma, semicolon or line terminator. *)
Fixpoint plain_chars (s : string) : bool :=
  match s with
  | "" => true
  | String c s' =>
      negb (Ascii.eqb c comma) && negb (Ascii.eqb c ";"%char)
      && negb (is_line_terminator c) && plain_chars s'
  end.

Definition plain_mime (m : string) : bool :=
  negb (String.eqb m "") && plain_chars m.

(** A response part without [inlineData]. *)
Definition no_inline (part : ResponsePart) : Prop := rp_inlineData part = None.

(** What [generateVideoForScene] does with the operation that the poll loop
    returns: the lines after the loop. *)
Definition download_video (operation : Operation) : M Sys string :=
  if truthy (downloadLink operation) then
    let link := match downloadLink operation with
                | Some l => l
                | None => ""
                end in
    videoResponse <- fetch (link ++ "&key=" ++ API_KEY) ;;
    if negb (ok videoResponse) then
      throw (JsError "Failed to download the generated video file.")
    else
      let videoBlob := body videoResponse in
      createObjectURL videoBlob
  else
    throw (JsError
             "Video generation completed, but no download link was found.").

(** The [try] and the [catch] of [handleGenerateVideo]. *)
Definition video_attempt (fuel : nat) (scene : Scene.t)
           (startFrameImageUrl : string) : M Sys unit :=
  try_catch
    (videoUrl <-
       generateVideoForScene fuel (videoPrompt scene) startFrameImageUrl ;;
     setVideoState (VideoState.mk DONE (Some videoUrl) ""))
    (fun err =>
       console_error "Video generation failed:" ;;
       let message :=
         match err with
         | JsError m => m
         | JsNonError _ => "An unknown error occurred."
         end in
       setError
         (Some (message ++ " This is an experimental feature and may fail. Please try again.")) ;;
       setVideoState (VideoState.mk ERROR None "")).

Definition experimental_suffix : string :=
  " This is an experimental feature and may fail. Please try again.".

(** What precedes the character list in the template of [basePrompt]. *)
Definition prompt_head (selectedStyle : Style.t) (scene : Scene.t) : string :=
  Style.promptModifier selectedStyle ++ ". " ++ nl
  ++ "    Location: " ++ Scene.location scene
  ++ ". Time: " ++ Scene.time scene
  ++ ". Mood: " ++ Scene.mood scene ++ ". " ++ nl ++ "    ".

Definition shown_details (details : string) : string :=
  if String.eqb details "" then "None" else details.

(** The template of [basePrompt] on one line, with a single space where the
    source has a space, a line break and four spaces. *)
Definition prompt_line (selectedStyle : Style.t) (scene : Scene.t)
           (details : string) : string :=
  Style.promptModifier selectedStyle
  ++ ". Location: " ++ Scene.location scene
  ++ ". Time: " ++ Scene.time scene
  ++ ". Mood: " ++ Scene.mood scene
  ++ ". Characters present: " ++ details ++ ".".

(** A text that white-space normalisation leaves as it is when other text
    follows it: single-spaced, with no white space in front. *)
Definition tidy (s : string) : bool := single_spaced s && starts_clean s.

(** The job-status queries of a trace: the calls of [getVideosOperation]. *)
Definition poll_calls (tr : list Event) : list Call :=
  flat_map (fun ev => match ev with
                      | EvCall (CGetVideosOperation o) => [CGetVideosOperation o]
                      | _ => []
                      end) tr.


(* =================================================================== *)
(** ** Properties *)
(* =================================================================== *)

(** Drops the parts of the platform that the goal does not mention. *)
Ltac clear_platform :=
  try clear promise_all; try clear API_KEY; try clear ToString;
  try clear random; try clear JSON_parse.

(* --------------------------------------------------------------------- *)
(** *** The retry wrapper, one attempt at a time *)
(* --------------------------------------------------------------------- *)

Section RetryFacts.
Context {St T : Type}.
Variable op : St -> Outcome T * St.
Variable c : Call.
Variables maxRetries initialDelay : Z.

Lemma retry_loop_ok n i lastError w v s' :
  op (ext w) = (Ok v, s') ->
  retry_loop (invoke c op) maxRetries initialDelay (S n) i lastError w
  = (Ok v, called c w s').
Proof.
  intros H. simpl. unfold try_catch, invoke. rewrite H. reflexivity.
Qed.

Lemma retry_loop_pending n i lastError w s' :
  op (ext w) = (Pending, s') ->
  retry_loop (invoke c op) maxRetries initialDelay (S n) i lastError w
  = (Pending, called c w s').
Proof.
  intros H. simpl. unfold try_catch, invoke. rewrite H. reflexivity.
Qed.

Lemma retry_loop_fatal n i lastError w e s' :
  op (ext w) = (Throw e, s') ->
  isRateLimitError e = false ->
  retry_loop (invoke c op) maxRetries initialDelay (S n) i lastError w
  = (Throw e, called c w s').
Proof.
  intros H He. simpl. unfold try_catch, invoke. rewrite H, He. reflexivity.
Qed.

Lemma retry_loop_rate_limited n i lastError w e s' :
  op (ext w) = (Throw e, s') ->
  isRateLimitError e = true ->
  retry_loop (invoke c op) maxRetries initialDelay (S n) i lastError w
  = retry_loop (invoke c op) maxRetries initialDelay n (i + 1) e
               (backed_off c maxRetries initialDelay w s' i).
Proof.
  intros H He. simpl. unfold try_catch at 1. unfold invoke at 1.
  rewrite H, He. unfold bind, math_random, emit, sleep, emit, backed_off.
  simpl. rewrite <- !app_assoc. reflexivity.
Qed.

End RetryFacts.

(* --------------------------------------------------------------------- *)
(** *** Rounding to a double *)
(* --------------------------------------------------------------------- *)

Lemma round_half_even_bounds t (a b : Z) :
  (inject_Z a <= t)%Q -> (t <= inject_Z b)%Q ->
  (a <= round_half_even t <= b)%Z.
Proof.
  intros Ha Hb. unfold round_half_even.
  pose proof (Qfloor_resp_le _ _ Ha) as Hfa. rewrite Qfloor_Z in Hfa.
  pose proof (Qfloor_resp_le _ _ Hb) as Hfb. rewrite Qfloor_Z in Hfb.
  pose proof (Qfloor_le t) as Hf.
  assert (Hup : (inject_Z (Qfloor t) < t)%Q -> (Qfloor t + 1 <= b)%Z).
  { intros H. assert (Qfloor t < b)%Z; [| lia].
    rewrite Zlt_Qlt. eapply Qlt_le_trans; eassumption. }
  destruct (Qcompare_spec (t - inject_Z (Qfloor t)) (1 # 2)) as [E | L | G].
  - destruct (Z.even (Qfloor t)); [lia|].
    split; [lia|]. apply Hup. lra.
  - lia.
  - split; [lia|]. apply Hup. lra.
Qed.

Lemma two_power_pos (e : Z) : (0 < (2 # 1) ^ e)%Q.
Proof. apply Qpower_0_lt. reflexivity. Qed.

Lemma exponent_le x : (0 < x)%Q -> ((2 # 1) ^ exponent x <= x)%Q.
Proof.
  intros Hx. unfold exponent.
  set (n := Qnum x). set (d := Zpos (Qden x)).
  assert (Hn : (0 < n)%Z).
  { unfold Qlt in Hx. simpl in Hx. subst n. lia. }
  destruct (Qle_bool ((2 # 1) ^ (Z.log2 n - Z.log2 d)) x) eqn:B.
  - now apply Qle_bool_iff.
  - clear B.
    destruct (Z.log2_spec n Hn) as [Ln _].
    destruct (Z.log2_spec d ltac:(subst d; lia)) as [_ Ud].
    pose proof (Z.log2_nonneg n) as N0. pose proof (Z.log2_nonneg d) as D0.
    replace (Z.log2 n - Z.log2 d - 1)%Z
      with (Z.log2 n - Z.succ (Z.log2 d))%Z by lia.
    rewrite Qpower_minus by discriminate.
    change (2 # 1)%Q with (inject_Z 2).
    rewrite <- !Zpower_Qpower by lia.
    set (N := (2 ^ Z.log2 n)%Z) in *. set (D := (2 ^ Z.succ (Z.log2 d))%Z) in *.
    assert (HD : (0 < D)%Z) by lia.
    apply Qle_shift_div_r; [rewrite (Zlt_Qlt 0 D) in HD; exact HD|].
    unfold Qle. simpl. fold n. fold d. nia.
Qed.

Lemma exponent_lt x : (0 < x)%Q -> (x < (2 # 1) ^ (exponent x + 1))%Q.
Proof.
  intros Hx. unfold exponent.
  set (n := Qnum x). set (d := Zpos (Qden x)).
  assert (Hn : (0 < n)%Z).
  { unfold Qlt in Hx. simpl in Hx. subst n. lia. }
  destruct (Qle_bool ((2 # 1) ^ (Z.log2 n - Z.log2 d)) x) eqn:B.
  - clear B.
    destruct (Z.log2_spec n Hn) as [_ Un].
    destruct (Z.log2_spec d ltac:(subst d; lia)) as [Ld _].
    pose proof (Z.log2_nonneg n) as N0. pose proof (Z.log2_nonneg d) as D0.
    replace (Z.log2 n - Z.log2 d + 1)%Z
      with (Z.succ (Z.log2 n) - Z.log2 d)%Z by lia.
    rewrite Qpower_minus by discriminate.
    change (2 # 1)%Q with (inject_Z 2).
    rewrite <- !Zpower_Qpower by lia.
    set (N := (2 ^ Z.succ (Z.log2 n))%Z) in *. set (D := (2 ^ Z.log2 d)%Z) in *.
    assert (HD : (0 < D)%Z) by (subst D; apply Z.pow_pos_nonneg; lia).
    apply Qlt_shift_div_l; [rewrite (Zlt_Qlt 0 D) in HD; exact HD|].
    unfold Qlt. simpl. fold n. fold d. nia.
  - replace (Z.log2 n - Z.log2 d - 1 + 1)%Z with (Z.log2 n - Z.log2 d)%Z by lia.
    apply Qnot_le_lt. intros H. apply Qle_bool_iff in H. congruence.
Qed.

Lemma round_positive_between x (a b : Z) :
  (0 < x)%Q -> (inject_Z a <= x)%Q -> (x <= inject_Z b)%Q ->
  (b < 2 ^ 53)%Z ->
  (inject_Z a <= round_positive x)%Q /\ (round_positive x <= inject_Z b)%Q.
Proof.
  intros Hx Ha Hb Hb53. unfold round_positive.
  assert (He : (exponent x <= 52)%Z).
  { assert (exponent x < 53)%Z; [| lia].
    apply (Qpower_lt_compat_l_inv (2 # 1)); [| reflexivity].
    eapply Qle_lt_trans; [apply (exponent_le x Hx)|].
    eapply Qle_lt_trans; [exact Hb|].
    change (2 # 1)%Q with (inject_Z 2).
    rewrite <- Zpower_Qpower by lia. rewrite <- Zlt_Qlt. exact Hb53. }
  set (s := (exponent x - 52)%Z).
  assert (Hk : (0 <= - s)%Z) by (subst s; lia).
  set (P := ((2 # 1) ^ (- s))%Q).
  assert (HP : (0 < P)%Q) by apply two_power_pos.
  assert (EP : (P == inject_Z (2 ^ (- s)))%Q).
  { subst P. change (2 # 1)%Q with (inject_Z 2).
    now rewrite <- Zpower_Qpower. }
  assert (Es : ((2 # 1) ^ s == / P)%Q).
  { subst P. rewrite <- Qpower_opp. now replace (- - s)%Z with s by lia. }
  rewrite Es.
  destruct (round_half_even_bounds (x * P) (a * 2 ^ (- s)) (b * 2 ^ (- s)))
    as [Hlo Hhi].
  - rewrite inject_Z_mult, <- EP. now apply Qmult_le_compat_r; [| apply Qlt_le_weak].
  - rewrite inject_Z_mult, <- EP. now apply Qmult_le_compat_r; [| apply Qlt_le_weak].
  - rewrite Zle_Qle, inject_Z_mult, <- EP in Hlo.
    rewrite Zle_Qle, inject_Z_mult, <- EP in Hhi.
    split.
    + apply Qle_shift_div_l; assumption.
    + apply Qle_shift_div_r; assumption.
Qed.

Lemma binary64_between x (a b : Z) :
  (0 <= x)%Q -> (inject_Z a <= x)%Q -> (x <= inject_Z b)%Q ->
  (b < 2 ^ 53)%Z ->
  (inject_Z a <= binary64 x)%Q /\ (binary64 x <= inject_Z b)%Q.
Proof.
  intros H0 Ha Hb Hb53. unfold binary64.
  destruct (Qnum x) as [| p | p] eqn:E.
  - assert (Hx : (x == 0)%Q) by (unfold Qeq; simpl; rewrite E; reflexivity).
    rewrite Hx in Ha, Hb. split; assumption.
  - apply round_positive_between; try assumption.
    unfold Qlt. simpl. rewrite E. lia.
  - exfalso. unfold Qle in H0. simpl in H0. rewrite E in H0. lia.
Qed.

Lemma binary64_integer (z : Z) :
  (0 <= z < 2 ^ 53)%Z -> (binary64 (inject_Z z) == inject_Z z)%Q.
Proof.
  intros [H0 H1].
  destruct (binary64_between (inject_Z z) z z) as [L U];
    try apply Qle_refl; try assumption.
  - rewrite (Zle_Qle 0 z) in H0. exact H0.
  - now apply Qle_antisym.
Qed.

(** The upper ends of the bounds below are reached: with [Math.random()]
    at [1 - 2^-52] the second delay is exactly 3000, and with
    [1 - 2^-53] the five delays are 2000, 3000, 5000, 9000 and 17000. *)
Example backoff_delay_reaches_upper_end :
  (backoff_delay 1000 1 (4503599627370495 # 4503599627370496) == 3000)%Q
  /\ map (fun i => Qred (backoff_delay 1000 i
                           (9007199254740991 # 9007199254740992)))
         [0; 1; 2; 3; 4]%Z
     = [2000; 3000; 5000; 9000; 17000]%Q.
Proof. split; vm_compute; reflexivity. Qed.

Lemma backoff_delay_bounds initialDelay i r :
  (0 <= r)%Q -> (r < 1)%Q ->
  (0 <= initialDelay * 2 ^ i)%Z ->
  (initialDelay * 2 ^ i + 1000 < 2 ^ 53)%Z ->
  (inject_Z (initialDelay * 2 ^ i) <= backoff_delay initialDelay i r)%Q
  /\ (backoff_delay initialDelay i r
      <= inject_Z (initialDelay * 2 ^ i) + inject_Z 1000)%Q.
Proof.
  intros H0 H1 Hb0 Hb1. unfold backoff_delay.
  set (base := (initialDelay * 2 ^ i)%Z) in *.
  pose proof (binary64_integer base ltac:(lia)) as Eb.
  assert (E1000 : (inject_Z 1000 == 1000)%Q) by reflexivity.
  destruct (binary64_between (r * inject_Z 1000) 0 1000) as [J0 J1];
    try (rewrite ?E1000; change (inject_Z 0) with 0%Q; lra); [lia|].
  change (inject_Z 0) with 0%Q in J0.
  rewrite <- inject_Z_plus.
  apply binary64_between; try lia.
  - rewrite Eb.
    assert (0 <= inject_Z base)%Q
      by (rewrite (Zle_Qle 0 base) in Hb0; exact Hb0).
    lra.
  - rewrite Eb. lra.
  - rewrite Eb, inject_Z_plus. lra.
Qed.

Lemma backoff_base_monotone initialDelay i :
  (0 <= initialDelay)%Z -> (0 <= i)%Z ->
  (inject_Z (initialDelay * 2 ^ i) <= inject_Z (initialDelay * 2 ^ (i + 1)))%Q.
Proof.
  intros Hd Hi. rewrite <- Zle_Qle.
  rewrite Z.pow_add_r by lia. change (2 ^ 1)%Z with 2%Z.
  assert (0 < 2 ^ i)%Z by (apply Z.pow_pos_nonneg; lia). nia.
Qed.

(** C1. An operation that fails on every invocation with a rate-limit
    failure is invoked five times by [callApiWithRetry] with [maxRetries = 5]
    and [initialDelay = 1000].  After every failed attempt, the fifth and
    last included, the wrapper logs that it is retrying and waits: the wait
    after attempt [i] is between [1000 * 2^i] and [1000 * 2^i + 1000] ms,
    and the waits without their jitter never decrease.  So the waits are not
    only between attempts: the fifth, of at least 16 seconds, is logged as
    ["Attempt 5/5"] and followed by no attempt; the failure of the fifth
    attempt is thrown after it. *)
Theorem callApiWithRetry_rate_limited
        {St T : Type} (op : St -> Outcome T * St) (c : Call) (w : World St) :
  (forall n, 0 <= random n /\ random n < 1)%Q ->
  (forall s, exists e s', op s = (Throw e, s') /\ isRateLimitError e = true) ->
  let delay (i : nat) : Q :=
    backoff_delay 1000 (Z.of_nat i) (random (i + rand_idx w)) in
  exists e1 e2 e3 e4 e5 s1 s2 s3 s4 s5,
    op (ext w) = (Throw e1, s1) /\ op s1 = (Throw e2, s2)
    /\ op s2 = (Throw e3, s3) /\ op s3 = (Throw e4, s4)
    /\ op s4 = (Throw e5, s5)
    /\ callApiWithRetry (invoke c op) 5 1000 w
       = (Throw e5,
          mkWorld s5
            (trace w ++
             [EvCall c; EvWarn (delay 0) 1 5; EvSleep (delay 0);
              EvCall c; EvWarn (delay 1) 2 5; EvSleep (delay 1);
              EvCall c; EvWarn (delay 2) 3 5; EvSleep (delay 2);
              EvCall c; EvWarn (delay 3) 4 5; EvSleep (delay 3);
              EvCall c; EvWarn (delay 4) 5 5; EvSleep (delay 4)])%list
            (5 + rand_idx w))
    /\ (forall i : nat,
           (i < 5)%nat ->
           inject_Z (1000 * 2 ^ Z.of_nat i) <= delay i
           /\ delay i <= inject_Z (1000 * 2 ^ Z.of_nat i) + inject_Z 1000)%Q
    /\ (forall i,
           inject_Z (1000 * 2 ^ Z.of_nat i)
           <= inject_Z (1000 * 2 ^ (Z.of_nat i + 1)))%Q
    /\ (inject_Z 16000 <= delay 4%nat)%Q.
Proof.
  intros Hrand Hop delay.
  destruct (Hop (ext w)) as (e1 & s1 & H1 & R1).
  destruct (Hop s1) as (e2 & s2 & H2 & R2).
  destruct (Hop s2) as (e3 & s3 & H3 & R3).
  destruct (Hop s3) as (e4 & s4 & H4 & R4).
  destruct (Hop s4) as (e5 & s5 & H5 & R5).
  assert (Hbounds : forall i : nat,
             (i < 5)%nat ->
             (inject_Z (1000 * 2 ^ Z.of_nat i) <= delay i
              /\ delay i <= inject_Z (1000 * 2 ^ Z.of_nat i) + inject_Z 1000)%Q).
  { intros i Hi. apply backoff_delay_bounds; try apply Hrand.
    - apply Z.mul_nonneg_nonneg; [lia|]. apply Z.pow_nonneg. lia.
    - do 5 (destruct i as [|i]; [reflexivity|]). lia. }
  exists e1, e2, e3, e4, e5, s1, s2, s3, s4, s5.
  repeat match goal with |- _ /\ _ => split; [assumption|] end.
  split; [| split; [| split]].
  - unfold callApiWithRetry. change (Z.to_nat 5) with 5.
    do 5 (erewrite retry_loop_rate_limited by (simpl; eassumption)).
    unfold backed_off, delay. simpl retry_loop. unfold throw. simpl.
    rewrite <- !app_assoc. reflexivity.
  - exact Hbounds.
  - intros i. apply backoff_base_monotone; lia.
  - destruct (Hbounds 4 ltac:(lia)) as [L _].
    exact L.
Qed.

Lemma isRateLimitError_fatal e :
  match e with
  | JsNonError _ => True
  | JsError message =>
      JSON_parse message = None
      \/ exists errorBody,
          JSON_parse message = Some errorBody
          /\ strict_eq_str (opt_get (opt_get errorBody "error") "status")
                           "RESOURCE_EXHAUSTED" = false
          /\ strict_eq_num (opt_get (opt_get errorBody "error") "code") 429
             = false
  end <->
  isRateLimitError e = false.
Proof.
  clear_platform.
  destruct e as [message | v]; simpl; [| tauto].
  destruct (JSON_parse message) as [errorBody |].
  - rewrite orb_false_iff. split.
    + intros [H | (b & Hb & H)]; [discriminate|]. now inversion Hb; subst.
    + intros H. right. now exists errorBody.
  - split; auto.
Qed.

(** C2. When the first invocation of the operation fails with a failure that
    is not an [Error], or whose message is not JSON, or whose JSON has neither
    [error.status] ['RESOURCE_EXHAUSTED'] nor [error.code] [429],
    [callApiWithRetry] has invoked the operation once, has not waited, and
    propagates that failure. *)
Theorem callApiWithRetry_fatal
        {St T : Type} (op : St -> Outcome T * St) (c : Call)
        (maxRetries initialDelay : Z) (w : World St) (e : JsThrown) (s' : St) :
  (1 <= maxRetries)%Z ->
  op (ext w) = (Throw e, s') ->
  match e with
  | JsNonError _ => True
  | JsError message =>
      JSON_parse message = None
      \/ exists errorBody,
          JSON_parse message = Some errorBody
          /\ strict_eq_str (opt_get (opt_get errorBody "error") "status")
                           "RESOURCE_EXHAUSTED" = false
          /\ strict_eq_num (opt_get (opt_get errorBody "error") "code") 429
             = false
  end ->
  callApiWithRetry (invoke c op) maxRetries initialDelay w
  = (Throw e, mkWorld s' (trace w ++ [EvCall c])%list (rand_idx w)).
Proof.
  intros Hm Hop He. apply isRateLimitError_fatal in He.
  unfold callApiWithRetry.
  destruct (Z.to_nat maxRetries) as [|n] eqn:E; [lia|].
  now rewrite (retry_loop_fatal op c maxRetries initialDelay n 0 _ w e s' Hop He).
Qed.
(* --------------------------------------------------------------------- *)
(** *** The retry wrapper, for any number of attempts *)
(* --------------------------------------------------------------------- *)

Lemma calls_app tr1 tr2 : calls (tr1 ++ tr2) = (calls tr1 ++ calls tr2)%list.
Proof. apply flat_map_app. Qed.

Lemma sleeps_app tr1 tr2 :
  sleeps (tr1 ++ tr2) = (sleeps tr1 ++ sleeps tr2)%list.
Proof. apply flat_map_app. Qed.

(** Against an operation that is always rate-limited, [n] iterations of the
    loop make [n] invocations and [n] waits, and end by throwing a
    rate-limit failure. *)
Lemma retry_loop_exhausts {St T} (op : St -> Outcome T * St) c
      maxRetries initialDelay n i lastError w :
  (forall s, exists e s', op s = (Throw e, s') /\ isRateLimitError e = true) ->
  0 < n ->
  exists e w',
    retry_loop (invoke c op) maxRetries initialDelay n i lastError w
    = (Throw e, w')
    /\ isRateLimitError e = true
    /\ List.length (calls (trace w')) = List.length (calls (trace w)) + n
    /\ List.length (sleeps (trace w')) = List.length (sleeps (trace w)) + n.
Proof.
  intros Hop. revert i lastError w.
  induction n as [|n IH]; intros i lastError w Hn; [lia|].
  destruct (Hop (ext w)) as (e & s' & E & R).
  rewrite (retry_loop_rate_limited op c maxRetries initialDelay n i
             lastError w e s' E R).
  assert (Hc : List.length
                 (calls (trace (backed_off c maxRetries initialDelay w s' i)))
               = List.length (calls (trace w)) + 1).
  { unfold backed_off. simpl. rewrite calls_app, length_app. reflexivity. }
  assert (Hs : List.length
                 (sleeps (trace (backed_off c maxRetries initialDelay w s' i)))
               = List.length (sleeps (trace w)) + 1).
  { unfold backed_off. simpl. rewrite sleeps_app, length_app. reflexivity. }
  destruct n as [|n].
  - exists e. eexists. split; [reflexivity|]. split; [exact R|].
    split; assumption.
  - destruct (IH (i + 1)%Z e (backed_off c maxRetries initialDelay w s' i)
                ltac:(lia)) as (e' & w' & E' & R' & Hc' & Hs').
    exists e', w'. split; [exact E'|]. split; [exact R'|]. split; lia.
Qed.

(** For every [maxRetries >= 1] the operation is invoked [maxRetries] times. *)
Lemma callApiWithRetry_exhausts {St T} (op : St -> Outcome T * St) c
      maxRetries initialDelay w :
  (forall s, exists e s', op s = (Throw e, s') /\ isRateLimitError e = true) ->
  (1 <= maxRetries)%Z ->
  exists e w',
    callApiWithRetry (invoke c op) maxRetries initialDelay w = (Throw e, w')
    /\ isRateLimitError e = true
    /\ List.length (calls (trace w'))
       = List.length (calls (trace w)) + Z.to_nat maxRetries
    /\ List.length (sleeps (trace w'))
       = List.length (sleeps (trace w)) + Z.to_nat maxRetries.
Proof.
  intros Hop Hm. unfold callApiWithRetry.
  apply retry_loop_exhausts; [exact Hop | lia].
Qed.

(* --------------------------------------------------------------------- *)
(** *** What a computation emits and what it maintains *)
(* --------------------------------------------------------------------- *)

Section Frames.
Context {St : Type}.
Variable P : Event -> Prop.
Variable I : St -> Prop.

Lemma emits_ret {A} (a : A) : emits (St := St) P (ret a).
Proof. intros w. exists []. simpl. now rewrite app_nil_r. Qed.

Lemma emits_throw {A} e : emits (St := St) (A := A) P (throw e).
Proof. intros w. exists []. simpl. now rewrite app_nil_r. Qed.

Lemma emits_pending {A} : emits (St := St) (A := A) P pending.
Proof. intros w. exists []. simpl. now rewrite app_nil_r. Qed.

Lemma emits_modify f : emits (St := St) P (modify f).
Proof. intros w. exists []. simpl. now rewrite app_nil_r. Qed.

Lemma emits_math_random : emits (St := St) P math_random.
Proof. intros w. exists []. simpl. now rewrite app_nil_r. Qed.

Lemma emits_emit ev : P ev -> emits (St := St) P (emit ev).
Proof. intros H w. exists [ev]. simpl. auto. Qed.

Lemma emits_invoke {T} c (op : St -> Outcome T * St) :
  P (EvCall c) -> emits P (invoke c op).
Proof.
  intros H w. exists [EvCall c]. unfold invoke.
  destruct (op (ext w)). simpl. auto.
Qed.

Lemma emits_bind {A B} (m : M St A) (k : A -> M St B) :
  emits P m -> (forall a, emits P (k a)) -> emits P (bind m k).
Proof.
  intros Hm Hk w. unfold bind. destruct (Hm w) as (tr & E & F).
  destruct (m w) as [[a | e |] w1]; simpl in E; try (now exists tr).
  destruct (Hk a w1) as (tr' & E' & F'). exists (tr ++ tr')%list.
  rewrite E', E, app_assoc. split; [reflexivity | now apply Forall_app].
Qed.

Lemma emits_try_catch {A} (m : M St A) h :
  emits P m -> (forall e, emits P (h e)) -> emits P (try_catch m h).
Proof.
  intros Hm Hh w. unfold try_catch. destruct (Hm w) as (tr & E & F).
  destruct (m w) as [[a | e |] w1]; simpl in E; try (now exists tr).
  destruct (Hh e w1) as (tr' & E' & F'). exists (tr ++ tr')%list.
  rewrite E', E, app_assoc. split; [reflexivity | now apply Forall_app].
Qed.

Lemma emits_try_finally {A} (m : M St A) f :
  emits P m -> emits P f -> emits P (try_finally m f).
Proof.
  intros Hm Hf w. unfold try_finally. destruct (Hm w) as (tr & E & F).
  destruct (m w) as [[a | e |] w1]; simpl in E; try (now exists tr);
    destruct (Hf w1) as (tr' & E' & F'); exists (tr ++ tr')%list;
    (split; [| now apply Forall_app]);
    destruct (f w1) as [[[] | e' |] w2]; simpl in *;
    now rewrite E', E, app_assoc.
Qed.

Lemma maintains_ret {A} (a : A) : maintains (St := St) I (ret a).
Proof. intros w H. exact H. Qed.

Lemma maintains_throw {A} e : maintains (St := St) (A := A) I (throw e).
Proof. intros w H. exact H. Qed.

Lemma maintains_pending {A} : maintains (St := St) (A := A) I pending.
Proof. intros w H. exact H. Qed.

Lemma maintains_emit ev : maintains (St := St) I (emit ev).
Proof. intros w H. exact H. Qed.

Lemma maintains_math_random : maintains (St := St) I math_random.
Proof. intros w H. exact H. Qed.

Lemma maintains_modify f :
  (forall s, I s -> I (f s)) -> maintains (St := St) I (modify f).
Proof. intros Hf w H. simpl. auto. Qed.

Lemma maintains_invoke {T} c (op : St -> Outcome T * St) :
  (forall s, I s -> I (snd (op s))) -> maintains I (invoke c op).
Proof.
  intros Hop w H. unfold invoke. specialize (Hop (ext w) H).
  destruct (op (ext w)). exact Hop.
Qed.

Lemma maintains_bind {A B} (m : M St A) (k : A -> M St B) :
  maintains I m -> (forall a, maintains I (k a)) -> maintains I (bind m k).
Proof.
  intros Hm Hk w H. unfold bind. specialize (Hm w H).
  destruct (m w) as [[a | e |] w1]; simpl in *; auto. now apply Hk.
Qed.

Lemma maintains_try_catch {A} (m : M St A) h :
  maintains I m -> (forall e, maintains I (h e)) -> maintains I (try_catch m h).
Proof.
  intros Hm Hh w H. unfold try_catch. specialize (Hm w H).
  destruct (m w) as [[a | e |] w1]; simpl in *; auto. now apply Hh.
Qed.

Lemma maintains_try_finally {A} (m : M St A) f :
  maintains I m -> maintains I f -> maintains I (try_finally m f).
Proof.
  intros Hm Hf w H. unfold try_finally. specialize (Hm w H).
  destruct (m w) as [[a | e |] w1]; simpl in *; auto;
    specialize (Hf w1 Hm); destruct (f w1) as [[[] | e' |] w2]; exact Hf.
Qed.

Lemma emits_retry_loop {T} (apiCall : M St T) maxRetries initialDelay
      n i lastError :
  emits P apiCall ->
  (forall d a, P (EvWarn d a maxRetries)) -> (forall d, P (EvSleep d)) ->
  emits P (retry_loop apiCall maxRetries initialDelay n i lastError).
Proof.
  intros Hc Hw Hs. revert i lastError.
  induction n as [|n IH]; intros i lastError; simpl.
  - apply emits_throw.
  - apply emits_try_catch; [exact Hc|]. intros e.
    destruct (isRateLimitError e); [| apply emits_throw].
    apply emits_bind; [apply emits_math_random|]. intros r.
    apply emits_bind; [apply emits_emit, Hw|]. intros _.
    apply emits_bind; [apply emits_emit, Hs|]. intros _. apply IH.
Qed.

Lemma maintains_retry_loop {T} (apiCall : M St T) maxRetries initialDelay
      n i lastError :
  maintains I apiCall ->
  maintains I (retry_loop apiCall maxRetries initialDelay n i lastError).
Proof.
  intros Hc. revert i lastError.
  induction n as [|n IH]; intros i lastError; simpl.
  - apply maintains_throw.
  - apply maintains_try_catch; [exact Hc|]. intros e.
    destruct (isRateLimitError e); [| apply maintains_throw].
    apply maintains_bind; [apply maintains_math_random|]. intros r.
    apply maintains_bind; [apply maintains_emit|]. intros _.
    apply maintains_bind; [apply maintains_emit|]. intros _. apply IH.
Qed.

End Frames.
(* --------------------------------------------------------------------- *)
(** *** The services: what they emit, what they leave alone *)
(* --------------------------------------------------------------------- *)

Ltac emits_step :=
  first
    [ apply emits_ret | apply emits_throw | apply emits_pending
    | apply emits_modify | apply emits_math_random
    | apply emits_emit | apply emits_invoke
    | apply emits_retry_loop
    | apply emits_bind; [| intros ?]
    | apply emits_try_catch; [| intros ?]
    | apply emits_try_finally ].

Ltac maintains_step :=
  first
    [ apply maintains_ret | apply maintains_throw | apply maintains_pending
    | apply maintains_emit | apply maintains_math_random
    | apply maintains_modify | apply maintains_invoke
    | apply maintains_retry_loop
    | apply maintains_bind; [| intros ?]
    | apply maintains_try_catch; [| intros ?]
    | apply maintains_try_finally ].

Ltac split_cases :=
  match goal with
  | |- context [match ?x with _ => _ end] =>
      match type of x with
      | sumbool _ _ => fail 1
      | _ => destruct x
      end
  end.

Section ServiceFrames.
Variable P : Event -> Prop.
Variable I : Sys -> Prop.
Hypothesis P_warn : forall d a m, P (EvWarn d a m).
Hypothesis P_sleep : forall d, P (EvSleep d).
Hypothesis I_blind : net_blind I.

Lemma emits_createObjectURL blob : emits P (createObjectURL blob).
Proof. intros w. exists []. simpl. now rewrite app_nil_r. Qed.

Lemma maintains_createObjectURL blob : maintains I (createObjectURL blob).
Proof using I_blind. intros w H. simpl. now apply I_blind. Qed.

Lemma maintains_next_content s : I s -> I (snd (next_content s)).
Proof using I_blind.
  intros H. unfold next_content. destruct (content_q (net s)); simpl; auto.
Qed.

Lemma maintains_next_operation s : I s -> I (snd (next_operation s)).
Proof using I_blind.
  intros H. unfold next_operation. destruct (op_q (net s)); simpl; auto.
Qed.

Lemma maintains_next_fetch s : I s -> I (snd (next_fetch s)).
Proof using I_blind.
  intros H. unfold next_fetch. destruct (fetch_q (net s)); simpl; auto.
Qed.

Lemma emits_generateImageForPrompt prompt aspectRatio :
  P (EvCall (CGenerateContent
               (image_request (prompt ++ ". Aspect ratio: "
                                      ++ aspect_text aspectRatio ++ ".")))) ->
  emits P (generateImageForPrompt prompt aspectRatio).
Proof using P_warn P_sleep.
  intros Hc. unfold generateImageForPrompt, callApiWithRetry, generateContent.
  repeat (emits_step || split_cases); auto.
Qed.

Lemma maintains_generateImageForPrompt prompt aspectRatio :
  maintains I (generateImageForPrompt prompt aspectRatio).
Proof using I_blind.
  unfold generateImageForPrompt, callApiWithRetry, generateContent.
  repeat (maintains_step || split_cases); auto using maintains_next_content.
Qed.

Lemma emits_poll_loop fuel operation :
  (forall o, P (EvCall (CGetVideosOperation o))) ->
  emits P (poll_loop fuel operation).
Proof using P_warn P_sleep.
  intros Hc. revert operation.
  induction fuel as [|fuel IH]; intros operation; simpl;
    destruct (done operation); try apply emits_ret; try apply emits_pending.
  unfold sleep, callApiWithRetry, getVideosOperation.
  repeat emits_step; auto.
Qed.

Lemma maintains_poll_loop fuel operation :
  maintains I (poll_loop fuel operation).
Proof using I_blind.
  revert operation.
  induction fuel as [|fuel IH]; intros operation; simpl;
    destruct (done operation);
    try apply maintains_ret; try apply maintains_pending.
  unfold sleep, callApiWithRetry, getVideosOperation.
  repeat maintains_step; auto using maintains_next_operation.
Qed.

Lemma emits_generateVideoForScene fuel prompt startFrameBase64 :
  P (EvCall (CGenerateVideos (video_request prompt startFrameBase64))) ->
  (forall o, P (EvCall (CGetVideosOperation o))) ->
  (forall u, P (EvCall (CFetch u))) ->
  emits P (generateVideoForScene fuel prompt startFrameBase64).
Proof using P_warn P_sleep.
  intros Hv Hg Hf. unfold generateVideoForScene.
  apply emits_bind.
  { unfold callApiWithRetry, generateVideos. repeat emits_step; auto. }
  intros operation. apply emits_bind; [now apply emits_poll_loop|].
  intros operation'. unfold fetch.
  repeat (emits_step || split_cases || apply emits_createObjectURL); auto.
Qed.

Lemma maintains_generateVideoForScene fuel prompt startFrameBase64 :
  maintains I (generateVideoForScene fuel prompt startFrameBase64).
Proof using I_blind.
  unfold generateVideoForScene.
  apply maintains_bind.
  { unfold callApiWithRetry, generateVideos.
    repeat maintains_step; auto using maintains_next_operation. }
  intros operation. apply maintains_bind; [apply maintains_poll_loop|].
  intros operation'. unfold fetch.
  repeat (maintains_step || split_cases || apply maintains_createObjectURL);
    auto using maintains_next_fetch.
Qed.

End ServiceFrames.
(* --------------------------------------------------------------------- *)
(** *** The two-stage frame workflow *)
(* --------------------------------------------------------------------- *)

Lemma emits_handleGenerateStartFrame (P : Event -> Prop) snap scene characters :
  (forall d a m, P (EvWarn d a m)) -> (forall d, P (EvSleep d)) ->
  (forall l, P (EvError l)) ->
  P (EvCall (CGenerateContent
               (image_request (Frame.prompt (startFrame snap)
                               ++ ". Aspect ratio: 16:9.")))) ->
  emits P (handleGenerateStartFrame snap scene characters).
Proof.
  intros Hw Hs He Hc.
  unfold handleGenerateStartFrame, call_with_extra, setIsGeneratingStartFrame,
    setError, setStartFrame, console_error.
  repeat (apply emits_generateImageForPrompt || emits_step); auto.
Qed.

Lemma maintains_handleGenerateStartFrame (I : Sys -> Prop)
      snap scene characters :
  net_blind I ->
  (forall s f b e,
      I s ->
      I (with_card (fun c => mkCard (f (startFrame c)) (endFrame c)
                               (videoState c) (b (isGeneratingStartFrame c))
                               (isGeneratingEndFrame c) (e (card_error c))) s)) ->
  maintains I (handleGenerateStartFrame snap scene characters).
Proof.
  intros Hb Hc.
  unfold handleGenerateStartFrame, call_with_extra, setIsGeneratingStartFrame,
    setError, setStartFrame, console_error.
  repeat (apply maintains_generateImageForPrompt || maintains_step); auto;
    intros s Hs.
  - exact (Hc s (fun f => f) (fun _ => true) (fun e => e) Hs).
  - exact (Hc s (fun f => f) (fun b => b) (fun _ => None) Hs).
  - exact (Hc s (fun f => Frame.mk (Frame.prompt f) (Some _))
              (fun b => b) (fun e => e) Hs).
  - exact (Hc s (fun f => f) (fun b => b) (fun _ => Some _) Hs).
  - exact (Hc s (fun f => f) (fun _ => false) (fun e => e) Hs).
Qed.

(** C9. When the start-frame handler fails, [handleGenerateImages] ends
    where the start-frame handler ended: the end-frame handler does not run,
    the end frame and its loading flag are as before, and every remote call
    made is the start frame's request. *)
Theorem end_frame_not_attempted snap scene characters w e w1 :
  handleGenerateStartFrame snap scene characters w = (Throw e, w1) ->
  handleGenerateImages snap scene characters w = (Ok tt, w1)
  /\ endFrame (card (ext w1)) = endFrame (card (ext w))
  /\ isGeneratingEndFrame (card (ext w1)) = isGeneratingEndFrame (card (ext w))
  /\ exists tr,
      trace w1 = (trace w ++ tr)%list
      /\ Forall (fun ev =>
                   match ev with
                   | EvCall c =>
                       c = CGenerateContent
                             (image_request (Frame.prompt (startFrame snap)
                                             ++ ". Aspect ratio: 16:9."))
                   | _ => True
                   end) tr.
Proof.
  intros H. split; [| split; [| split]].
  - unfold handleGenerateImages, try_catch, bind. rewrite H. reflexivity.
  - pose proof (maintains_handleGenerateStartFrame
                  (fun s => endFrame (card s) = endFrame (card (ext w)))
                  snap scene characters) as M.
    specialize (M ltac:(now intros s f) ltac:(now intros s f b e') w eq_refl).
    now rewrite H in M.
  - pose proof (maintains_handleGenerateStartFrame
                  (fun s => isGeneratingEndFrame (card s)
                            = isGeneratingEndFrame (card (ext w)))
                  snap scene characters) as M.
    specialize (M ltac:(now intros s f) ltac:(now intros s f b e') w eq_refl).
    now rewrite H in M.
  - pose proof (emits_handleGenerateStartFrame
                  (fun ev =>
                     match ev with
                     | EvCall c =>
                         c = CGenerateContent
                               (image_request (Frame.prompt (startFrame snap)
                                               ++ ". Aspect ratio: 16:9."))
                     | _ => True
                     end) snap scene characters) as E.
    specialize (E ltac:(easy) ltac:(easy) ltac:(easy) eq_refl w).
    now rewrite H in E.
Qed.
(* --------------------------------------------------------------------- *)
(** *** The video job *)
(* --------------------------------------------------------------------- *)

Lemma VideoState_ok_generating m : VideoState_ok (VideoState.mk GENERATING None m).
Proof. split; discriminate. Qed.

Lemma VideoState_ok_done u m : VideoState_ok (VideoState.mk DONE (Some u) m).
Proof. split; discriminate. Qed.

Lemma VideoState_ok_error m : VideoState_ok (VideoState.mk ERROR None m).
Proof. split; [discriminate | reflexivity]. Qed.

Lemma emits_setVideoState (P : Event -> Prop) v :
  P (EvVideoState v) -> emits P (setVideoState v).
Proof. intros H. unfold setVideoState. repeat emits_step. exact H. Qed.

Lemma maintains_setVideoState v :
  VideoState_ok v ->
  maintains (fun s => VideoState_ok (videoState (card s))) (setVideoState v).
Proof.
  intros H. unfold setVideoState. repeat maintains_step. intros s _. exact H.
Qed.

Lemma maintains_setError (J : VideoState.t -> Prop) e :
  maintains (fun s => J (videoState (card s))) (setError e).
Proof. unfold setError. apply maintains_modify. now intros s. Qed.

(** C5. Every [VideoState] that [handleGenerateVideo] sets has a url when
    its status is [DONE] and none when it is [ERROR], so the state of the card
    keeps that invariant, which the initial state has; and without a start
    frame image the handler only sets the error message: no video state is
    set, nothing is sent. *)
Theorem video_state_invariant fuel snap scene w :
  let w' := snd (handleGenerateVideo fuel snap scene w) in
  VideoState_ok (videoState SceneCard_initial)
  /\ (exists tr,
         trace w' = (trace w ++ tr)%list
         /\ Forall VideoState_ok (video_states tr))
  /\ (VideoState_ok (videoState (card (ext w))) ->
      VideoState_ok (videoState (card (ext w'))))
  /\ (truthy (Frame.imageUrl (startFrame snap)) = false ->
      handleGenerateVideo fuel snap scene w = (Ok tt, w')
      /\ videoState (card (ext w')) = videoState (card (ext w))
      /\ trace w' = trace w
      /\ net (ext w') = net (ext w)
      /\ card_error (card (ext w'))
         = Some "Please generate the start frame image first.").
Proof.
  intros w'. split; [split; discriminate|]. split; [| split].
  - assert (E : emits (fun ev => match ev with
                                 | EvVideoState v => VideoState_ok v
                                 | _ => True
                                 end)
                      (handleGenerateVideo fuel snap scene)).
    { unfold handleGenerateVideo, setError, console_error.
      repeat (apply emits_generateVideoForScene || apply emits_setVideoState
              || emits_step || split_cases);
        simpl; auto using VideoState_ok_generating, VideoState_ok_done,
                 VideoState_ok_error. }
    destruct (E w) as (tr & Htr & F). exists tr. split; [exact Htr|].
    clear Htr. induction F as [| ev tr Hev _ IH]; [constructor|].
    destruct ev; simpl; auto.
  - assert (Mt : maintains (fun s => VideoState_ok (videoState (card s)))
                           (handleGenerateVideo fuel snap scene)).
    { unfold handleGenerateVideo, console_error.
      repeat (apply maintains_generateVideoForScene
              || apply maintains_setVideoState
              || apply (maintains_setError VideoState_ok)
              || maintains_step || split_cases);
        auto using VideoState_ok_generating, VideoState_ok_done,
          VideoState_ok_error.
      all: now intros ? ?. }
    exact (Mt w).
  - intros H. subst w'. unfold handleGenerateVideo.
    destruct (Frame.imageUrl (startFrame snap)) as [u|]; simpl in H.
    + apply negb_false_iff in H. rewrite H. simpl. auto.
    + simpl. auto.
Qed.
Lemma callApiWithRetry_ok {St T} (op : St -> Outcome T * St) c w v s' :
  op (ext w) = (Ok v, s') ->
  callApiWithRetry (invoke c op) default_maxRetries default_initialDelay w
  = (Ok v, called c w s').
Proof.
  intros H. unfold callApiWithRetry.
  change (Z.to_nat default_maxRetries) with 5.
  now apply retry_loop_ok.
Qed.

Lemma next_operation_cons s r q :
  op_q (net s) = r :: q ->
  next_operation s
  = (r, with_net (fun n => mkNet (content_q n) q (fetch_q n) (blobs n)) s).
Proof. intros H. unfold next_operation. now rewrite H. Qed.

Lemma next_content_cons s r q :
  content_q (net s) = r :: q ->
  next_content s
  = (r, with_net (fun n => mkNet q (op_q n) (fetch_q n) (blobs n)) s).
Proof. intros H. unfold next_content. now rewrite H. Qed.

Lemma next_fetch_cons s r q :
  fetch_q (net s) = r :: q ->
  next_fetch s
  = (r, with_net (fun n => mkNet (content_q n) (op_q n) q (blobs n)) s).
Proof. intros H. unfold next_fetch. now rewrite H. Qed.

(** The job of C4: submitted, then observed twice more. *)
Lemma poll_three fuel prompt startUrl w nd1 nd2 fin ops :
  op_q (net (ext w)) = Ok nd1 :: Ok nd2 :: Ok fin :: ops ->
  done nd1 = false -> done nd2 = false -> done fin = true ->
  2 <= fuel ->
  bind (callApiWithRetry (generateVideos (video_request prompt startUrl))
          default_maxRetries default_initialDelay)
       (poll_loop fuel) w
  = (Ok fin,
     mkWorld
       (with_net (fun n => mkNet (content_q n) ops (fetch_q n) (blobs n))
                 (ext w))
       (trace w ++
        [EvCall (CGenerateVideos (video_request prompt startUrl));
         EvSleep (inject_Z 10000); EvCall (CGetVideosOperation nd1);
         EvSleep (inject_Z 10000); EvCall (CGetVideosOperation nd2)])%list
       (rand_idx w)).
Proof.
  intros Hq H1 H2 H3 Hf.
  destruct fuel as [|[|fuel]]; try lia.
  unfold bind at 1. unfold generateVideos.
  rewrite (callApiWithRetry_ok _ _ _ _ _ (next_operation_cons _ _ _ Hq)).
  simpl poll_loop. rewrite H1. unfold bind at 1. unfold sleep at 1.
  unfold emit at 1. unfold bind at 1. unfold getVideosOperation at 1.
  erewrite callApiWithRetry_ok by (apply next_operation_cons; reflexivity).
  rewrite H2. unfold bind at 1. unfold sleep at 1.
  unfold emit at 1. unfold bind at 1. unfold getVideosOperation at 1.
  erewrite callApiWithRetry_ok by (apply next_operation_cons; reflexivity).
  destruct fuel; simpl poll_loop; rewrite H3; unfold ret, called; simpl;
    rewrite <- !app_assoc; reflexivity.
Qed.
Lemma bind_assoc_at {St A B C} (m : M St A) (k : A -> M St B)
      (h : B -> M St C) w :
  bind m (fun a => bind (k a) h) w = bind (bind m k) h w.
Proof.
  unfold bind. destruct (m w) as [[a | e |] w1]; try reflexivity.
Qed.

Lemma invoke_eq {St T} c (op : St -> Outcome T * St) w r s' :
  op (ext w) = (r, s') -> invoke c op w = (r, called c w s').
Proof. intros H. unfold invoke. now rewrite H. Qed.

Section VideoJob.
Variables (fuel : nat) (prompt startUrl : string) (w : World Sys).
Variables (nd1 nd2 fin : Operation) (ops : list (Outcome Operation)).
Hypothesis observations :
  op_q (net (ext w)) = Ok nd1 :: Ok nd2 :: Ok fin :: ops.
Hypothesis not_done1 : done nd1 = false.
Hypothesis not_done2 : done nd2 = false.
Hypothesis is_done : done fin = true.
Hypothesis enough_fuel : 2 <= fuel.

Lemma generateVideoForScene_downloaded link blob fetches :
  downloadLink fin = Some link -> link <> "" ->
  fetch_q (net (ext w)) = Ok (mkFetchResponse true blob) :: fetches ->
  exists videoUrl,
    generateVideoForScene fuel prompt startUrl w
    = (Ok videoUrl,
       mkWorld
         (with_net (fun n => mkNet (content_q n) ops fetches
                                   (blobs n ++ [blob])%list) (ext w))
         (trace w ++
          [EvCall (CGenerateVideos (video_request prompt startUrl));
           EvSleep (inject_Z 10000); EvCall (CGetVideosOperation nd1);
           EvSleep (inject_Z 10000); EvCall (CGetVideosOperation nd2);
           EvCall (CFetch (link ++ "&key=" ++ API_KEY))])%list
         (rand_idx w)).
Proof using observations not_done1 not_done2 is_done enough_fuel.
  intros Hl Hne Hf. eexists. unfold generateVideoForScene.
  rewrite bind_assoc_at. unfold bind at 1.
  rewrite (poll_three fuel prompt startUrl w nd1 nd2 fin ops)
    by assumption.
  rewrite Hl. unfold truthy. apply String.eqb_neq in Hne. rewrite Hne.
  change (negb false) with true. cbv iota. unfold bind at 1. unfold fetch.
  erewrite invoke_eq by (apply next_fetch_cons; simpl; exact Hf). simpl.
  unfold createObjectURL. simpl. rewrite <- !app_assoc. reflexivity.
Qed.

Lemma generateVideoForScene_no_link :
  truthy (downloadLink fin) = false ->
  generateVideoForScene fuel prompt startUrl w
  = (Throw (JsError
              "Video generation completed, but no download link was found."),
     mkWorld
       (with_net (fun n => mkNet (content_q n) ops (fetch_q n) (blobs n))
                 (ext w))
       (trace w ++
        [EvCall (CGenerateVideos (video_request prompt startUrl));
         EvSleep (inject_Z 10000); EvCall (CGetVideosOperation nd1);
         EvSleep (inject_Z 10000); EvCall (CGetVideosOperation nd2)])%list
       (rand_idx w)).
Proof using observations not_done1 not_done2 is_done enough_fuel.
  intros Hl. unfold generateVideoForScene.
  rewrite bind_assoc_at. unfold bind at 1.
  rewrite (poll_three fuel prompt startUrl w nd1 nd2 fin ops)
    by assumption.
  rewrite Hl. reflexivity.
Qed.

End VideoJob.

(** C4. A video job observed as not done in the response to its
    submission, not done at the first status query and done at the second:
    [handleGenerateVideo] sets [GENERATING], submits, and twice waits 10
    seconds and queries the status.  A wait precedes every status query, so
    there are two waits and two status queries, not three: the third
    observation-bearing call is the submission.  When the done operation
    carries a non-empty uri and its download succeeds, the handler then
    fetches the uri and sets [DONE] with the object url: from [IDLE] the
    states are [IDLE; GENERATING; DONE].  When the done operation carries no
    uri, the handler sets [ERROR] with a null url, after the same two waits
    and two status queries. *)
Theorem video_job_three_observations
        fuel snap scene w startUrl nd1 nd2 fin ops :
  Frame.imageUrl (startFrame snap) = Some startUrl -> startUrl <> "" ->
  VideoState.status (videoState (card (ext w))) = IDLE ->
  op_q (net (ext w)) = Ok nd1 :: Ok nd2 :: Ok fin :: ops ->
  done nd1 = false -> done nd2 = false -> done fin = true ->
  2 <= fuel ->
  let run := handleGenerateVideo fuel snap scene w in
  let job :=
    [EvVideoState (VideoState.mk GENERATING None VIDEO_GENERATION_MESSAGES_0);
     EvCall (CGenerateVideos (video_request (videoPrompt scene) startUrl));
     EvSleep (inject_Z 10000); EvCall (CGetVideosOperation nd1);
     EvSleep (inject_Z 10000); EvCall (CGetVideosOperation nd2)] in
  (forall link blob fetches,
      downloadLink fin = Some link -> link <> "" ->
      fetch_q (net (ext w)) = Ok (mkFetchResponse true blob) :: fetches ->
      exists videoUrl tr,
        fst run = Ok tt
        /\ trace (snd run) = (trace w ++ tr)%list
        /\ tr = (job ++ [EvCall (CFetch (link ++ "&key=" ++ API_KEY));
                         EvVideoState (VideoState.mk DONE (Some videoUrl) "")])%list
        /\ map VideoState.status
               (videoState (card (ext w)) :: video_states tr)
           = [IDLE; GENERATING; DONE]
        /\ videoState (card (ext (snd run)))
           = VideoState.mk DONE (Some videoUrl) ""
        /\ sleeps tr = [inject_Z 10000; inject_Z 10000]
        /\ poll_calls tr
           = [CGetVideosOperation nd1; CGetVideosOperation nd2]
        /\ calls tr
           = [CGenerateVideos (video_request (videoPrompt scene) startUrl);
              CGetVideosOperation nd1; CGetVideosOperation nd2;
              CFetch (link ++ "&key=" ++ API_KEY)])
  /\ (truthy (downloadLink fin) = false ->
      exists tr,
        fst run = Ok tt
        /\ trace (snd run) = (trace w ++ tr)%list
        /\ tr = (job ++ [EvError "Video generation failed:";
                         EvVideoState (VideoState.mk ERROR None "")])%list
        /\ map VideoState.status
               (videoState (card (ext w)) :: video_states tr)
           = [IDLE; GENERATING; ERROR]
        /\ videoState (card (ext (snd run))) = VideoState.mk ERROR None ""
        /\ sleeps tr = [inject_Z 10000; inject_Z 10000]
        /\ poll_calls tr
           = [CGetVideosOperation nd1; CGetVideosOperation nd2]
        /\ calls tr
           = [CGenerateVideos (video_request (videoPrompt scene) startUrl);
              CGetVideosOperation nd1; CGetVideosOperation nd2]).
Proof.
  intros Hsnap Hne Hidle Hq H1 H2 H3 Hfuel run job.
  assert (Hrun : run =
    try_catch
      (videoUrl <- generateVideoForScene fuel (videoPrompt scene) startUrl ;;
       setVideoState (VideoState.mk DONE (Some videoUrl) ""))
      (fun err =>
         console_error "Video generation failed:" ;;
         setError
           (Some (match err with
                  | JsError m => m
                  | JsNonError _ => "An unknown error occurred."
                  end ++ " This is an experimental feature and may fail. Please try again.")) ;;
         setVideoState (VideoState.mk ERROR None ""))
      (mkWorld
         (with_card (fun c =>
            mkCard (startFrame c) (endFrame c)
                   (VideoState.mk GENERATING None VIDEO_GENERATION_MESSAGES_0)
                   (isGeneratingStartFrame c) (isGeneratingEndFrame c) None)
            (ext w))
         (trace w ++ [EvVideoState
                        (VideoState.mk GENERATING None
                                       VIDEO_GENERATION_MESSAGES_0)])%list
         (rand_idx w))).
  { subst run. unfold handleGenerateVideo. rewrite Hsnap.
    apply String.eqb_neq in Hne. rewrite Hne. reflexivity. }
  match type of Hrun with _ = try_catch _ _ ?W => set (w1 := W) in * end.
  split.
  - intros link blob fetches Hl Hlne Hf.
    destruct (generateVideoForScene_downloaded fuel (videoPrompt scene) startUrl
                w1 nd1 nd2 fin ops
                Hq H1 H2 H3 Hfuel link blob fetches Hl Hlne Hf)
      as [videoUrl E].
    unfold try_catch in Hrun. unfold bind at 1 in Hrun. rewrite E in Hrun.
    subst w1. simpl in Hrun. rewrite <- ?app_assoc in Hrun.
    exists videoUrl. eexists. rewrite Hrun. simpl. rewrite Hidle.
    repeat split; reflexivity.
  - intros Hl.
    pose proof (generateVideoForScene_no_link fuel (videoPrompt scene) startUrl
                  w1 nd1 nd2 fin ops Hq H1 H2 H3 Hfuel Hl) as E.
    unfold try_catch in Hrun. unfold bind at 1 in Hrun. rewrite E in Hrun.
    subst w1. simpl in Hrun. rewrite <- ?app_assoc in Hrun.
    eexists. rewrite Hrun. simpl. rewrite Hidle. rewrite <- ?app_assoc.
    repeat split; reflexivity.
Qed.
(* --------------------------------------------------------------------- *)
(** *** Script analysis *)
(* --------------------------------------------------------------------- *)

(** Once the wrapper has returned the model's response, a text that is not
    JSON ends the operation: the error is logged and thrown, and nothing is
    sent again. *)
Lemma parseScriptToScenes_after_response script w resp w1 t :
  callApiWithRetry (generateContent (scene_request script))
    default_maxRetries default_initialDelay w = (Ok resp, w1) ->
  text resp = Some t ->
  JSON_parse (trim t) = None ->
  parseScriptToScenes script w
  = (Throw (JsError "The AI returned an invalid JSON format for scenes."),
     mkWorld (ext w1)
       (trace w1 ++ [EvError "Failed to parse scene JSON response:"])%list
       (rand_idx w1)).
Proof.
  intros Hr Ht Hp. unfold parseScriptToScenes. unfold bind at 1.
  rewrite Hr, Ht, Hp. reflexivity.
Qed.

Lemma extractCharactersFromScript_after_response script w resp w1 t :
  callApiWithRetry (generateContent (character_request script))
    default_maxRetries default_initialDelay w = (Ok resp, w1) ->
  text resp = Some t ->
  JSON_parse (trim t) = None ->
  extractCharactersFromScript script w
  = (Throw (JsError "The AI returned an invalid JSON format for characters."),
     mkWorld (ext w1)
       (trace w1 ++ [EvError "Failed to parse character JSON response:"])%list
       (rand_idx w1)).
Proof.
  intros Hr Ht Hp. unfold extractCharactersFromScript. unfold bind at 1.
  rewrite Hr, Ht, Hp. reflexivity.
Qed.

(** C6. With an empty or white-space script, [handleAnalyzeScript] sets the
    error message and does nothing else: no remote call.  When the text the
    model returns is not JSON, [parseScriptToScenes] and
    [extractCharactersFromScript] fail with their parse error after that one
    remote call. *)
Theorem script_analysis_failures :
  (forall snap w,
      trim (script snap) = "" ->
      handleAnalyzeScript snap w
      = (Ok tt,
         mkWorld
           (with_app (fun a =>
              mkApp (script a) (scenes a) (characters a) (selectedStyle a)
                    (isLoading a) (Some "Script cannot be empty."))
              (ext w))
           (trace w) (rand_idx w)))
  /\ (forall script w resp t q,
         content_q (net (ext w)) = Ok resp :: q ->
         text resp = Some t ->
         JSON_parse (trim t) = None ->
         parseScriptToScenes script w
         = (Throw (JsError "The AI returned an invalid JSON format for scenes."),
            mkWorld
              (with_net (fun n => mkNet q (op_q n) (fetch_q n) (blobs n))
                        (ext w))
              (trace w ++
               [EvCall (CGenerateContent (scene_request script));
                EvError "Failed to parse scene JSON response:"])%list
              (rand_idx w)))
  /\ (forall script w resp t q,
         content_q (net (ext w)) = Ok resp :: q ->
         text resp = Some t ->
         JSON_parse (trim t) = None ->
         extractCharactersFromScript script w
         = (Throw (JsError
                     "The AI returned an invalid JSON format for characters."),
            mkWorld
              (with_net (fun n => mkNet q (op_q n) (fetch_q n) (blobs n))
                        (ext w))
              (trace w ++
               [EvCall (CGenerateContent (character_request script));
                EvError "Failed to parse character JSON response:"])%list
              (rand_idx w))).
Proof.
  split; [| split].
  - intros snap w H. unfold handleAnalyzeScript. rewrite H. reflexivity.
  - intros script w resp t q Hq Ht Hp.
    rewrite (parseScriptToScenes_after_response script w resp _ t
               (callApiWithRetry_ok _ _ _ _ _ (next_content_cons _ _ _ Hq))
               Ht Hp).
    unfold called. simpl. rewrite <- app_assoc. reflexivity.
  - intros script w resp t q Hq Ht Hp.
    rewrite (extractCharactersFromScript_after_response script w resp _ t
               (callApiWithRetry_ok _ _ _ _ _ (next_content_cons _ _ _ Hq))
               Ht Hp).
    unfold called. simpl. rewrite <- app_assoc. reflexivity.
Qed.

(* --------------------------------------------------------------------- *)
(** *** Conditioning images and the seed image *)
(* --------------------------------------------------------------------- *)

(** C3. Whatever conditioning images a caller passes, every request that
    [generateImageForPrompt] sends has the text prompt as its only part. *)
Theorem generateImageForPrompt_drops_conditioning_images
        prompt aspectRatio (conditioningImages : list Part) :
  let fullPrompt :=
    prompt ++ ". Aspect ratio: " ++ aspect_text aspectRatio ++ "." in
  gc_contents (image_request fullPrompt) = ContentsParts [PartText fullPrompt]
  /\ emits (fun ev =>
              match ev with
              | EvCall c => c = CGenerateContent (image_request fullPrompt)
              | _ => True
              end)
           (call_with_extra generateImageForPrompt prompt aspectRatio
                            conditioningImages).
Proof.
  split; [reflexivity|]. unfold call_with_extra.
  apply emits_generateImageForPrompt; easy.
Qed.

Lemma split_comma_no_comma s : no_comma s = true -> split_comma s = [s].
Proof.
  induction s as [|c s IH]; [reflexivity|].
  simpl. intros H. apply andb_true_iff in H. destruct H as [Hc Hs].
  apply negb_true_iff in Hc. rewrite Hc, (IH Hs). reflexivity.
Qed.

Lemma split_comma_header header rest :
  no_comma header = true ->
  split_comma (header ++ String comma rest) = header :: split_comma rest.
Proof.
  induction header as [|c s IH]; simpl.
  - intros _. reflexivity.
  - intros H. apply andb_true_iff in H. destruct H as [Hc Hs].
    apply negb_true_iff in Hc. rewrite Hc, (IH Hs). reflexivity.
Qed.

(** The seed image of any string: the segment between its first and its
    second comma. *)
Lemma video_request_segment prompt header rest :
  no_comma header = true ->
  gv_imageBytes (video_request prompt (header ++ String comma rest))
  = Some (hd "" (split_comma rest)).
Proof.
  intros H. unfold video_request. simpl gv_imageBytes.
  rewrite (split_comma_header _ _ H). simpl.
  destruct rest as [|c r]; [reflexivity|]. simpl.
  destruct (Ascii.eqb c comma); [reflexivity|].
  destruct (split_comma r); reflexivity.
Qed.

(** The wrapper starts by invoking the operation. *)
Lemma callApiWithRetry_first_call {St T} (P : Event -> Prop)
      (op : St -> Outcome T * St) c w :
  P (EvCall c) ->
  (forall d a m, P (EvWarn d a m)) -> (forall d, P (EvSleep d)) ->
  exists tr,
    trace (snd (callApiWithRetry (invoke c op) default_maxRetries
                  default_initialDelay w))
    = (trace w ++ EvCall c :: tr)%list
    /\ Forall P tr.
Proof.
  intros Hc Hw Hs. unfold callApiWithRetry.
  change (Z.to_nat default_maxRetries) with 5.
  destruct (op (ext w)) as [[v | e |] s1] eqn:Hop.
  - rewrite (retry_loop_ok _ _ _ _ _ _ _ _ _ _ Hop). now exists [].
  - destruct (isRateLimitError e) eqn:He.
    + rewrite (retry_loop_rate_limited _ _ _ _ _ _ _ _ _ _ Hop He).
      destruct (emits_retry_loop P (invoke c op) default_maxRetries
                  default_initialDelay 4 (0 + 1) e
                  (emits_invoke P c op Hc) (fun d a => Hw d a _) Hs
                  (backed_off c default_maxRetries default_initialDelay w s1 0))
        as (tr & Ht & F).
      eexists. rewrite Ht. unfold backed_off. simpl.
      rewrite <- app_assoc. split; [reflexivity|].
      repeat constructor; auto.
    + rewrite (retry_loop_fatal _ _ _ _ _ _ _ _ _ _ Hop He). now exists [].
  - rewrite (retry_loop_pending _ _ _ _ _ _ _ _ _ Hop). now exists [].
Qed.

(** C10. For a data URL [header,payload] (neither part holds a comma, the
    payload being base64) the job is submitted with the payload as image
    bytes and with mime type ['image/png'], whatever the header says; and the
    submission is the first thing [generateVideoForScene] does. *)
Theorem video_seed_image fuel prompt header payload w :
  no_comma header = true ->
  no_comma payload = true ->
  let startFrameBase64 := header ++ String comma payload in
  video_request prompt startFrameBase64
  = mkVideosRequest "veo-2.0-generate-001" prompt (Some payload) "image/png" 1
  /\ exists tr,
      trace (snd (generateVideoForScene fuel prompt startFrameBase64 w))
      = (trace w
         ++ EvCall (CGenerateVideos (video_request prompt startFrameBase64))
         :: tr)%list
      /\ Forall (fun ev =>
                   match ev with
                   | EvCall (CGenerateVideos r) =>
                       r = video_request prompt startFrameBase64
                   | _ => True
                   end) tr.
Proof.
  intros Hh Hp url. split.
  - unfold video_request. subst url.
    rewrite (split_comma_header _ _ Hh), (split_comma_no_comma _ Hp).
    reflexivity.
  - unfold generateVideoForScene, bind at 1.
    set (req := video_request prompt url).
    set (P := fun ev => match ev with
                        | EvCall (CGenerateVideos r) => r = req
                        | _ => True
                        end).
    destruct (callApiWithRetry_first_call P next_operation
                (CGenerateVideos req) w eq_refl ltac:(easy) ltac:(easy))
      as (tr1 & E1 & F1).
    fold (generateVideos req) in E1.
    destruct (callApiWithRetry (generateVideos req) default_maxRetries
                default_initialDelay w) as [[operation | e |] w1];
      simpl in E1; try (exists tr1; split; assumption).
    match goal with
    | |- context [snd (?rest w1)] => assert (E2 : emits P rest)
    end.
    { unfold fetch.
      repeat (apply emits_poll_loop || apply emits_createObjectURL
              || emits_step || split_cases); subst P; easy. }
    destruct (E2 w1) as (tr2 & Ht2 & F2).
    exists (tr1 ++ tr2)%list. split; [| now apply Forall_app].
    rewrite Ht2, E1, <- app_assoc. reflexivity.
Qed.

(* --------------------------------------------------------------------- *)
(** *** The bound on the poll loop *)
(* --------------------------------------------------------------------- *)

Lemma bind_ext_at {St A B} (m : M St A) (k1 k2 : A -> M St B) w :
  (forall a w1, m w = (Ok a, w1) -> k1 a w1 = k2 a w1) ->
  bind m k1 w = bind m k2 w.
Proof.
  intros H. unfold bind. destruct (m w) as [[a | e |] w1]; auto.
Qed.

Lemma bind_settles {St A B} (m : M St A) (k : A -> M St B) w a w1 :
  fst (bind m k w) <> Pending -> m w = (Ok a, w1) -> fst (k a w1) <> Pending.
Proof. unfold bind. intros H E. now rewrite E in H. Qed.

(** A run of the poll loop that settles within [fuel] iterations is the same
    with more fuel: the bound only cuts runs that have not settled yet. *)
Lemma poll_loop_more_fuel fuel operation w :
  fst (poll_loop fuel operation w) <> Pending ->
  poll_loop (S fuel) operation w = poll_loop fuel operation w.
Proof.
  revert operation w. induction fuel as [|fuel IH]; intros operation w H.
  - simpl in *. destruct (done operation); [reflexivity|].
    now contradiction H.
  - cbn [poll_loop] in H. cbn [poll_loop].
    destruct (done operation); [reflexivity|].
    apply bind_ext_at. intros [] w1 E1.
    apply bind_ext_at. intros operation' w2 E2.
    apply IH.
    exact (bind_settles _ _ _ _ _ (bind_settles _ _ _ _ _ H E1) E2).
Qed.

Lemma generateVideoForScene_more_fuel fuel prompt startFrameBase64 w :
  fst (generateVideoForScene fuel prompt startFrameBase64 w) <> Pending ->
  generateVideoForScene (S fuel) prompt startFrameBase64 w
  = generateVideoForScene fuel prompt startFrameBase64 w.
Proof.
  unfold generateVideoForScene. intros H.
  apply bind_ext_at. intros operation w1 E1.
  pose proof (bind_settles _ _ _ _ _ H E1) as H1.
  unfold bind at 1 in H1. unfold bind at 1 2.
  rewrite poll_loop_more_fuel; [reflexivity|].
  intros E. apply H1.
  destruct (poll_loop fuel operation w1) as [[o | e |] w2];
    try discriminate. reflexivity.
Qed.

(* ===================================================================== *)
(** ** Further properties of the retry wrapper *)
(* ===================================================================== *)

(** One attempt whose outcome ends the loop. *)
Lemma retry_loop_settles {St T} (op : St -> Outcome T * St) c
      maxRetries initialDelay n i lastError w r s' :
  op (ext w) = (r, s') -> settles r ->
  retry_loop (invoke c op) maxRetries initialDelay (S n) i lastError w
  = (r, called c w s').
Proof.
  intros H Hr. destruct r as [v | e |].
  - now apply retry_loop_ok.
  - now apply retry_loop_fatal.
  - now apply retry_loop_pending.
Qed.

Lemma retry_loop_recovers {St T} (op : St -> Outcome T * St) c
      maxRetries initialDelay k :
  forall n i lastError w s r s',
    limited_run op k (ext w) s ->
    op s = (r, s') -> settles r ->
    k < n ->
    exists w',
      retry_loop (invoke c op) maxRetries initialDelay n i lastError w
      = (r, w')
      /\ ext w' = s'
      /\ List.length (calls (trace w'))
         = List.length (calls (trace w)) + k + 1
      /\ List.length (sleeps (trace w'))
         = List.length (sleeps (trace w)) + k
      /\ rand_idx w' = rand_idx w + k.
Proof.
  induction k as [|k IH]; intros n i lastError w s r s' Hrun Hop Hr Hn.
  - inversion Hrun; subst. destruct n as [|n]; [lia|].
    rewrite (retry_loop_settles op c maxRetries initialDelay n i lastError
               w r s' Hop Hr).
    eexists. split; [reflexivity|]. unfold called. simpl.
    rewrite calls_app, sleeps_app, !length_app. simpl.
    repeat split; lia.
  - inversion Hrun as [| k0 s0 s1 s2 e E R Hrest]; subst.
    destruct n as [|n]; [lia|].
    rewrite (retry_loop_rate_limited op c maxRetries initialDelay n i
               lastError w e s1 E R).
    destruct (IH n (i + 1)%Z e
                 (backed_off c maxRetries initialDelay w s1 i) s r s'
                 Hrest Hop Hr ltac:(lia))
      as (w' & E' & Hext & Hc & Hs & Hi).
    exists w'. split; [exact E'|]. split; [exact Hext|].
    unfold backed_off in Hc, Hs, Hi. simpl in Hc, Hs, Hi.
    rewrite calls_app, length_app in Hc. rewrite sleeps_app, length_app in Hs.
    simpl in Hc, Hs. repeat split; lia.
Qed.

(** X1. When the operation is rate-limited [k] times in a row and its next
    outcome is anything else (a value, another failure, or no answer), with
    [k] below [maxRetries], the wrapper ends with that outcome after [k + 1]
    invocations, [k] waits and [k] draws of [Math.random()]. *)
Theorem callApiWithRetry_first_settling_outcome
        {St T} (op : St -> Outcome T * St) c maxRetries initialDelay
        k w s r s' :
  limited_run op k (ext w) s ->
  op s = (r, s') -> settles r ->
  (Z.of_nat k < maxRetries)%Z ->
  exists w',
    callApiWithRetry (invoke c op) maxRetries initialDelay w = (r, w')
    /\ ext w' = s'
    /\ List.length (calls (trace w')) = List.length (calls (trace w)) + k + 1
    /\ List.length (sleeps (trace w')) = List.length (sleeps (trace w)) + k
    /\ rand_idx w' = rand_idx w + k.
Proof.
  intros Hrun Hop Hr Hk. unfold callApiWithRetry.
  eapply retry_loop_recovers; eauto. lia.
Qed.

(** X2. With [maxRetries] zero or negative the loop body never runs: the
    operation is not invoked and [undefined] is thrown. *)
Theorem callApiWithRetry_without_attempts
        {St T} (apiCall : M St T) maxRetries initialDelay w :
  (maxRetries <= 0)%Z ->
  callApiWithRetry apiCall maxRetries initialDelay w
  = (Throw (JsNonError VUndefined), w).
Proof.
  intros H. unfold callApiWithRetry.
  replace (Z.to_nat maxRetries) with 0 by lia. reflexivity.
Qed.

Lemma total_delay_five a b c d e :
  (total_delay [a; b; c; d; e] == a + b + c + d + e)%Q.
Proof. unfold total_delay. simpl. ring. Qed.

(** X3. With the default parameters, an operation that stays rate-limited
    costs five waits that add up to at least 31 and at most 36 seconds (the
    rounded sums can reach 36 seconds exactly); the last wait, of at least
    16 seconds, comes after the fifth attempt, and the failure is thrown
    only after it. *)
Theorem callApiWithRetry_exhaustion_time
        {St T} (op : St -> Outcome T * St) c w :
  (forall n, 0 <= random n /\ random n < 1)%Q ->
  (forall s, exists e s', op s = (Throw e, s') /\ isRateLimitError e = true) ->
  exists e w' tr ds last,
    callApiWithRetry (invoke c op) default_maxRetries default_initialDelay w
    = (Throw e, w')
    /\ trace w' = (trace w ++ tr ++ [EvSleep last])%list
    /\ sleeps (tr ++ [EvSleep last]) = (ds ++ [last])%list
    /\ List.length (calls tr) = 5
    /\ (16000 <= last)%Q
    /\ (31000 <= total_delay (ds ++ [last]))%Q
    /\ (total_delay (ds ++ [last]) <= 36000)%Q.
Proof.
  intros Hrand Hop.
  destruct (Hop (ext w)) as (e1 & s1 & H1 & R1).
  destruct (Hop s1) as (e2 & s2 & H2 & R2).
  destruct (Hop s2) as (e3 & s3 & H3 & R3).
  destruct (Hop s3) as (e4 & s4 & H4 & R4).
  destruct (Hop s4) as (e5 & s5 & H5 & R5).
  unfold callApiWithRetry. change (Z.to_nat default_maxRetries) with 5.
  do 5 (erewrite retry_loop_rate_limited by (simpl; eassumption)).
  set (k := rand_idx w).
  assert (Hb : forall i r,
             (0 <= i <= 4)%Z -> (0 <= r)%Q -> (r < 1)%Q ->
             (inject_Z (1000 * 2 ^ i) <= backoff_delay 1000 i r)%Q
             /\ (backoff_delay 1000 i r
                 <= inject_Z (1000 * 2 ^ i) + inject_Z 1000)%Q).
  { intros i r Hi H0 H1'. apply backoff_delay_bounds; try assumption.
    - apply Z.mul_nonneg_nonneg; [lia|]. apply Z.pow_nonneg. lia.
    - assert (2 ^ i <= 2 ^ 4)%Z by (apply Z.pow_le_mono_r; lia).
      change (2 ^ 4)%Z with 16%Z in *.
      change (2 ^ 53)%Z with 9007199254740992%Z. lia. }
  pose proof (Hb 0%Z _ ltac:(lia) (proj1 (Hrand k)) (proj2 (Hrand k)))
    as [L0 U0].
  pose proof (Hb 1%Z _ ltac:(lia) (proj1 (Hrand (1 + k)))
                (proj2 (Hrand (1 + k)))) as [L1 U1].
  pose proof (Hb 2%Z _ ltac:(lia) (proj1 (Hrand (2 + k)))
                (proj2 (Hrand (2 + k)))) as [L2 U2].
  pose proof (Hb 3%Z _ ltac:(lia) (proj1 (Hrand (3 + k)))
                (proj2 (Hrand (3 + k)))) as [L3 U3].
  pose proof (Hb 4%Z _ ltac:(lia) (proj1 (Hrand (4 + k)))
                (proj2 (Hrand (4 + k)))) as [L4 U4].
  clear Hb.
  set (d0 := backoff_delay 1000 0 (random k)) in *.
  set (d1 := backoff_delay 1000 1 (random (1 + k))) in *.
  set (d2 := backoff_delay 1000 2 (random (2 + k))) in *.
  set (d3 := backoff_delay 1000 3 (random (3 + k))) in *.
  set (d4 := backoff_delay 1000 4 (random (4 + k))) in *.
  exists e5. eexists.
  exists [EvCall c; EvWarn d0 1 5; EvSleep d0;
          EvCall c; EvWarn d1 2 5; EvSleep d1;
          EvCall c; EvWarn d2 3 5; EvSleep d2;
          EvCall c; EvWarn d3 4 5; EvSleep d3;
          EvCall c; EvWarn d4 5 5].
  exists [d0; d1; d2; d3], d4.
  split; [reflexivity|].
  split.
  { unfold backed_off. simpl. rewrite <- !app_assoc. reflexivity. }
  split; [reflexivity|]. split; [reflexivity|].
  change (inject_Z (1000 * 2 ^ 0)) with (inject_Z 1000) in *.
  change (inject_Z (1000 * 2 ^ 1)) with (inject_Z 2000) in *.
  change (inject_Z (1000 * 2 ^ 2)) with (inject_Z 4000) in *.
  change (inject_Z (1000 * 2 ^ 3)) with (inject_Z 8000) in *.
  change (inject_Z (1000 * 2 ^ 4)) with (inject_Z 16000) in *.
  assert (E : forall z, (inject_Z z == z # 1)%Q) by (intros; reflexivity).
  rewrite !E in *.
  change ([d0; d1; d2; d3] ++ [d4])%list with [d0; d1; d2; d3; d4].
  rewrite total_delay_five.
  repeat split; lra.
Qed.

(* ===================================================================== *)
(** ** Further properties of the services *)
(* ===================================================================== *)

(** X4. What [getApiErrorMessage] shows, on a platform whose template
    literals leave strings as they are: the raw message of an [Error] whose
    message is not JSON; the non-empty string [error.message] of a JSON
    payload that has one; the fixed sentence for a JSON payload (not [null])
    without a truthy [error.message], and for a thrown value that is not an
    [Error]. *)
Theorem getApiErrorMessage_shows :
  (forall s, ToString (VStr s) = s) ->
  (forall message,
      JSON_parse message = None ->
      getApiErrorMessage (JsError message) = message)
  /\ (forall message props eprops m,
         JSON_parse message = Some (VObj props) ->
         lookup "error" props = VObj eprops ->
         lookup "message" eprops = VStr m ->
         m <> "" ->
         getApiErrorMessage (JsError message) = m)
  /\ (forall message body,
         JSON_parse message = Some body ->
         body <> VNull -> body <> VUndefined ->
         truthy_val (opt_get (opt_get body "error") "message") = false ->
         getApiErrorMessage (JsError message) = unexpected_error_message)
  /\ (forall v, getApiErrorMessage (JsNonError v) = unexpected_error_message).
Proof.
  intros Hstr. repeat split.
  - intros message H. unfold getApiErrorMessage. now rewrite H.
  - intros message props eprops m Hp He Hm Hne.
    unfold getApiErrorMessage. rewrite Hp. simpl. rewrite He. simpl.
    rewrite Hm. simpl. apply String.eqb_neq in Hne. rewrite Hne. simpl.
    apply Hstr.
  - intros message body Hp Hn Hu Hf.
    unfold getApiErrorMessage. rewrite Hp.
    destruct body; try congruence; simpl in *; rewrite ?Hf, ?andb_false_r;
      reflexivity.
Qed.

Lemma first_inline_app pre part post d :
  Forall no_inline pre -> rp_inlineData part = Some d ->
  first_inline (pre ++ part :: post) = Some d.
Proof.
  intros Hpre Hd. induction Hpre as [| p pre Hp _ IH]; simpl.
  - now rewrite Hd.
  - unfold no_inline in Hp. now rewrite Hp.
Qed.

Lemma first_inline_none parts :
  Forall no_inline parts -> first_inline parts = None.
Proof.
  intros H. induction H as [| p parts Hp _ IH]; simpl; [reflexivity|].
  unfold no_inline in Hp. now rewrite Hp.
Qed.

Lemma until_semicolon_plain m rest :
  plain_chars m = true ->
  until_semicolon (m ++ String ";"%char rest) = Some m.
Proof.
  induction m as [|c m IH]; simpl; [reflexivity|].
  intros H. apply andb_true_iff in H. destruct H as [H Hm].
  apply andb_true_iff in H. destruct H as [H Hl].
  apply andb_true_iff in H. destruct H as [_ Hs].
  apply negb_true_iff in Hs, Hl. rewrite Hs, Hl, (IH Hm). reflexivity.
Qed.

Lemma plain_chars_no_comma m : plain_chars m = true -> no_comma m = true.
Proof.
  induction m as [|c m IH]; simpl; [reflexivity|].
  intros H. apply andb_true_iff in H. destruct H as [H Hm].
  apply andb_true_iff in H. destruct H as [H _].
  apply andb_true_iff in H. destruct H as [Hc _].
  now rewrite Hc, (IH Hm).
Qed.

Lemma no_comma_app a b :
  no_comma a = true -> no_comma b = true -> no_comma (a ++ b) = true.
Proof.
  intros Ha Hb. induction a as [|c a IH]; simpl in *; [exact Hb|].
  apply andb_true_iff in Ha. destruct Ha as [Hc Ha].
  now rewrite Hc, (IH Ha).
Qed.

Lemma string_app_assoc (a b c : string) : (a ++ b) ++ c = a ++ (b ++ c).
Proof.
  induction a as [|x a IH]; simpl; [reflexivity | rewrite IH; reflexivity].
Qed.

(** A data URL as [generateImageForPrompt] builds it decodes to its parts. *)
Lemma getBase64Data_of_data_url mime bytes :
  plain_mime mime = true -> no_comma bytes = true ->
  getBase64Data ("data:" ++ mime ++ ";base64," ++ bytes)
  = mkInlineData (Some bytes) mime.
Proof.
  intros Hm Hb. unfold plain_mime in Hm.
  apply andb_true_iff in Hm. destruct Hm as [Hne Hm].
  set (header := "data:" ++ mime ++ ";base64").
  assert (Hsplit : split_comma ("data:" ++ mime ++ ";base64," ++ bytes)
                   = [header; bytes]).
  { replace ("data:" ++ mime ++ ";base64," ++ bytes)
      with (header ++ String comma bytes)
      by (subst header; simpl; rewrite !string_app_assoc; reflexivity).
    rewrite split_comma_header, (split_comma_no_comma _ Hb); [reflexivity|].
    apply (no_comma_app "data:"); [reflexivity|].
    apply no_comma_app; [now apply plain_chars_no_comma | reflexivity]. }
  assert (Hmatch : match_mime header = Some mime).
  { subst header. simpl. now rewrite until_semicolon_plain. }
  unfold getBase64Data. rewrite Hsplit. cbn [hd nth_error].
  rewrite Hmatch. apply negb_true_iff in Hne. now rewrite Hne.
Qed.

(** X5. When the model's first response holds an inline image after parts
    without one, [generateImageForPrompt] returns, after one remote call,
    the data URL of that first image; for a plain mime type and bytes
    without a comma this URL decodes, by [getBase64Data], to the same bytes
    and mime type, and it seeds a video job with the same bytes. *)
Theorem generateImageForPrompt_first_image
        prompt aspectRatio w resp q cands others pre part post bytes mime :
  content_q (net (ext w)) = Ok resp :: q ->
  candidates resp = Some (cands :: others) ->
  content_parts cands = Some (pre ++ part :: post)%list ->
  Forall no_inline pre ->
  rp_inlineData part = Some (bytes, mime) ->
  plain_mime mime = true -> no_comma bytes = true ->
  let url := "data:" ++ mime ++ ";base64," ++ bytes in
  generateImageForPrompt prompt aspectRatio w
  = (Ok url,
     mkWorld
       (with_net (fun n => mkNet q (op_q n) (fetch_q n) (blobs n)) (ext w))
       (trace w ++
        [EvCall (CGenerateContent
                   (image_request (prompt ++ ". Aspect ratio: "
                                   ++ aspect_text aspectRatio ++ ".")))])%list
       (rand_idx w))
  /\ getBase64Data url = mkInlineData (Some bytes) mime
  /\ forall videoPrompt,
      gv_imageBytes (video_request videoPrompt url) = Some bytes.
Proof.
  intros Hq Hc Hp Hpre Hd Hm Hb url. split; [| split].
  - unfold generateImageForPrompt, generateContent. unfold bind at 1.
    rewrite (callApiWithRetry_ok _ _ _ _ _ (next_content_cons _ _ _ Hq)).
    unfold first_candidate_parts. rewrite Hc, Hp.
    rewrite (first_inline_app _ _ _ _ Hpre Hd). reflexivity.
  - now apply getBase64Data_of_data_url.
  - intros videoPrompt. unfold video_request. simpl gv_imageBytes.
    pose proof (getBase64Data_of_data_url mime bytes Hm Hb) as E.
    unfold getBase64Data in E. fold url in E.
    now inversion E.
Qed.

(** X6. When the model's first response holds no inline image (no
    candidate, no parts, or text parts only), the start-frame handler fails
    after that one remote call, without a retry: it shows
    ["Failed to generate start frame: Image generation failed to return an
    image."] (that sentence not being JSON), keeps the start frame as it
    was, and clears its loading flag. *)
Theorem start_frame_without_image
        snap scene characters w resp q :
  content_q (net (ext w)) = Ok resp :: q ->
  match first_candidate_parts resp with
  | Some parts => Forall no_inline parts
  | None => True
  end ->
  JSON_parse "Image generation failed to return an image." = None ->
  exists w',
    handleGenerateStartFrame snap scene characters w
    = (Throw (JsError "Image generation failed to return an image."), w')
    /\ List.length (calls (trace w')) = List.length (calls (trace w)) + 1
    /\ sleeps (trace w') = sleeps (trace w)
    /\ startFrame (card (ext w')) = startFrame (card (ext w))
    /\ isGeneratingStartFrame (card (ext w')) = false
    /\ card_error (card (ext w'))
       = Some "Failed to generate start frame: Image generation failed to return an image.".
Proof.
  intros Hq Hparts Hjson.
  assert (Himg : forall w1,
             content_q (net (ext w1)) = Ok resp :: q ->
             generateImageForPrompt (Frame.prompt (startFrame snap)) AR_16_9 w1
             = (Throw (JsError "Image generation failed to return an image."),
                called (CGenerateContent
                          (image_request (Frame.prompt (startFrame snap)
                                          ++ ". Aspect ratio: 16:9.")))
                       w1
                       (with_net (fun n => mkNet q (op_q n) (fetch_q n)
                                                 (blobs n)) (ext w1)))).
  { intros w1 Hq1. unfold generateImageForPrompt, generateContent.
    unfold bind at 1.
    rewrite (callApiWithRetry_ok _ _ _ _ _ (next_content_cons _ _ _ Hq1)).
    destruct (first_candidate_parts resp) as [parts|]; [| reflexivity].
    now rewrite (first_inline_none _ Hparts). }
  eexists. split.
  - unfold handleGenerateStartFrame, call_with_extra.
    unfold bind at 1. unfold setIsGeneratingStartFrame at 1, modify at 1.
    unfold bind at 1. unfold setError at 1, modify at 1.
    unfold try_finally, try_catch. unfold bind at 1.
    rewrite Himg by (simpl; exact Hq).
    unfold bind, console_error, emit, setError, modify, throw,
      setIsGeneratingStartFrame. simpl.
    unfold getApiErrorMessage. rewrite Hjson. reflexivity.
  - simpl. rewrite !calls_app, !sleeps_app, !length_app. simpl.
    rewrite !app_nil_r. repeat split; lia.
Qed.

(** X7. [parseScriptToScenes] and [extractCharactersFromScript] return
    whatever JSON value the model's text parses to, after one remote call:
    the value is not checked against the schema, and need not be an array.
    When the response has no text, they fail with the [TypeError] of
    [undefined.trim()]. *)
Theorem script_analysis_returns_any_json script w resp q :
  content_q (net (ext w)) = Ok resp :: q ->
  let w' (c : Call) :=
    mkWorld (with_net (fun n => mkNet q (op_q n) (fetch_q n) (blobs n))
                      (ext w))
            (trace w ++ [EvCall c])%list (rand_idx w) in
  (forall t v,
      text resp = Some t -> JSON_parse (trim t) = Some v ->
      parseScriptToScenes script w
      = (Ok v, w' (CGenerateContent (scene_request script)))
      /\ extractCharactersFromScript script w
         = (Ok v, w' (CGenerateContent (character_request script))))
  /\ (text resp = None ->
      parseScriptToScenes script w
      = (Throw trim_of_undefined, w' (CGenerateContent (scene_request script)))
      /\ extractCharactersFromScript script w
         = (Throw trim_of_undefined,
            w' (CGenerateContent (character_request script)))).
Proof.
  intros Hq w'. split.
  - intros t v Ht Hv. split.
    + unfold parseScriptToScenes, generateContent. unfold bind at 1.
      rewrite (callApiWithRetry_ok _ _ _ _ _ (next_content_cons _ _ _ Hq)).
      now rewrite Ht, Hv.
    + unfold extractCharactersFromScript, generateContent. unfold bind at 1.
      rewrite (callApiWithRetry_ok _ _ _ _ _ (next_content_cons _ _ _ Hq)).
      now rewrite Ht, Hv.
  - intros Ht. split.
    + unfold parseScriptToScenes, generateContent. unfold bind at 1.
      rewrite (callApiWithRetry_ok _ _ _ _ _ (next_content_cons _ _ _ Hq)).
      now rewrite Ht.
    + unfold extractCharactersFromScript, generateContent. unfold bind at 1.
      rewrite (callApiWithRetry_ok _ _ _ _ _ (next_content_cons _ _ _ Hq)).
      now rewrite Ht.
Qed.

(** X8. [handleAnalyzeScript] never rejects, however the two operations are
    scheduled and however they end; and when it settles for a script that
    is not blank, [isLoading] is [false]. *)
Theorem handleAnalyzeScript_settles snap w :
  let run := handleAnalyzeScript snap w in
  (forall e, fst run <> Throw e)
  /\ (trim (script snap) <> "" ->
      fst run = Ok tt -> isLoading (app (ext (snd run))) = false).
Proof.
  intros run. subst run. unfold handleAnalyzeScript.
  destruct (String.eqb_spec (trim (script snap)) "") as [E | E].
  - split; [intros e; discriminate | contradiction].
  - cbv [bind setIsLoading setAppError setScenes setCharacters
         setSelectedStyle modify try_finally try_catch console_error emit].
    match goal with
    | |- context [promise_all ?A ?B ?a ?b ?w1] =>
        destruct (promise_all A B a b w1) as [[[ps cs] | e |] w2]
    end; simpl; split; try (intros; discriminate); intros; reflexivity.
Qed.

(* ===================================================================== *)
(** ** Further properties of the video job *)
(* ===================================================================== *)

Lemma sleeps_polls nds :
  sleeps (flat_map (fun o => [EvSleep (inject_Z 10000);
                              EvCall (CGetVideosOperation o)]) nds)
  = repeat (inject_Z 10000) (List.length nds).
Proof. induction nds as [|o nds IH]; simpl; [reflexivity | now rewrite IH]. Qed.

Lemma status_calls_polls nds :
  List.length
    (status_calls (flat_map (fun o => [EvSleep (inject_Z 10000);
                                       EvCall (CGetVideosOperation o)]) nds))
  = List.length nds.
Proof. induction nds as [|o nds IH]; simpl; [reflexivity | now rewrite IH]. Qed.

Lemma status_calls_app tr1 tr2 :
  status_calls (tr1 ++ tr2) = (status_calls tr1 ++ status_calls tr2)%list.
Proof. apply flat_map_app. Qed.

Lemma video_states_app tr1 tr2 :
  video_states (tr1 ++ tr2) = (video_states tr1 ++ video_states tr2)%list.
Proof. apply flat_map_app. Qed.

Lemma video_states_polls nds :
  video_states (flat_map (fun o => [EvSleep (inject_Z 10000);
                                    EvCall (CGetVideosOperation o)]) nds)
  = [].
Proof. induction nds as [|o nds IH]; simpl; [reflexivity | exact IH]. Qed.

(** The poll loop from an operation that is not done, against a job that is
    observed not done for each of [rest] and then done. *)
Lemma poll_loop_until_done rest :
  forall fuel o w fin ops,
    op_q (net (ext w)) = (map Ok rest ++ Ok fin :: ops)%list ->
    done o = false -> Forall (fun o' => done o' = false) rest ->
    done fin = true ->
    List.length rest < fuel ->
    poll_loop fuel o w
    = (Ok fin,
       mkWorld
         (with_net (fun n => mkNet (content_q n) ops (fetch_q n) (blobs n))
                   (ext w))
         (trace w ++
          flat_map (fun o' => [EvSleep (inject_Z 10000);
                               EvCall (CGetVideosOperation o')]) (o :: rest))%list
         (rand_idx w)).
Proof.
  induction rest as [|o1 rest IH]; intros fuel o w fin ops Hq Ho Hrest Hfin Hf;
    (destruct fuel as [|fuel]; [simpl in Hf; lia|]);
    cbn [poll_loop]; rewrite Ho;
    unfold bind at 1; unfold sleep at 1, emit at 1; unfold bind at 1;
    unfold getVideosOperation at 1;
    erewrite callApiWithRetry_ok by (apply next_operation_cons; exact Hq).
  - destruct fuel; cbn [poll_loop]; rewrite Hfin; unfold ret, called; simpl;
      rewrite <- !app_assoc; reflexivity.
  - inversion Hrest as [| ? ? Ho1 Hrest']; subst.
    match goal with
    | |- poll_loop _ _ ?W = _ =>
        rewrite (IH fuel o1 W fin ops eq_refl Ho1 Hrest' Hfin
                    ltac:(simpl in Hf; lia))
    end.
    unfold called. simpl. rewrite <- !app_assoc. reflexivity.
Qed.

(** Submission and polling of a job observed not done [nds] and then done. *)
Lemma submit_and_poll fuel prompt startUrl w nds fin ops :
  op_q (net (ext w)) = (map Ok nds ++ Ok fin :: ops)%list ->
  Forall (fun o => done o = false) nds -> done fin = true ->
  List.length nds <= fuel ->
  bind (callApiWithRetry (generateVideos (video_request prompt startUrl))
          default_maxRetries default_initialDelay)
       (poll_loop fuel) w
  = (Ok fin,
     mkWorld
       (with_net (fun n => mkNet (content_q n) ops (fetch_q n) (blobs n))
                 (ext w))
       (trace w ++
        EvCall (CGenerateVideos (video_request prompt startUrl))
        :: flat_map (fun o => [EvSleep (inject_Z 10000);
                               EvCall (CGetVideosOperation o)]) nds)%list
       (rand_idx w)).
Proof.
  intros Hq Hnds Hfin Hf. unfold bind at 1. unfold generateVideos.
  destruct nds as [|o rest]; simpl in Hq.
  - rewrite (callApiWithRetry_ok _ _ _ _ _ (next_operation_cons _ _ _ Hq)).
    destruct fuel; cbn [poll_loop]; rewrite Hfin; reflexivity.
  - rewrite (callApiWithRetry_ok _ _ _ _ _ (next_operation_cons _ _ _ Hq)).
    inversion Hnds as [| ? ? Ho Hrest]; subst.
    match goal with
    | |- poll_loop _ _ ?W = _ =>
        rewrite (poll_loop_until_done rest fuel o W fin ops eq_refl Ho Hrest
                   Hfin ltac:(simpl in Hf; lia))
    end.
    unfold called. cbn [ext trace rand_idx].
    rewrite <- app_assoc. reflexivity.
Qed.

Lemma generateVideoForScene_stages fuel prompt startFrameBase64 w :
  generateVideoForScene fuel prompt startFrameBase64 w
  = bind (bind (callApiWithRetry
                  (generateVideos (video_request prompt startFrameBase64))
                  default_maxRetries default_initialDelay)
               (poll_loop fuel))
         download_video w.
Proof.
  rewrite <- bind_assoc_at. reflexivity.
Qed.

(** The handler once it has found the start frame image. *)
Lemma handleGenerateVideo_started fuel snap scene w startUrl :
  Frame.imageUrl (startFrame snap) = Some startUrl -> startUrl <> "" ->
  handleGenerateVideo fuel snap scene w
  = video_attempt fuel scene startUrl
      (mkWorld
         (with_card (fun c =>
            mkCard (startFrame c) (endFrame c)
                   (VideoState.mk GENERATING None VIDEO_GENERATION_MESSAGES_0)
                   (isGeneratingStartFrame c) (isGeneratingEndFrame c) None)
            (ext w))
         (trace w ++ [EvVideoState
                        (VideoState.mk GENERATING None
                                       VIDEO_GENERATION_MESSAGES_0)])%list
         (rand_idx w)).
Proof.
  intros Hsnap Hne. unfold handleGenerateVideo. rewrite Hsnap.
  apply String.eqb_neq in Hne. rewrite Hne. reflexivity.
Qed.

(** The three ways a run of the handler can end, with the card it leaves. *)
Lemma handleGenerateVideo_cases fuel snap scene w startUrl :
  Frame.imageUrl (startFrame snap) = Some startUrl -> startUrl <> "" ->
  let c0 := card (ext w) in
  let after v e :=
    mkCard (startFrame c0) (endFrame c0) v
           (isGeneratingStartFrame c0) (isGeneratingEndFrame c0) e in
  (exists url w',
      handleGenerateVideo fuel snap scene w = (Ok tt, w')
      /\ card (ext w') = after (VideoState.mk DONE (Some url) "") None)
  \/ (exists m w',
         handleGenerateVideo fuel snap scene w = (Ok tt, w')
         /\ card (ext w')
            = after (VideoState.mk ERROR None "")
                    (Some (m ++ experimental_suffix)))
  \/ (exists w',
         handleGenerateVideo fuel snap scene w = (Pending, w')
         /\ card (ext w')
            = after (VideoState.mk GENERATING None VIDEO_GENERATION_MESSAGES_0)
                    None).
Proof.
  intros Hsnap Hne c0 after.
  rewrite (handleGenerateVideo_started fuel snap scene w startUrl Hsnap Hne).
  set (w1 := mkWorld _ _ _).
  pose proof (maintains_generateVideoForScene
                (fun s => card s = card (ext w1)) ltac:(now intros s f)
                fuel (videoPrompt scene) startUrl w1 eq_refl) as Hcard.
  unfold video_attempt, try_catch, bind.
  destruct (generateVideoForScene fuel (videoPrompt scene) startUrl w1)
    as [[url | e |] w2]; simpl in Hcard.
  - left. exists url. eexists. split; [reflexivity|].
    simpl. rewrite Hcard. reflexivity.
  - right. left.
    exists (match e with
            | JsError m => m
            | JsNonError _ => "An unknown error occurred."
            end).
    eexists. split; [reflexivity|]. simpl. rewrite Hcard. reflexivity.
  - right. right. eexists. split; [reflexivity|]. simpl. rewrite Hcard.
    reflexivity.
Qed.

(** X9. With a start frame image, [handleGenerateVideo] never rejects.
    While it has not settled the card is in [GENERATING] with no error
    message; when it settles the card is either in [DONE] with a url and no
    error message, or in [ERROR] with a null url and an error message that
    ends with the notice about the experimental feature.  The frames are
    left as they were. *)
Theorem handleGenerateVideo_outcomes fuel snap scene w startUrl :
  Frame.imageUrl (startFrame snap) = Some startUrl -> startUrl <> "" ->
  let run := handleGenerateVideo fuel snap scene w in
  let c' := card (ext (snd run)) in
  (forall e, fst run <> Throw e)
  /\ (fst run = Pending ->
      videoState c'
      = VideoState.mk GENERATING None VIDEO_GENERATION_MESSAGES_0
      /\ card_error c' = None)
  /\ (fst run = Ok tt ->
      (exists url,
          videoState c' = VideoState.mk DONE (Some url) ""
          /\ card_error c' = None)
      \/ (exists m,
             videoState c' = VideoState.mk ERROR None ""
             /\ card_error c' = Some (m ++ experimental_suffix)))
  /\ startFrame c' = startFrame (card (ext w))
  /\ endFrame c' = endFrame (card (ext w)).
Proof.
  intros Hsnap Hne run c'. subst c' run.
  destruct (handleGenerateVideo_cases fuel snap scene w startUrl Hsnap Hne)
    as [(url & w' & E & Hc) | [(m & w' & E & Hc) | (w' & E & Hc)]];
    rewrite E; simpl; rewrite Hc; simpl.
  - repeat split; try discriminate. intros _. left. now exists url.
  - repeat split; try discriminate. intros _. right. now exists m.
  - repeat split; discriminate.
Qed.

(** X10. Once [handleGenerateVideo] has run with a start frame image, the
    status is no longer [IDLE], so [canGenerateVideo] is false and the
    "Generate Video" button is disabled, however the run ended or while it
    has not. *)
Theorem video_button_after_run fuel snap scene w startUrl :
  Frame.imageUrl (startFrame snap) = Some startUrl -> startUrl <> "" ->
  let c' := card (ext (snd (handleGenerateVideo fuel snap scene w))) in
  VideoState.status (videoState c') <> IDLE
  /\ canGenerateVideo c' = false
  /\ video_button_disabled c' = true.
Proof.
  intros Hsnap Hne c'. subst c'.
  destruct (handleGenerateVideo_cases fuel snap scene w startUrl Hsnap Hne)
    as [(url & w' & E & Hc) | [(m & w' & E & Hc) | (w' & E & Hc)]];
    rewrite E; simpl; rewrite Hc;
    unfold video_button_disabled, canGenerateVideo; simpl;
    rewrite ?andb_false_r; repeat split; try discriminate; reflexivity.
Qed.

Lemma generateVideoForScene_polled fuel prompt startUrl w nds fin ops :
  op_q (net (ext w)) = (map Ok nds ++ Ok fin :: ops)%list ->
  Forall (fun o => done o = false) nds -> done fin = true ->
  List.length nds <= fuel ->
  generateVideoForScene fuel prompt startUrl w
  = download_video fin
      (mkWorld
         (with_net (fun n => mkNet (content_q n) ops (fetch_q n) (blobs n))
                   (ext w))
         (trace w ++
          EvCall (CGenerateVideos (video_request prompt startUrl))
          :: flat_map (fun o => [EvSleep (inject_Z 10000);
                                 EvCall (CGetVideosOperation o)]) nds)%list
         (rand_idx w)).
Proof.
  intros Hq Hnds Hfin Hf. rewrite generateVideoForScene_stages.
  unfold bind at 1.
  now rewrite (submit_and_poll fuel prompt startUrl w nds fin ops Hq Hnds Hfin
                 Hf).
Qed.

(** X11. A job observed not done any number [n] of times and then done,
    with a uri: the handler waits 10 seconds before each of its [n]
    re-queries, never after the done observation, and makes [n + 1] calls
    that return the job's status; it then fetches the uri once, and the card
    ends in [DONE] when the response is ok and in [ERROR], with the message
    of the failed download, when it is not. *)
Theorem video_job_any_length
        fuel snap scene w startUrl nds fin ops link okflag blob fetches :
  Frame.imageUrl (startFrame snap) = Some startUrl -> startUrl <> "" ->
  op_q (net (ext w)) = (map Ok nds ++ Ok fin :: ops)%list ->
  Forall (fun o => done o = false) nds -> done fin = true ->
  List.length nds <= fuel ->
  downloadLink fin = Some link -> link <> "" ->
  fetch_q (net (ext w)) = Ok (mkFetchResponse okflag blob) :: fetches ->
  let run := handleGenerateVideo fuel snap scene w in
  exists videoUrl tr,
    fst run = Ok tt
    /\ trace (snd run) = (trace w ++ tr)%list
    /\ tr
       = ([EvVideoState
             (VideoState.mk GENERATING None VIDEO_GENERATION_MESSAGES_0);
           EvCall (CGenerateVideos
                     (video_request (videoPrompt scene) startUrl))]
          ++ flat_map (fun o => [EvSleep (inject_Z 10000);
                                 EvCall (CGetVideosOperation o)]) nds
          ++ EvCall (CFetch (link ++ "&key=" ++ API_KEY))
          :: (if okflag
              then [EvVideoState (VideoState.mk DONE (Some videoUrl) "")]
              else [EvError "Video generation failed:";
                    EvVideoState (VideoState.mk ERROR None "")]))%list
    /\ sleeps tr = repeat (inject_Z 10000) (List.length nds)
    /\ List.length (status_calls tr) = List.length nds + 1
    /\ VideoState.status (videoState (card (ext (snd run))))
       = (if okflag then DONE else ERROR)
    /\ (okflag = false ->
        card_error (card (ext (snd run)))
        = Some ("Failed to download the generated video file."
                ++ experimental_suffix)).
Proof.
  intros Hsnap Hne Hq Hnds Hfin Hf Hl Hlne Hfq run. subst run.
  rewrite (handleGenerateVideo_started fuel snap scene w startUrl Hsnap Hne).
  unfold video_attempt, try_catch, bind.
  set (w1 := mkWorld _ _ _).
  rewrite (generateVideoForScene_polled fuel (videoPrompt scene) startUrl w1
             nds fin ops Hq Hnds Hfin Hf).
  unfold download_video. rewrite Hl. unfold truthy.
  apply String.eqb_neq in Hlne. rewrite Hlne.
  change (negb false) with true. cbv iota. unfold bind, fetch.
  erewrite invoke_eq by (apply next_fetch_cons; simpl; exact Hfq).
  subst w1.
  assert (Hs : forall tail,
             sleeps
               ([EvVideoState
                   (VideoState.mk GENERATING None VIDEO_GENERATION_MESSAGES_0);
                 EvCall (CGenerateVideos
                           (video_request (videoPrompt scene) startUrl))]
                ++ flat_map (fun o => [EvSleep (inject_Z 10000);
                                       EvCall (CGetVideosOperation o)]) nds
                ++ tail)%list
             = (repeat (inject_Z 10000) (List.length nds) ++ sleeps tail)%list).
  { intros tail. rewrite !sleeps_app, sleeps_polls. reflexivity. }
  assert (Hc : forall tail,
             List.length
               (status_calls
                  ([EvVideoState
                      (VideoState.mk GENERATING None
                                     VIDEO_GENERATION_MESSAGES_0);
                    EvCall (CGenerateVideos
                              (video_request (videoPrompt scene) startUrl))]
                   ++ flat_map (fun o => [EvSleep (inject_Z 10000);
                                          EvCall (CGetVideosOperation o)]) nds
                   ++ tail)%list)
             = List.length nds + 1 + List.length (status_calls tail)).
  { intros tail. rewrite !status_calls_app, !length_app, status_calls_polls.
    simpl. lia. }
  set (generating := EvVideoState
                       (VideoState.mk GENERATING None
                                      VIDEO_GENERATION_MESSAGES_0)) in *.
  set (submit := EvCall (CGenerateVideos
                           (video_request (videoPrompt scene) startUrl))) in *.
  set (polls := flat_map (fun o => [EvSleep (inject_Z 10000);
                                    EvCall (CGetVideosOperation o)]) nds) in *.
  set (fetched := EvCall (CFetch (link ++ "&key=" ++ API_KEY))).
  destruct okflag; simpl.
  - pose (videoUrl :=
            "blob:" ++ decimal_digits (S (List.length (blobs (net (ext w)))))
                                      (List.length (blobs (net (ext w)))) "").
    exists videoUrl.
    exists ([generating; submit] ++ polls
            ++ fetched :: [EvVideoState (VideoState.mk DONE (Some videoUrl) "")])%list.
    split; [reflexivity|]. split.
    { rewrite <- !app_assoc. simpl. reflexivity. }
    split; [reflexivity|]. rewrite Hs, Hc. simpl. rewrite app_nil_r.
    repeat split; try lia; discriminate.
  - exists "".
    exists ([generating; submit] ++ polls
            ++ fetched :: [EvError "Video generation failed:";
                           EvVideoState (VideoState.mk ERROR None "")])%list.
    split; [reflexivity|]. split.
    { rewrite <- !app_assoc. simpl. reflexivity. }
    split; [reflexivity|]. rewrite Hs, Hc. simpl. rewrite app_nil_r.
    repeat split; lia.
Qed.

Lemma poll_loop_never_done rest :
  forall fuel o w,
    op_q (net (ext w)) = map Ok rest ->
    done o = false -> Forall (fun o' => done o' = false) rest ->
    fst (poll_loop fuel o w) = Pending.
Proof.
  induction rest as [|o1 rest IH]; intros fuel o w Hq Ho Hrest;
    (destruct fuel as [|fuel]; cbn [poll_loop]; rewrite Ho;
     [reflexivity|]);
    unfold bind at 1; unfold sleep at 1, emit at 1; unfold bind at 1;
    unfold getVideosOperation at 1.
  - unfold callApiWithRetry. change (Z.to_nat default_maxRetries) with 5.
    erewrite retry_loop_pending; [reflexivity|].
    unfold next_operation. simpl. simpl in Hq. rewrite Hq. reflexivity.
  - erewrite callApiWithRetry_ok by (apply next_operation_cons; exact Hq).
    inversion Hrest as [| ? ? Ho1 Hrest']; subst.
    apply IH; [reflexivity | assumption | assumption].
Qed.

Lemma generateVideoForScene_never_done fuel prompt startUrl w nds :
  op_q (net (ext w)) = map Ok nds ->
  Forall (fun o => done o = false) nds ->
  fst (generateVideoForScene fuel prompt startUrl w) = Pending.
Proof.
  intros Hq Hnds. rewrite generateVideoForScene_stages.
  unfold bind at 1. unfold bind at 1. unfold generateVideos.
  destruct nds as [|o rest]; simpl in Hq.
  - unfold callApiWithRetry. change (Z.to_nat default_maxRetries) with 5.
    erewrite retry_loop_pending; [reflexivity|].
    unfold next_operation. rewrite Hq. reflexivity.
  - rewrite (callApiWithRetry_ok _ _ _ _ _ (next_operation_cons _ _ _ Hq)).
    inversion Hnds as [| ? ? Ho Hrest]; subst.
    match goal with
    | |- context [poll_loop fuel o ?W] =>
        pose proof (poll_loop_never_done rest fuel o W eq_refl Ho Hrest) as E;
        destruct (poll_loop fuel o W) as [[v | e |] w2]
    end; simpl in E; try discriminate. reflexivity.
Qed.

(** X12. A job that is observed not done every time, however many times,
    never makes the handler settle, whatever the bound on the loop: it does
    not give up and does not reach [ERROR]; the card stays in [GENERATING]
    and the "Generate Video" button stays disabled. *)
Theorem video_job_never_done fuel snap scene w startUrl nds :
  Frame.imageUrl (startFrame snap) = Some startUrl -> startUrl <> "" ->
  op_q (net (ext w)) = map Ok nds ->
  Forall (fun o => done o = false) nds ->
  let run := handleGenerateVideo fuel snap scene w in
  fst run = Pending
  /\ videoState (card (ext (snd run)))
     = VideoState.mk GENERATING None VIDEO_GENERATION_MESSAGES_0
  /\ video_button_disabled (card (ext (snd run))) = true.
Proof.
  intros Hsnap Hne Hq Hnds run.
  assert (Hp : fst run = Pending).
  { subst run.
    rewrite (handleGenerateVideo_started fuel snap scene w startUrl Hsnap Hne).
    unfold video_attempt, try_catch, bind.
    match goal with
    | |- context [generateVideoForScene fuel ?p startUrl ?W] =>
        pose proof (generateVideoForScene_never_done fuel p startUrl W nds
                      Hq Hnds) as E;
        destruct (generateVideoForScene fuel p startUrl W) as [[v | e |] w2]
    end; simpl in E; try discriminate. reflexivity. }
  split; [exact Hp|]. subst run.
  destruct (handleGenerateVideo_cases fuel snap scene w startUrl Hsnap Hne)
    as [(url & w' & E & Hc) | [(m & w' & E & Hc) | (w' & E & Hc)]];
    rewrite E in *; simpl in Hp; try discriminate.
  simpl. rewrite Hc. unfold video_button_disabled, canGenerateVideo. simpl.
  rewrite andb_false_r. split; reflexivity.
Qed.

(* --------------------------------------------------------------------- *)
(** *** The frame handlers, run by run *)
(* --------------------------------------------------------------------- *)

(** [generateImageForPrompt] on a first response with an inline image, and
    on a first failure that is not a rate limit. *)
Lemma generateImageForPrompt_image prompt aspectRatio w resp q parts bytes mime :
  content_q (net (ext w)) = Ok resp :: q ->
  first_candidate_parts resp = Some parts ->
  first_inline parts = Some (bytes, mime) ->
  generateImageForPrompt prompt aspectRatio w
  = (Ok ("data:" ++ mime ++ ";base64," ++ bytes),
     called (CGenerateContent
               (image_request (prompt ++ ". Aspect ratio: "
                               ++ aspect_text aspectRatio ++ ".")))
            w
            (with_net (fun n => mkNet q (op_q n) (fetch_q n) (blobs n))
                      (ext w))).
Proof.
  intros Hq Hp Hi. unfold generateImageForPrompt, generateContent.
  unfold bind at 1.
  rewrite (callApiWithRetry_ok _ _ _ _ _ (next_content_cons _ _ _ Hq)).
  rewrite Hp, Hi. reflexivity.
Qed.

Lemma generateImageForPrompt_fatal prompt aspectRatio w e q :
  content_q (net (ext w)) = Throw e :: q ->
  isRateLimitError e = false ->
  generateImageForPrompt prompt aspectRatio w
  = (Throw e,
     called (CGenerateContent
               (image_request (prompt ++ ". Aspect ratio: "
                               ++ aspect_text aspectRatio ++ ".")))
            w
            (with_net (fun n => mkNet q (op_q n) (fetch_q n) (blobs n))
                      (ext w))).
Proof.
  intros Hq He. unfold generateImageForPrompt, generateContent.
  unfold bind at 1. unfold callApiWithRetry.
  change (Z.to_nat default_maxRetries) with 5.
  rewrite (retry_loop_fatal _ _ _ _ _ _ _ _ _ _
             (next_content_cons _ _ _ Hq) He).
  reflexivity.
Qed.

(** The start-frame handler, from the outcome of its one service call. *)
Lemma handleGenerateStartFrame_run snap scene characters w :
  handleGenerateStartFrame snap scene characters w
  = match generateImageForPrompt (Frame.prompt (startFrame snap)) AR_16_9
            (mkWorld
               (with_card (fun c =>
                  mkCard (startFrame c) (endFrame c) (videoState c)
                         true (isGeneratingEndFrame c) None) (ext w))
               (trace w) (rand_idx w)) with
    | (Ok url, w2) =>
        (Ok url,
         mkWorld
           (with_card (fun c =>
              mkCard (Frame.mk (Frame.prompt (startFrame c)) (Some url))
                     (endFrame c) (videoState c)
                     false (isGeneratingEndFrame c) (card_error c)) (ext w2))
           (trace w2) (rand_idx w2))
    | (Throw e, w2) =>
        (Throw e,
         mkWorld
           (with_card (fun c =>
              mkCard (startFrame c) (endFrame c) (videoState c)
                     false (isGeneratingEndFrame c)
                     (Some ("Failed to generate start frame: "
                            ++ getApiErrorMessage e))) (ext w2))
           (trace w2 ++ [EvError "Start frame generation failed:"])%list
           (rand_idx w2))
    | (Pending, w2) => (Pending, w2)
    end.
Proof.
  set (r := generateImageForPrompt _ _ _).
  unfold handleGenerateStartFrame, call_with_extra.
  unfold bind at 1. unfold setIsGeneratingStartFrame at 1, modify at 1.
  unfold bind at 1. unfold setError at 1, modify at 1.
  unfold try_finally, try_catch. unfold bind at 1.
  match goal with
  | |- context [generateImageForPrompt ?p ?a ?W] =>
      change (generateImageForPrompt p a W) with r
  end.
  destruct r as [[url | e |] w2]; reflexivity.
Qed.

(** The end-frame handler, from the outcome of its one service call. *)
Lemma handleGenerateEndFrame_run snap scene characters startFrameImageUrl w :
  handleGenerateEndFrame snap scene characters startFrameImageUrl w
  = match generateImageForPrompt (Frame.prompt (endFrame snap)) AR_16_9
            (mkWorld
               (with_card (fun c =>
                  mkCard (startFrame c) (endFrame c) (videoState c)
                         (isGeneratingStartFrame c) true None) (ext w))
               (trace w) (rand_idx w)) with
    | (Ok url, w2) =>
        (Ok tt,
         mkWorld
           (with_card (fun c =>
              mkCard (startFrame c)
                     (Frame.mk (Frame.prompt (endFrame c)) (Some url))
                     (videoState c)
                     (isGeneratingStartFrame c) false (card_error c)) (ext w2))
           (trace w2) (rand_idx w2))
    | (Throw e, w2) =>
        (Ok tt,
         mkWorld
           (with_card (fun c =>
              mkCard (startFrame c) (endFrame c) (videoState c)
                     (isGeneratingStartFrame c) false
                     (Some ("Failed to generate end frame: "
                            ++ getApiErrorMessage e))) (ext w2))
           (trace w2 ++ [EvError "End frame generation failed:"])%list
           (rand_idx w2))
    | (Pending, w2) => (Pending, w2)
    end.
Proof.
  set (r := generateImageForPrompt _ _ _).
  unfold handleGenerateEndFrame, call_with_extra.
  unfold bind at 1. unfold setIsGeneratingEndFrame at 1, modify at 1.
  unfold bind at 1. unfold setError at 1, modify at 1.
  unfold try_finally, try_catch. unfold bind at 1.
  match goal with
  | |- context [generateImageForPrompt ?p ?a ?W] =>
      change (generateImageForPrompt p a W) with r
  end.
  destruct r as [[url | e |] w2]; reflexivity.
Qed.

(** The service call of a frame handler leaves the card as it finds it. *)
Lemma generateImageForPrompt_card prompt aspectRatio w :
  card (ext (snd (generateImageForPrompt prompt aspectRatio w)))
  = card (ext w).
Proof.
  exact (maintains_generateImageForPrompt
           (fun s => card s = card (ext w)) ltac:(now intros s f)
           prompt aspectRatio w eq_refl).
Qed.

(** X13. Every run of the start-frame handler, whatever the service does:
    a run that returns a url has stored it as the start frame's image, under
    the prompt the frame had, with no error message; a run that rejects has
    left the start frame as it was and shows
    ["Failed to generate start frame: "] followed by the message of the
    error it rejects with; both have cleared the loading flag.  A run that
    has not settled shows the loading flag and no error.  The end frame, its
    loading flag and the video state are never touched. *)
Theorem handleGenerateStartFrame_outcomes snap scene characters w :
  let run := handleGenerateStartFrame snap scene characters w in
  let c0 := card (ext w) in
  let c' := card (ext (snd run)) in
  (forall url,
      fst run = Ok url ->
      startFrame c' = Frame.mk (Frame.prompt (startFrame c0)) (Some url)
      /\ card_error c' = None
      /\ isGeneratingStartFrame c' = false)
  /\ (forall e,
         fst run = Throw e ->
         startFrame c' = startFrame c0
         /\ card_error c'
            = Some ("Failed to generate start frame: " ++ getApiErrorMessage e)
         /\ isGeneratingStartFrame c' = false)
  /\ (fst run = Pending ->
      startFrame c' = startFrame c0
      /\ card_error c' = None
      /\ isGeneratingStartFrame c' = true)
  /\ endFrame c' = endFrame c0
  /\ isGeneratingEndFrame c' = isGeneratingEndFrame c0
  /\ videoState c' = videoState c0.
Proof.
  intros run c0 c'. subst run c' c0.
  rewrite handleGenerateStartFrame_run.
  match goal with
  | |- context [generateImageForPrompt ?p ?a ?W] =>
      pose proof (generateImageForPrompt_card p a W) as Hcard;
      destruct (generateImageForPrompt p a W) as [[url | e |] w2]
  end; simpl in Hcard; simpl; rewrite Hcard; simpl;
    (split; [intros u; try discriminate; intros [= <-]; repeat split |]);
    (split; [intros u; try discriminate; intros [= <-]; repeat split |]);
    (split; [try discriminate; intros _; repeat split |]);
    repeat split.
Qed.

(** X14. Every run of the end-frame handler, whatever the service does: it
    never rejects; a run that has settled has cleared the loading flag and
    has either stored a new image as the end frame's, under the prompt the
    frame had, with no error message, or left the end frame as it was and
    shows ["Failed to generate end frame: "] followed by the message of an
    error.  The start frame, its loading flag and the video state are never
    touched.  The "regenerate" control of the end frame does nothing at all
    when there is no start frame image. *)
Theorem handleGenerateEndFrame_outcomes
        snap scene characters startFrameImageUrl w :
  let run := handleGenerateEndFrame snap scene characters startFrameImageUrl w in
  let c0 := card (ext w) in
  let c' := card (ext (snd run)) in
  (forall e, fst run <> Throw e)
  /\ (fst run = Ok tt ->
      isGeneratingEndFrame c' = false
      /\ ((exists url,
              endFrame c' = Frame.mk (Frame.prompt (endFrame c0)) (Some url)
              /\ card_error c' = None)
          \/ (exists e,
                 endFrame c' = endFrame c0
                 /\ card_error c'
                    = Some ("Failed to generate end frame: "
                            ++ getApiErrorMessage e))))
  /\ (fst run = Pending ->
      endFrame c' = endFrame c0
      /\ card_error c' = None
      /\ isGeneratingEndFrame c' = true)
  /\ startFrame c' = startFrame c0
  /\ isGeneratingStartFrame c' = isGeneratingStartFrame c0
  /\ videoState c' = videoState c0
  /\ (truthy (Frame.imageUrl (startFrame snap)) = false ->
      regenerateEndFrame snap scene characters w = (Ok tt, w)).
Proof.
  intros run c0 c'. subst run c' c0.
  rewrite handleGenerateEndFrame_run.
  assert (Hre : truthy (Frame.imageUrl (startFrame snap)) = false ->
                regenerateEndFrame snap scene characters w = (Ok tt, w)).
  { unfold regenerateEndFrame, truthy.
    destruct (Frame.imageUrl (startFrame snap)) as [u|]; [| reflexivity].
    intros H. apply negb_false_iff in H. now rewrite H. }
  match goal with
  | |- context [generateImageForPrompt ?p ?a ?W] =>
      pose proof (generateImageForPrompt_card p a W) as Hcard;
      destruct (generateImageForPrompt p a W) as [[url | e |] w2]
  end; simpl in Hcard; simpl; rewrite Hcard; simpl.
  - split; [discriminate|]. split.
    + intros _. split; [reflexivity|]. left. now exists url.
    + split; [discriminate|]. repeat split. exact Hre.
  - split; [discriminate|]. split.
    + intros _. split; [reflexivity|]. right. now exists e.
    + split; [discriminate|]. repeat split. exact Hre.
  - split; [discriminate|]. split; [discriminate|].
    split; [intros _; repeat split|]. repeat split. exact Hre.
Qed.

(** X15. When the service answers the start frame's request and then the end
    frame's with an image each, [handleGenerateImages] stores both, in that
    order, with two remote calls: the first asks with the start prompt and
    the second with the end prompt of the render that created the handler.
    Both loading flags are cleared, no error is shown, and the video state is
    as before. *)
Theorem handleGenerateImages_both_frames
        snap scene characters w r1 r2 q parts1 parts2 b1 m1 b2 m2 :
  content_q (net (ext w)) = Ok r1 :: Ok r2 :: q ->
  first_candidate_parts r1 = Some parts1 ->
  first_inline parts1 = Some (b1, m1) ->
  first_candidate_parts r2 = Some parts2 ->
  first_inline parts2 = Some (b2, m2) ->
  let run := handleGenerateImages snap scene characters w in
  let c0 := card (ext w) in
  let c' := card (ext (snd run)) in
  fst run = Ok tt
  /\ startFrame c'
     = Frame.mk (Frame.prompt (startFrame c0))
                (Some ("data:" ++ m1 ++ ";base64," ++ b1))
  /\ endFrame c'
     = Frame.mk (Frame.prompt (endFrame c0))
                (Some ("data:" ++ m2 ++ ";base64," ++ b2))
  /\ isGeneratingStartFrame c' = false
  /\ isGeneratingEndFrame c' = false
  /\ card_error c' = None
  /\ videoState c' = videoState c0
  /\ trace (snd run)
     = (trace w
        ++ [EvCall (CGenerateContent
                      (image_request (Frame.prompt (startFrame snap)
                                      ++ ". Aspect ratio: 16:9.")));
            EvCall (CGenerateContent
                      (image_request (Frame.prompt (endFrame snap)
                                      ++ ". Aspect ratio: 16:9.")))])%list
  /\ content_q (net (ext (snd run))) = q.
Proof.
  intros Hq Hp1 Hi1 Hp2 Hi2 run c0 c'. subst c' c0.
  assert (E : run = handleGenerateImages snap scene characters w)
    by reflexivity.
  clearbody run.
  unfold handleGenerateImages, try_catch in E. unfold bind at 1 in E.
  rewrite handleGenerateStartFrame_run in E.
  erewrite generateImageForPrompt_image in E;
    [| exact Hq | exact Hp1 | exact Hi1].
  cbn [String.eqb append negb Ascii.eqb Bool.eqb] in E.
  rewrite handleGenerateEndFrame_run in E.
  erewrite generateImageForPrompt_image in E;
    [| reflexivity | exact Hp2 | exact Hi2].
  subst run. simpl. rewrite <- ?app_assoc. repeat split.
Qed.

(** X16. When the service answers the start frame's request with an image
    and fails the end frame's with an error that is not a rate limit,
    [handleGenerateImages] still resolves: the new start frame image stays,
    the end frame is as it was, the card shows
    ["Failed to generate end frame: "] followed by the message of that
    error, both loading flags are cleared, and the failed request is not
    repeated. *)
Theorem handleGenerateImages_end_frame_fails
        snap scene characters w r1 e q parts1 b1 m1 :
  content_q (net (ext w)) = Ok r1 :: Throw e :: q ->
  first_candidate_parts r1 = Some parts1 ->
  first_inline parts1 = Some (b1, m1) ->
  isRateLimitError e = false ->
  let run := handleGenerateImages snap scene characters w in
  let c0 := card (ext w) in
  let c' := card (ext (snd run)) in
  fst run = Ok tt
  /\ startFrame c'
     = Frame.mk (Frame.prompt (startFrame c0))
                (Some ("data:" ++ m1 ++ ";base64," ++ b1))
  /\ endFrame c' = endFrame c0
  /\ isGeneratingStartFrame c' = false
  /\ isGeneratingEndFrame c' = false
  /\ card_error c'
     = Some ("Failed to generate end frame: " ++ getApiErrorMessage e)
  /\ List.length (calls (trace (snd run)))
     = List.length (calls (trace w)) + 2
  /\ sleeps (trace (snd run)) = sleeps (trace w).
Proof.
  intros Hq Hp1 Hi1 He run c0 c'. subst c' c0.
  assert (E : run = handleGenerateImages snap scene characters w)
    by reflexivity.
  clearbody run.
  unfold handleGenerateImages, try_catch in E. unfold bind at 1 in E.
  rewrite handleGenerateStartFrame_run in E.
  erewrite generateImageForPrompt_image in E;
    [| exact Hq | exact Hp1 | exact Hi1].
  cbn [String.eqb append negb Ascii.eqb Bool.eqb] in E.
  rewrite handleGenerateEndFrame_run in E.
  erewrite generateImageForPrompt_fatal in E; [| reflexivity | exact He].
  subst run. simpl. rewrite !calls_app, !sleeps_app, !length_app. simpl.
  rewrite !app_nil_r. repeat split. lia.
Qed.

(* --------------------------------------------------------------------- *)
(** *** The character card *)
(* --------------------------------------------------------------------- *)

(** The portrait handler, from the outcome of its one service call. *)
Lemma handleGeneratePortrait_run character selectedStyle w :
  handleGeneratePortrait character selectedStyle w
  = match generateImageForPrompt (portrait_prompt character selectedStyle)
            AR_1_1
            (mkWorld (session (ext w)) (trace w) (rand_idx w)) with
    | (Ok url, w2) =>
        (Ok tt,
         mkWorld
           (mkStudio (ext w2)
                     (mkCharacterCard false (Some url) None)
                     (update_characters (with_portrait character url)
                                        (catalog (ext w))))
           (trace w2) (rand_idx w2))
    | (Throw e, w2) =>
        (Ok tt,
         mkWorld
           (mkStudio (ext w2)
                     (mkCharacterCard
                        false (cc_imageUrl (portrait (ext w)))
                        (Some ("Image generation failed: "
                               ++ getApiErrorMessage e)))
                     (catalog (ext w)))
           (trace w2 ++ [EvError "Failed to generate character portrait:"])%list
           (rand_idx w2))
    | (Pending, w2) =>
        (Pending,
         mkWorld
           (mkStudio (ext w2)
                     (mkCharacterCard true (cc_imageUrl (portrait (ext w)))
                                      None)
                     (catalog (ext w)))
           (trace w2) (rand_idx w2))
    end.
Proof.
  set (r := generateImageForPrompt _ _ _).
  unfold handleGeneratePortrait.
  unfold bind at 1. unfold setPortraitIsLoading at 1, modify at 1.
  unfold bind at 1. unfold setPortraitError at 1, modify at 1.
  unfold try_finally, try_catch. unfold bind at 1. unfold in_session.
  match goal with
  | |- context [generateImageForPrompt ?p ?a ?W] =>
      change (generateImageForPrompt p a W) with r
  end.
  destruct r as [[url | e |] w2]; reflexivity.
Qed.

(** X23. Every run of the portrait handler of a character card, whatever
    the service does: it never rejects.  A run that has settled has cleared
    the loading flag, and has either stored a new portrait, shown no error
    and replaced, through [handleUpdateCharacter], the catalog entries that
    have the character's name by the character with that portrait; or left
    portrait and catalog as they were and shown
    ["Image generation failed: "] followed by the message of an error.  A
    run that has not settled shows the loading flag and has changed neither
    portrait nor catalog.  The scene card is never touched. *)
Theorem handleGeneratePortrait_outcomes character selectedStyle w :
  let run := handleGeneratePortrait character selectedStyle w in
  let s0 := ext w in
  let s' := ext (snd run) in
  (forall e, fst run <> Throw e)
  /\ (fst run = Ok tt ->
      cc_isLoading (portrait s') = false
      /\ ((exists url,
              cc_imageUrl (portrait s') = Some url
              /\ cc_error (portrait s') = None
              /\ catalog s'
                 = update_characters (with_portrait character url)
                                     (catalog s0))
          \/ (exists e,
                 cc_imageUrl (portrait s') = cc_imageUrl (portrait s0)
                 /\ cc_error (portrait s')
                    = Some ("Image generation failed: "
                            ++ getApiErrorMessage e)
                 /\ catalog s' = catalog s0)))
  /\ (fst run = Pending ->
      cc_isLoading (portrait s') = true
      /\ cc_imageUrl (portrait s') = cc_imageUrl (portrait s0)
      /\ cc_error (portrait s') = None
      /\ catalog s' = catalog s0)
  /\ card (session s') = card (session s0).
Proof.
  intros run s0 s'. subst run s' s0.
  rewrite handleGeneratePortrait_run.
  match goal with
  | |- context [generateImageForPrompt ?p ?a ?W] =>
      pose proof (generateImageForPrompt_card p a W) as Hcard;
      destruct (generateImageForPrompt p a W) as [[url | e |] w2]
  end; simpl in Hcard; simpl.
  - split; [discriminate|]. split; [| split; [discriminate | exact Hcard]].
    intros _. split; [reflexivity|]. left. now exists url.
  - split; [discriminate|]. split; [| split; [discriminate | exact Hcard]].
    intros _. split; [reflexivity|]. right. now exists e.
  - split; [discriminate|]. split; [discriminate|].
    split; [now intros _ | exact Hcard].
Qed.

(** X24. When the service answers with an image, the portrait handler makes
    one remote call, the request for its portrait prompt in aspect ratio
    1:1 with a text part only, stores the data URL of the image as the
    card's portrait, and hands the character with that portrait to
    [handleUpdateCharacter]; the names of the catalog are as before. *)
Theorem portrait_generated
        character selectedStyle w resp q parts bytes mime :
  content_q (net (session (ext w))) = Ok resp :: q ->
  first_candidate_parts resp = Some parts ->
  first_inline parts = Some (bytes, mime) ->
  let run := handleGeneratePortrait character selectedStyle w in
  let url := "data:" ++ mime ++ ";base64," ++ bytes in
  fst run = Ok tt
  /\ portrait (ext (snd run)) = mkCharacterCard false (Some url) None
  /\ catalog (ext (snd run))
     = update_characters (with_portrait character url) (catalog (ext w))
  /\ map Character.name (catalog (ext (snd run)))
     = map Character.name (catalog (ext w))
  /\ trace (snd run)
     = (trace w
        ++ [EvCall (CGenerateContent
                      (mkContentRequest "gemini-2.5-flash-image-preview"
                         (ContentsParts
                            [PartText (portrait_prompt character selectedStyle
                                       ++ ". Aspect ratio: 1:1.")])
                         (ModalitiesConfig [IMAGE; TEXT])))])%list.
Proof.
  intros Hq Hp Hi run url.
  assert (E : run = handleGeneratePortrait character selectedStyle w)
    by reflexivity.
  clearbody run. rewrite handleGeneratePortrait_run in E.
  erewrite generateImageForPrompt_image in E;
    [| exact Hq | exact Hp | exact Hi].
  subst run. cbn [fst snd ext trace portrait catalog called].
  repeat split.
  unfold update_characters. rewrite map_map.
  apply map_ext. intros a.
  destruct (String.eqb_spec (Character.name a)
              (Character.name (with_portrait character
                 ("data:" ++ mime ++ ";base64," ++ bytes)))) as [E|_];
    [now rewrite E | reflexivity].
Qed.

End Platform.

(* ------------------------------------------------------------------- *)
(** *** Strings: white space *)
(* ------------------------------------------------------------------- *)

Lemma append_assoc (a b c : string) : (a ++ b) ++ c = a ++ (b ++ c).
Proof. induction a as [|x a IH]; simpl; [reflexivity | now rewrite IH]. Qed.

Lemma single_spaced_tail c s :
  single_spaced (String c s) = true -> single_spaced s = true.
Proof. simpl. intros H. apply andb_true_iff in H. tauto. Qed.

Lemma collapse_single_spaced s : single_spaced (collapse s) = true.
Proof.
  induction s as [|c s IH]; [reflexivity|].
  simpl. destruct (is_space c) eqn:Hc.
  - destruct s as [|d s']; [reflexivity|].
    destruct (is_space d) eqn:Hd; [exact IH|].
    change (single_spaced (String space (collapse (String d s'))) = true).
    simpl. rewrite Hd. simpl. rewrite Hd. simpl.
    simpl in IH. rewrite Hd in IH. simpl in IH. rewrite Hd in IH.
    exact IH.
  - simpl. rewrite Hc. simpl. exact IH.
Qed.

Lemma collapse_fixed s : single_spaced s = true -> collapse s = s.
Proof.
  induction s as [|c s IH]; [reflexivity|].
  intros H. pose proof (single_spaced_tail _ _ H) as Ht.
  simpl in H. apply andb_true_iff in H. destruct H as [H _].
  simpl. destruct (is_space c) eqn:Hc; simpl in H.
  - apply andb_true_iff in H. destruct H as [Hsp Hn].
    apply Ascii.eqb_eq in Hsp. subst c.
    destruct s as [|d s']; [reflexivity|].
    apply negb_true_iff in Hn. rewrite Hn. now rewrite (IH Ht).
  - now rewrite (IH Ht).
Qed.

Lemma collapse_app s t :
  starts_clean t = true -> t <> "" ->
  collapse (s ++ t) = collapse s ++ collapse t.
Proof.
  intros Hclean Hne. induction s as [|c s IH]; [reflexivity|].
  simpl. destruct (is_space c) eqn:Hc.
  - destruct s as [|d s'].
    + simpl. destruct t as [|e t']; [congruence|].
      simpl in Hclean. apply negb_true_iff in Hclean. now rewrite Hclean.
    + simpl in *. destruct (is_space d); rewrite IH; reflexivity.
  - now rewrite IH.
Qed.

Lemma single_spaced_app a b :
  single_spaced a = true -> single_spaced b = true ->
  starts_clean b = true -> single_spaced (a ++ b) = true.
Proof.
  intros Ha Hb Hc. induction a as [|c a IH]; [exact Hb|].
  pose proof (single_spaced_tail _ _ Ha) as Ht.
  simpl in Ha. apply andb_true_iff in Ha. destruct Ha as [Ha _].
  simpl. rewrite (IH Ht), andb_true_r.
  destruct (is_space c); simpl in *; [|reflexivity].
  apply andb_true_iff in Ha. destruct Ha as [Hsp Hn]. rewrite Hsp. simpl.
  destruct a as [|d a']; simpl; [|exact Hn].
  destruct b; [reflexivity | exact Hc].
Qed.

Lemma trimStart_suffix s : exists p, s = p ++ trimStart s.
Proof.
  induction s as [|c s [p IH]]; [now exists ""|].
  simpl. destruct (is_space c).
  - exists (String c p). simpl. now rewrite <- IH.
  - now exists "".
Qed.

Lemma trimStart_app s t :
  starts_clean t = true -> t <> "" -> trimStart (s ++ t) = trimStart s ++ t.
Proof.
  intros Hc Hne. induction s as [|c s IH]; simpl.
  - destruct t as [|e t]; [congruence|]. simpl in *.
    apply negb_true_iff in Hc. now rewrite Hc.
  - destruct (is_space c); [exact IH | reflexivity].
Qed.

Lemma trimEnd_app s t :
  trimEnd t = t -> t <> "" -> trimEnd (s ++ t) = s ++ t.
Proof.
  intros Ht Hne. induction s as [|c s IH]; [exact Ht|].
  simpl. rewrite IH.
  destruct (String.eqb_spec (s ++ t) "") as [E|_].
  - destruct s; simpl in E; congruence.
  - now rewrite andb_false_r.
Qed.

Lemma single_spaced_suffix p s :
  single_spaced (p ++ s) = true -> single_spaced s = true.
Proof.
  induction p as [|c p IH]; [trivial|].
  intros H. apply IH. exact (single_spaced_tail _ _ H).
Qed.

Lemma trimEnd_head s :
  trimEnd s = "" \/
  exists c s' t, s = String c s' /\ trimEnd s = String c t.
Proof.
  destruct s as [|c s]; [now left|].
  simpl. destruct (is_space c && String.eqb (trimEnd s) ""); [now left|].
  right. now exists c, s, (trimEnd s).
Qed.

Lemma trimEnd_single_spaced s :
  single_spaced s = true -> single_spaced (trimEnd s) = true.
Proof.
  induction s as [|c s IH]; [reflexivity|].
  intros H. pose proof (single_spaced_tail _ _ H) as Ht.
  simpl in H. apply andb_true_iff in H. destruct H as [H _].
  simpl. destruct (is_space c && String.eqb (trimEnd s) ""); [reflexivity|].
  simpl. rewrite (IH Ht), andb_true_r.
  destruct (is_space c); simpl in *; [|reflexivity].
  apply andb_true_iff in H. destruct H as [Hsp Hn]. rewrite Hsp. simpl.
  destruct (trimEnd_head s) as [E | (d & s' & t & E1 & E2)].
  - now rewrite E.
  - rewrite E2. subst s. exact Hn.
Qed.

Lemma trim_single_spaced s :
  single_spaced s = true -> single_spaced (trim s) = true.
Proof.
  intros H. unfold trim. apply trimEnd_single_spaced.
  destruct (trimStart_suffix s) as [p E]. rewrite E in H.
  exact (single_spaced_suffix _ _ H).
Qed.

(* ------------------------------------------------------------------- *)
(** *** Prompt composition *)
(* ------------------------------------------------------------------- *)

Lemma basePrompt_template_split selectedStyle scene details :
  basePrompt_template selectedStyle scene details
  = prompt_head selectedStyle scene
    ++ ("Characters present: " ++ shown_details details) ++ ".".
Proof.
  unfold basePrompt_template, prompt_head, shown_details.
  rewrite !append_assoc. reflexivity.
Qed.

Lemma shown_details_nonempty details : shown_details details <> "".
Proof.
  unfold shown_details.
  destruct (String.eqb_spec details ""); [discriminate | assumption].
Qed.

Lemma basePrompt_shape selectedStyle scene characters :
  let shown := shown_details (characterDetails scene characters) in
  single_spaced shown = true ->
  starts_clean shown = true ->
  basePrompt selectedStyle scene characters
  = trimStart (collapse (prompt_head selectedStyle scene))
    ++ "Characters present: " ++ shown ++ ".".
Proof.
  intros shown Hs Hc. unfold basePrompt.
  rewrite basePrompt_template_split. fold shown.
  pose proof (shown_details_nonempty (characterDetails scene characters))
    as Hne. fold shown in Hne.
  assert (Hclean : starts_clean (shown ++ ".") = true).
  { destruct shown; [congruence | exact Hc]. }
  assert (Hss : single_spaced (("Characters present: " ++ shown) ++ ".")
                = true).
  { rewrite append_assoc. apply single_spaced_app; [reflexivity | | exact Hclean].
    apply single_spaced_app; [exact Hs | reflexivity | reflexivity]. }
  rewrite collapse_app; [| reflexivity | discriminate].
  rewrite (collapse_fixed _ Hss).
  unfold trim. rewrite trimStart_app; [| reflexivity | discriminate].
  rewrite <- append_assoc.
  rewrite trimEnd_app; [| reflexivity | discriminate].
  rewrite !append_assoc. reflexivity.
Qed.

Lemma basePrompt_single_spaced selectedStyle scene characters :
  single_spaced (basePrompt selectedStyle scene characters) = true.
Proof.
  unfold basePrompt. apply trim_single_spaced, collapse_single_spaced.
Qed.

Lemma collapse_gap (p ws rest : string) :
  collapse ws = " " -> starts_clean rest = true -> rest <> "" ->
  collapse (p ++ "." ++ ws ++ rest) = collapse p ++ ". " ++ collapse rest.
Proof.
  intros Hws Hclean Hne.
  rewrite (collapse_app p ("." ++ ws ++ rest)); [| reflexivity | discriminate].
  change (collapse ("." ++ ws ++ rest)) with ("." ++ collapse (ws ++ rest)).
  rewrite (collapse_app ws rest Hclean Hne), Hws. reflexivity.
Qed.

(** The white space between the sentences of the template, a space, a line
    break and four spaces, counts as one space: the template and its
    one-line form have the same normal form. *)
Lemma collapse_template selectedStyle scene details :
  details <> "" ->
  collapse (basePrompt_template selectedStyle scene details)
  = collapse (prompt_line selectedStyle scene details).
Proof.
  intros Hd.
  set (middle := "Location: " ++ Scene.location scene
                 ++ ". Time: " ++ Scene.time scene
                 ++ ". Mood: " ++ Scene.mood scene).
  set (last := "Characters present: " ++ details ++ ".").
  assert (Et : basePrompt_template selectedStyle scene details
               = Style.promptModifier selectedStyle ++ "."
                 ++ (" " ++ nl ++ "    ")
                 ++ (middle ++ "." ++ (" " ++ nl ++ "    ") ++ last)).
  { unfold basePrompt_template, middle, last.
    rewrite (proj2 (String.eqb_neq details "") Hd).
    rewrite !append_assoc. reflexivity. }
  assert (El : prompt_line selectedStyle scene details
               = Style.promptModifier selectedStyle ++ "."
                 ++ " " ++ (middle ++ "." ++ " " ++ last)).
  { unfold prompt_line, middle, last. rewrite !append_assoc. reflexivity. }
  rewrite Et, El.
  rewrite !collapse_gap; try reflexivity; try discriminate.
Qed.

Lemma trimStart_clean s : starts_clean s = true -> trimStart s = s.
Proof.
  destruct s as [|c s]; [reflexivity|]. simpl. intros H.
  apply negb_true_iff in H. now rewrite H.
Qed.

Lemma tidy_app a b : tidy a = true -> tidy b = true -> tidy (a ++ b) = true.
Proof.
  unfold tidy. intros Ha Hb.
  apply andb_true_iff in Ha. apply andb_true_iff in Hb.
  destruct Ha as [Ha Hca], Hb as [Hb Hcb].
  rewrite (single_spaced_app a b Ha Hb Hcb). simpl.
  destruct a; [exact Hcb | exact Hca].
Qed.

(** With tidy fields the one-line template is its own normal form. *)
Lemma prompt_line_fixed selectedStyle scene details :
  tidy (Style.promptModifier selectedStyle) = true ->
  tidy (Scene.location scene) = true ->
  tidy (Scene.time scene) = true ->
  tidy (Scene.mood scene) = true ->
  tidy details = true ->
  trim (collapse (prompt_line selectedStyle scene details))
  = prompt_line selectedStyle scene details.
Proof.
  intros Hm Hl Ht Ho Hd.
  assert (Hbody : tidy (Style.promptModifier selectedStyle
                        ++ ". Location: " ++ Scene.location scene
                        ++ ". Time: " ++ Scene.time scene
                        ++ ". Mood: " ++ Scene.mood scene
                        ++ ". Characters present: " ++ details) = true).
  { repeat (apply tidy_app; [assumption || reflexivity |]). assumption. }
  assert (E : prompt_line selectedStyle scene details
              = (Style.promptModifier selectedStyle
                 ++ ". Location: " ++ Scene.location scene
                 ++ ". Time: " ++ Scene.time scene
                 ++ ". Mood: " ++ Scene.mood scene
                 ++ ". Characters present: " ++ details) ++ ".").
  { unfold prompt_line. rewrite !append_assoc. reflexivity. }
  rewrite E. set (body := Style.promptModifier selectedStyle ++ _) in *.
  assert (Hline : tidy (body ++ ".") = true)
    by (apply tidy_app; [exact Hbody | reflexivity]).
  unfold tidy in Hline. apply andb_true_iff in Hline.
  destruct Hline as [Hss Hclean].
  rewrite (collapse_fixed _ Hss). unfold trim.
  rewrite (trimStart_clean _ Hclean).
  apply trimEnd_app; [reflexivity | discriminate].
Qed.

(** C8. For a scene whose character details are empty, the base prompt is
    the white-space normal form (every run of white space one space, none at
    either end) of the sentence made of the style's prompt modifier and the
    scene's location, time and mood, closed by the literal
    ["Characters present: None."]: it has no white space other than single
    spaces and ends with that literal; and when modifier, location, time
    and mood are themselves single-spaced with no white space in front, the
    base prompt is that sentence, character for character. *)
Theorem basePrompt_without_characters selectedStyle scene characters :
  characterDetails scene characters = "" ->
  let base := basePrompt selectedStyle scene characters in
  let line := prompt_line selectedStyle scene "None" in
  single_spaced base = true
  /\ ends_with "Characters present: None." base
  /\ base = trim (collapse line)
  /\ (tidy (Style.promptModifier selectedStyle) = true ->
      tidy (Scene.location scene) = true ->
      tidy (Scene.time scene) = true ->
      tidy (Scene.mood scene) = true ->
      base = line).
Proof.
  intros H base line.
  assert (Hnorm : base = trim (collapse line)).
  { subst base line. unfold basePrompt.
    rewrite <- (collapse_template selectedStyle scene "None") by discriminate.
    unfold basePrompt_template. rewrite H. reflexivity. }
  split; [apply basePrompt_single_spaced|].
  split.
  - exists (trimStart (collapse (prompt_head selectedStyle scene))).
    subst base. rewrite basePrompt_shape; rewrite H; reflexivity.
  - split; [exact Hnorm|].
    intros Hm Hl Ht Ho. rewrite Hnorm. subst line.
    now apply prompt_line_fixed.
Qed.

(** C7. Each character name of a scene is resolved against the catalog by
    comparing lower-cased names.  The first entry that matches is described
    by its own name followed by ["who looks like the provided image
    reference"] when it has a portrait, and by its description in brackets
    when it has none; a name that no entry matches is used as it is.  When the
    joined descriptors are single-spaced and start with no white space, the
    base prompt ends with ["Characters present: "], the descriptors and a
    full stop. *)
Theorem describe_character_resolution
        selectedStyle scene (characters : list Character.t) :
  (forall charName,
      In charName (Scene.characters scene) ->
      match find (fun c => String.eqb (toLowerCase (Character.name c))
                                      (toLowerCase charName)) characters with
      | Some charData =>
          In charData characters
          /\ toLowerCase (Character.name charData) = toLowerCase charName
          /\ describe_character characters charName
             = Character.name charData
               ++ (if truthy (Character.imageUrl charData)
                   then " who looks like the provided image reference"
                   else " (" ++ Character.description charData ++ ")")
      | None =>
          (forall c, In c characters ->
                     toLowerCase (Character.name c) <> toLowerCase charName)
          /\ describe_character characters charName = charName
      end)
  /\ (let details :=
        join ", " (map (describe_character characters)
                       (Scene.characters scene)) in
      details <> "" ->
      single_spaced details = true ->
      starts_clean details = true ->
      ends_with ("Characters present: " ++ details ++ ".")
                (basePrompt selectedStyle scene characters)).
Proof.
  split.
  - intros charName _. unfold describe_character.
    destruct (find _ characters) as [charData|] eqn:Hf.
    + apply find_some in Hf. destruct Hf as [Hin Heq].
      apply String.eqb_eq in Heq. repeat split; try assumption.
      destruct (truthy (Character.imageUrl charData)); reflexivity.
    + split; [|reflexivity]. intros c Hin Heq.
      pose proof (find_none _ _ Hf c Hin) as Hc. simpl in Hc.
      apply String.eqb_neq in Hc. contradiction.
  - intros details Hne Hs Hc.
    exists (trimStart (collapse (prompt_head selectedStyle scene))).
    assert (E : shown_details (characterDetails scene characters) = details).
    { unfold shown_details. fold details.
      change (characterDetails scene characters) with details.
      destruct (String.eqb_spec details ""); [contradiction | reflexivity]. }
    rewrite basePrompt_shape; rewrite E; auto.
Qed.

(* ------------------------------------------------------------------- *)
(** *** The prompts of the two frames *)
(* ------------------------------------------------------------------- *)

Lemma trimStart_starts_clean s : starts_clean (trimStart s) = true.
Proof.
  induction s as [|c s IH]; [reflexivity|].
  simpl. destruct (is_space c) eqn:Hc; [exact IH|]. simpl. now rewrite Hc.
Qed.

Lemma trimEnd_starts_clean s :
  starts_clean s = true -> starts_clean (trimEnd s) = true.
Proof.
  destruct s as [|c s]; [trivial|]. simpl. intros H.
  apply negb_true_iff in H. rewrite H. simpl. now rewrite H.
Qed.

Lemma append_inv_head (p a b : string) : p ++ a = p ++ b -> a = b.
Proof.
  induction p as [|c p IH]; simpl; [trivial|]. intros [= H]. now apply IH.
Qed.

(** X17. Whatever the style, the scene and the catalog hold (line breaks,
    tabs, runs of spaces), the base prompt has no white space other than
    single spaces, starts with no white space and ends with a full stop.
    The start prompt and the end prompt extend the same base prompt, and are
    never the same prompt. *)
Theorem basePrompt_normalised selectedStyle scene characters :
  let base := basePrompt selectedStyle scene characters in
  single_spaced base = true
  /\ starts_clean base = true
  /\ ends_with "." base
  /\ (exists rest, startPrompt selectedStyle scene characters = base ++ rest)
  /\ (exists rest, endPrompt selectedStyle scene characters = base ++ rest)
  /\ startPrompt selectedStyle scene characters
     <> endPrompt selectedStyle scene characters.
Proof.
  intros base. subst base.
  split; [apply basePrompt_single_spaced|].
  split; [unfold basePrompt, trim;
          apply trimEnd_starts_clean, trimStart_starts_clean|].
  split.
  - unfold basePrompt. rewrite basePrompt_template_split.
    rewrite <- append_assoc.
    set (body := prompt_head selectedStyle scene ++ _).
    exists (trimStart (collapse body)).
    rewrite collapse_app; [| reflexivity | discriminate].
    unfold trim. change (collapse ".") with ".".
    rewrite trimStart_app; [| reflexivity | discriminate].
    apply trimEnd_app; [reflexivity | discriminate].
  - split; [eexists; reflexivity|]. split; [eexists; reflexivity|].
    unfold startPrompt, endPrompt. intros H.
    apply append_inv_head in H. discriminate H.
Qed.

(* ------------------------------------------------------------------- *)
(** *** Data URLs *)
(* ------------------------------------------------------------------- *)



(* ------------------------------------------------------------------- *)
(** *** The catalog of characters *)
(* ------------------------------------------------------------------- *)

(** The portrait of the catalog entry that a name of the scene resolves to
    is among the images the frame handlers collect. *)
Lemma character_images_of_found scene characters charName charData u :
  In charName (Scene.characters scene) ->
  find (fun c => String.eqb (toLowerCase (Character.name c))
                            (toLowerCase charName)) characters
  = Some charData ->
  Character.imageUrl charData = Some u -> u <> "" ->
  In (PartInline (getBase64Data u)) (character_images scene characters).
Proof.
  intros Hin Hfind Hu Hne. apply find_some in Hfind.
  destruct Hfind as [Hc Hname]. unfold character_images.
  apply in_map_iff. exists charData. split; [now rewrite Hu|].
  apply filter_In. split; [exact Hc|].
  apply andb_true_iff. split.
  - rewrite Hu. simpl. now apply negb_true_iff, String.eqb_neq.
  - apply existsb_exists. exists (toLowerCase charName).
    split; [now apply in_map | exact Hname].
Qed.

(** X19. The images that the frame handlers collect include the portrait of
    every catalog entry that the base prompt describes by its image
    reference.  They are at most one per catalog entry, and none when no
    entry has a portrait or the scene names nobody. *)
Theorem character_images_cover scene characters :
  (forall charName charData u,
      In charName (Scene.characters scene) ->
      find (fun c => String.eqb (toLowerCase (Character.name c))
                                (toLowerCase charName)) characters
      = Some charData ->
      Character.imageUrl charData = Some u -> u <> "" ->
      describe_character characters charName
      = Character.name charData
        ++ " who looks like the provided image reference"
      /\ In (PartInline (getBase64Data u))
            (character_images scene characters))
  /\ List.length (character_images scene characters)
     <= List.length characters
  /\ ((forall c, In c characters -> truthy (Character.imageUrl c) = false) ->
      character_images scene characters = [])
  /\ (Scene.characters scene = [] -> character_images scene characters = []).
Proof.
  split; [| split; [| split]].
  - intros charName charData u Hin Hfind Hu Hne. split.
    + unfold describe_character. rewrite Hfind, Hu. simpl.
      apply String.eqb_neq in Hne. now rewrite Hne.
    + now apply (character_images_of_found scene characters charName charData).
  - unfold character_images. rewrite length_map. apply filter_length_le.
  - intros H. unfold character_images.
    induction characters as [|c l IH]; [reflexivity|].
    simpl. rewrite (H c (or_introl eq_refl)). simpl.
    apply IH. intros c' Hc'. apply H. now right.
  - intros H. unfold character_images. rewrite H. simpl.
    induction characters as [|c l IH]; [reflexivity|].
    simpl. rewrite andb_false_r. exact IH.
Qed.

Lemma update_characters_found characters charName c url :
  find (fun c => String.eqb (toLowerCase (Character.name c))
                            (toLowerCase charName)) characters
  = Some c ->
  find (fun c => String.eqb (toLowerCase (Character.name c))
                            (toLowerCase charName))
       (update_characters (with_portrait c url) characters)
  = Some (with_portrait c url).
Proof.
  intros Hfind. pose proof (find_some _ _ Hfind) as [_ Hc].
  induction characters as [|a l IH]; [discriminate|].
  simpl in Hfind. simpl.
  destruct (String.eqb (toLowerCase (Character.name a))
                       (toLowerCase charName)) eqn:Pa.
  - injection Hfind as ->. rewrite String.eqb_refl. simpl. now rewrite Hc.
  - destruct (String.eqb_spec (Character.name a) (Character.name c)) as [E|_].
    + rewrite E, Hc in Pa. discriminate.
    + rewrite Pa. now apply IH.
Qed.

(** X20. [handleUpdateCharacter] replaces every catalog entry that has
    exactly the name of the updated character, and nothing else: the names
    of the catalog, in order, are as before; an entry with another name
    stays; updating twice is updating once; and when no entry has exactly
    that name (the comparison tells upper case from lower case) the catalog
    is as before. *)
Theorem update_characters_replaces updatedCharacter prev :
  map Character.name (update_characters updatedCharacter prev)
  = map Character.name prev
  /\ (forall c,
         In c prev -> Character.name c <> Character.name updatedCharacter ->
         In c (update_characters updatedCharacter prev))
  /\ (forall c,
         In c (update_characters updatedCharacter prev) ->
         c = updatedCharacter
         \/ (In c prev
             /\ Character.name c <> Character.name updatedCharacter))
  /\ update_characters updatedCharacter
       (update_characters updatedCharacter prev)
     = update_characters updatedCharacter prev
  /\ ((forall c, In c prev ->
                 Character.name c <> Character.name updatedCharacter) ->
      update_characters updatedCharacter prev = prev).
Proof.
  unfold update_characters. split; [| split; [| split; [| split]]].
  - induction prev as [|a l IH]; [reflexivity|]. simpl. rewrite IH.
    destruct (String.eqb_spec (Character.name a)
                              (Character.name updatedCharacter)) as [E|_];
      [now rewrite E | reflexivity].
  - intros c Hin Hne. apply in_map_iff. exists c. split; [| exact Hin].
    apply String.eqb_neq in Hne. now rewrite Hne.
  - intros c Hin. apply in_map_iff in Hin. destruct Hin as (a & Ha & Hin).
    destruct (String.eqb_spec (Character.name a)
                              (Character.name updatedCharacter)) as [E|N].
    + left. now symmetry.
    + right. subst c. now split.
  - rewrite map_map. apply map_ext. intros a.
    destruct (String.eqb_spec (Character.name a)
                              (Character.name updatedCharacter)) as [E|N].
    + now rewrite String.eqb_refl.
    + apply String.eqb_neq in N. now rewrite N.
  - intros H. induction prev as [|a l IH]; [reflexivity|]. simpl.
    pose proof (H a (or_introl eq_refl)) as N.
    apply String.eqb_neq in N. rewrite N. f_equal.
    apply IH. intros c Hc. apply H. now right.
Qed.

(** X21. From the character card to the prompt: once the portrait of the
    catalog entry that a scene's name resolves to has been generated or
    uploaded and stored through [handleUpdateCharacter], the base prompt
    describes that character by its image reference, and the frame handlers
    collect the new portrait. *)
Theorem portrait_reaches_prompt scene characters charName c url :
  find (fun c => String.eqb (toLowerCase (Character.name c))
                            (toLowerCase charName)) characters
  = Some c ->
  url <> "" ->
  let updated := update_characters (with_portrait c url) characters in
  describe_character updated charName
  = Character.name c ++ " who looks like the provided image reference"
  /\ (In charName (Scene.characters scene) ->
      In (PartInline (getBase64Data url)) (character_images scene updated)).
Proof.
  intros Hfind Hne updated. subst updated.
  pose proof (update_characters_found characters charName c url Hfind) as Hu.
  split.
  - unfold describe_character. rewrite Hu. simpl.
    apply String.eqb_neq in Hne. now rewrite Hne.
  - intros Hin.
    now apply (character_images_of_found scene _ charName
                 (with_portrait c url)).
Qed.

(* ------------------------------------------------------------------- *)
(** *** The loading messages *)
(* ------------------------------------------------------------------- *)

Lemma indexOf_range x arr :
  (-1 <= indexOf x arr < Z.of_nat (List.length arr))%Z.
Proof.
  induction arr as [|y rest IH]; [simpl; lia|].
  cbn [indexOf List.length]. destruct (String.eqb y x); [lia|].
  cbv zeta. destruct (Z.ltb_spec (indexOf x rest) 0); lia.
Qed.

Lemma indexOf_absent x arr : ~ In x arr -> indexOf x arr = (-1)%Z.
Proof.
  induction arr as [|y rest IH]; [reflexivity|].
  intros H. cbn [indexOf].
  destruct (String.eqb_spec y x) as [E|_]; [exfalso; apply H; now left|].
  cbv zeta. rewrite IH by (intros Hin; apply H; now right). reflexivity.
Qed.

(** X22. The rotation of the loading message while a video is generated:
    the next message is always one of the list, never [undefined]; after the
    message at index [i] comes the message at index [i + 1], and after the
    last one the first; a message that is not in the list is followed by the
    first. *)
Theorem next_loading_message_rotates prev :
  (exists m, next_loading_message prev = Some m
             /\ In m VIDEO_GENERATION_MESSAGES)
  /\ (~ In prev VIDEO_GENERATION_MESSAGES ->
      next_loading_message prev = Some VIDEO_GENERATION_MESSAGES_0)
  /\ (forall i,
         i < List.length VIDEO_GENERATION_MESSAGES ->
         prev = nth i VIDEO_GENERATION_MESSAGES "" ->
         next_loading_message prev
         = Some (nth ((i + 1) mod List.length VIDEO_GENERATION_MESSAGES)
                     VIDEO_GENERATION_MESSAGES "")).
Proof.
  split; [| split].
  - unfold next_loading_message.
    pose proof (indexOf_range prev VIDEO_GENERATION_MESSAGES) as R.
    set (idx := indexOf prev VIDEO_GENERATION_MESSAGES) in *.
    change (List.length VIDEO_GENERATION_MESSAGES) with 8 in *.
    cbv zeta.
    assert (B : (0 <= Z.rem (idx + 1) (Z.of_nat 8) < Z.of_nat 8)%Z)
      by (apply Z.rem_bound_pos; lia).
    destruct (Z.ltb_spec (Z.rem (idx + 1) (Z.of_nat 8)) 0) as [L|_]; [lia|].
    destruct (nth_error VIDEO_GENERATION_MESSAGES
                        (Z.to_nat (Z.rem (idx + 1) (Z.of_nat 8)))) as [m|] eqn:E.
    + exists m. split; [reflexivity|]. exact (nth_error_In _ _ E).
    + apply nth_error_None in E.
      change (List.length VIDEO_GENERATION_MESSAGES) with 8 in E. lia.
  - intros H. unfold next_loading_message.
    rewrite (indexOf_absent _ _ H). reflexivity.
  - intros i Hi ->.
    change (List.length VIDEO_GENERATION_MESSAGES) with 8 in *.
    do 8 (destruct i as [|i]; [vm_compute; reflexivity|]). lia.
Qed.

(* ===================================================================== *)
(** ** The properties on the concrete platform *)
(* ===================================================================== *)

Lemma quarters_range n : (0 <= Sample.quarters n /\ Sample.quarters n < 1)%Q.
Proof.
  unfold Sample.quarters, Qle, Qlt, Qnum, Qden.
  pose proof (Nat.mod_upper_bound n 4 ltac:(discriminate)). lia.
Qed.

(** At the failing input of C1, with [Math.random()] giving 0, 1/4, 1/2,
    3/4, 0: five invocations and five waits, the last event of the trace
    being the wait of 16 seconds that follows the fifth invocation. *)
Lemma callApiWithRetry_rate_limited_witness :
  (forall n, 0 <= Sample.quarters n /\ Sample.quarters n < 1)%Q
  /\ (forall s, exists e s',
         Sample.always_limited s = (Throw e, s')
         /\ isRateLimitError Sample.parse_json e = true)
  /\ exists w',
      callApiWithRetry Sample.parse_json Sample.quarters
        (invoke (COperation "always limited") Sample.always_limited) 5 1000
        (mkWorld tt [] 0)
      = (Throw (JsError Sample.rate_limit_message), w')
      /\ List.length (calls (trace w')) = 5
      /\ map Qred (sleeps (trace w'))
         = [1000; 2250; 4500; 8750; 16000]%Q
      /\ exists d,
          skipn 12 (trace w')
          = [EvCall (COperation "always limited"); EvWarn d 5 5; EvSleep d]
          /\ Qred d = 16000%Q.
Proof.
  assert (H1 : forall s, exists e s',
             Sample.always_limited s = (Throw e, s')
             /\ isRateLimitError Sample.parse_json e = true).
  { intros s. exists (JsError Sample.rate_limit_message), s.
    split; reflexivity. }
  split; [exact quarters_range|]. split; [exact H1|].
  destruct (callApiWithRetry_rate_limited Sample.parse_json Sample.quarters
              Sample.always_limited (COperation "always limited")
              (mkWorld tt [] 0) quarters_range H1)
    as (e1 & e2 & e3 & e4 & e5 & s1 & s2 & s3 & s4 & s5
        & _ & _ & _ & _ & E5 & Hrun & _).
  inversion E5; subst e5 s5. eexists. split; [exact Hrun|].
  split; [reflexivity|]. split; [vm_compute; reflexivity|].
  eexists. split; [reflexivity | vm_compute; reflexivity].
Defined.

Lemma callApiWithRetry_fatal_witness :
  (1 <= 5)%Z
  /\ Sample.always_fatal tt = (Throw (JsError "boom"), tt)
  /\ Sample.parse_json "boom" = None
  /\ callApiWithRetry Sample.parse_json Sample.quarters
       (invoke (COperation "always fatal") Sample.always_fatal) 5 1000
       (mkWorld tt [] 0)
     = (Throw (JsError "boom"),
        mkWorld tt [EvCall (COperation "always fatal")] 0).
Proof.
  split; [lia|]. split; [reflexivity|]. split; [reflexivity|].
  apply (callApiWithRetry_fatal Sample.parse_json Sample.quarters
           Sample.always_fatal (COperation "always fatal") 5 1000
           (mkWorld tt [] 0) (JsError "boom") tt).
  - lia.
  - reflexivity.
  - left. reflexivity.
Defined.

(** At the failing input of C3: the end-frame handler computes two
    conditioning images (the start frame and the portrait of [alice]), and
    the request it sends has the text prompt as its only part. *)
Example end_frame_request_has_no_image_part :
  let w :=
    Sample.world (mkNet [Ok Sample.image_response] [] [] [])
                 Sample.card_with_start_frame Sample.empty_app in
  let run :=
    handleGenerateEndFrame Sample.parse_json Sample.render Sample.quarters
      Sample.card_with_start_frame Sample.scene Sample.catalog
      "data:image/jpeg;base64,AAAA" w in
  PartInline (getBase64Data "data:image/jpeg;base64,AAAA")
  :: character_images Sample.scene Sample.catalog
  = [PartInline (mkInlineData (Some "AAAA") "image/jpeg");
     PartInline (mkInlineData (Some "QUJD") "image/jpeg")]
  /\ calls (trace (snd run))
     = [CGenerateContent
          (mkContentRequest "gemini-2.5-flash-image-preview"
             (ContentsParts [PartText "end prompt. Aspect ratio: 16:9."])
             (ModalitiesConfig [IMAGE; TEXT]))]
  /\ Frame.imageUrl (endFrame (card (ext (snd run))))
     = Some "data:image/png;base64,QUJD".
Proof. vm_compute. repeat split. Qed.

(** The counterexample of C4.  Whichever way the three observations are
    read, the run has as many waits as status queries, never two waits with
    three status queries: when the first observation is the response to the
    submission there are two waits and two status queries; when all three
    are responses to status queries (the submission having answered not
    done) there are three status queries and three waits.  And when the
    download of the uri fails, the video state ends in [ERROR] with a null
    url although the job was observed done with a uri. *)
Lemma video_job_waits_match_queries :
  let run ops fetches :=
    handleGenerateVideo Sample.parse_json Sample.quarters "KEY" 4
      Sample.card_with_start_frame Sample.scene
      (Sample.world (mkNet [] ops fetches []) Sample.card_with_start_frame
                    Sample.empty_app) in
  let first_is_submission :=
    run [Ok Sample.not_done; Ok Sample.not_done; Ok Sample.done_with_uri]
        [Ok (mkFetchResponse true "bytes")] in
  let all_are_queries :=
    run [Ok Sample.not_done; Ok Sample.not_done; Ok Sample.not_done;
         Ok Sample.done_with_uri]
        [Ok (mkFetchResponse true "bytes")] in
  let download_fails :=
    run [Ok Sample.not_done; Ok Sample.not_done; Ok Sample.done_with_uri]
        [Ok (mkFetchResponse false "")] in
  List.length (sleeps (trace (snd first_is_submission))) = 2
  /\ List.length (poll_calls (trace (snd first_is_submission))) = 2
  /\ VideoState.status (videoState (card (ext (snd first_is_submission))))
     = DONE
  /\ List.length (poll_calls (trace (snd all_are_queries))) = 3
  /\ List.length (sleeps (trace (snd all_are_queries))) = 3
  /\ VideoState.status (videoState (card (ext (snd all_are_queries)))) = DONE
  /\ downloadLink Sample.done_with_uri
     = Some "https://video.example/clip?alt=media"
  /\ fst download_fails = Ok tt
  /\ map VideoState.status (video_states (trace (snd download_fails)))
     = [GENERATING; ERROR]
  /\ videoState (card (ext (snd download_fails)))
     = VideoState.mk ERROR None "".
Proof. vm_compute. repeat split. Qed.

Lemma video_job_three_observations_witness :
  let snap := Sample.card_with_start_frame in
  let net1 :=
    mkNet [] [Ok Sample.not_done; Ok Sample.not_done; Ok Sample.done_with_uri]
          [Ok (mkFetchResponse true "bytes")] [] in
  let net2 :=
    mkNet [] [Ok Sample.not_done; Ok Sample.not_done;
              Ok Sample.done_without_uri] [] [] in
  let run n :=
    handleGenerateVideo Sample.parse_json Sample.quarters "KEY" 2 snap
      Sample.scene (Sample.world n snap Sample.empty_app) in
  Frame.imageUrl (startFrame snap) = Some "data:image/jpeg;base64,AAAA"
  /\ done Sample.not_done = false
  /\ done Sample.done_with_uri = true
  /\ done Sample.done_without_uri = true
  /\ truthy (downloadLink Sample.done_without_uri) = false
  /\ 2 <= 2
  /\ VideoState.status (videoState (card (ext (snd (run net1))))) = DONE
  /\ List.length (sleeps (trace (snd (run net1)))) = 2
  /\ List.length (poll_calls (trace (snd (run net1)))) = 2
  /\ videoState (card (ext (snd (run net2)))) = VideoState.mk ERROR None "".
Proof.
  intros snap net1 net2 run.
  do 6 (split; [reflexivity || lia |]).
  split; [| split; [| split]].
  - destruct (video_job_three_observations Sample.parse_json Sample.quarters
                "KEY" 2 snap Sample.scene
                (Sample.world net1 snap Sample.empty_app)
                "data:image/jpeg;base64,AAAA"
                Sample.not_done Sample.not_done Sample.done_with_uri []
                eq_refl ltac:(discriminate) eq_refl eq_refl eq_refl eq_refl
                eq_refl (le_n 2)) as [Hdone _].
    destruct (Hdone "https://video.example/clip?alt=media" "bytes" []
                eq_refl ltac:(discriminate) eq_refl)
      as (videoUrl & tr & _ & _ & _ & _ & Hstate & _).
    unfold run. rewrite Hstate. reflexivity.
  - destruct (video_job_three_observations Sample.parse_json Sample.quarters
                "KEY" 2 snap Sample.scene
                (Sample.world net1 snap Sample.empty_app)
                "data:image/jpeg;base64,AAAA"
                Sample.not_done Sample.not_done Sample.done_with_uri []
                eq_refl ltac:(discriminate) eq_refl eq_refl eq_refl eq_refl
                eq_refl (le_n 2)) as [Hdone _].
    destruct (Hdone "https://video.example/clip?alt=media" "bytes" []
                eq_refl ltac:(discriminate) eq_refl)
      as (videoUrl & tr & _ & Htrace & _ & _ & _ & Hsleeps & _).
    unfold run. rewrite Htrace. change (trace _) with (@nil Event).
    rewrite app_nil_l, Hsleeps. reflexivity.
  - destruct (video_job_three_observations Sample.parse_json Sample.quarters
                "KEY" 2 snap Sample.scene
                (Sample.world net1 snap Sample.empty_app)
                "data:image/jpeg;base64,AAAA"
                Sample.not_done Sample.not_done Sample.done_with_uri []
                eq_refl ltac:(discriminate) eq_refl eq_refl eq_refl eq_refl
                eq_refl (le_n 2)) as [Hdone _].
    destruct (Hdone "https://video.example/clip?alt=media" "bytes" []
                eq_refl ltac:(discriminate) eq_refl)
      as (videoUrl & tr & _ & Htrace & _ & _ & _ & _ & Hpolls & _).
    unfold run. rewrite Htrace. change (trace _) with (@nil Event).
    rewrite app_nil_l, Hpolls. reflexivity.
  - destruct (video_job_three_observations Sample.parse_json Sample.quarters
                "KEY" 2 snap Sample.scene
                (Sample.world net2 snap Sample.empty_app)
                "data:image/jpeg;base64,AAAA"
                Sample.not_done Sample.not_done Sample.done_without_uri []
                eq_refl ltac:(discriminate) eq_refl eq_refl eq_refl eq_refl
                eq_refl (le_n 2)) as [_ Herr].
    destruct (Herr eq_refl) as (tr & _ & _ & _ & _ & Hstate & _).
    exact Hstate.
Defined.

Lemma video_state_invariant_witness :
  let w :=
    Sample.world Sample.empty_net SceneCard_initial Sample.empty_app in
  let run :=
    handleGenerateVideo Sample.parse_json Sample.quarters "KEY" 2
      SceneCard_initial Sample.scene w in
  truthy (Frame.imageUrl (startFrame SceneCard_initial)) = false
  /\ VideoState_ok (videoState (card (ext w)))
  /\ VideoState_ok (videoState (card (ext (snd run))))
  /\ videoState (card (ext (snd run))) = videoState (card (ext w))
  /\ trace (snd run) = trace w.
Proof.
  intros w run.
  destruct (video_state_invariant Sample.parse_json Sample.quarters "KEY" 2
              SceneCard_initial Sample.scene w) as (H0 & _ & Hinv & Hnone).
  destruct (Hnone eq_refl) as (_ & Hsame & Htrace & _).
  split; [reflexivity|]. split; [exact H0|]. split; [exact (Hinv H0)|].
  split; assumption.
Defined.

Lemma script_analysis_failures_witness :
  let blank := String (ascii_of_nat 32) (String (ascii_of_nat 10) "  ") in
  let snap := mkApp blank (VArr []) (VArr []) None false None in
  let w0 := Sample.world Sample.empty_net SceneCard_initial snap in
  let w1 :=
    Sample.world
      (mkNet [Ok (mkContentResponse (Some "Sorry, I cannot do that.") None)]
             [] [] [])
      SceneCard_initial snap in
  trim blank = ""
  /\ Sample.parse_json (trim "Sorry, I cannot do that.") = None
  /\ trace (snd (handleAnalyzeScript Sample.parse_json Sample.render
                   Sample.quarters Sample.in_order snap w0)) = []
  /\ app_error (app (ext (snd (handleAnalyzeScript Sample.parse_json
                                 Sample.render Sample.quarters Sample.in_order
                                 snap w0))))
     = Some "Script cannot be empty."
  /\ fst (parseScriptToScenes Sample.parse_json Sample.quarters "INT. CAFE" w1)
     = Throw (JsError "The AI returned an invalid JSON format for scenes.")
  /\ List.length
       (calls (trace (snd (parseScriptToScenes Sample.parse_json
                             Sample.quarters "INT. CAFE" w1)))) = 1
  /\ fst (extractCharactersFromScript Sample.parse_json Sample.quarters
            "INT. CAFE" w1)
     = Throw (JsError "The AI returned an invalid JSON format for characters.")
  /\ List.length
       (calls (trace (snd (extractCharactersFromScript Sample.parse_json
                             Sample.quarters "INT. CAFE" w1)))) = 1.
Proof.
  intros blank snap w0 w1.
  destruct (script_analysis_failures Sample.parse_json Sample.render
              Sample.quarters Sample.in_order) as (Hempty & Hscenes & Hchars).
  split; [reflexivity|]. split; [reflexivity|].
  rewrite (Hempty snap w0 eq_refl).
  rewrite (Hscenes "INT. CAFE" w1 _ _ [] eq_refl eq_refl eq_refl).
  rewrite (Hchars "INT. CAFE" w1 _ _ [] eq_refl eq_refl eq_refl).
  repeat split.
Defined.

(** The counterexample of C7: [alice] has a portrait and is matched by
    ["Alice"], and the prompt does not hold the phrase ["matches the provided
    reference image"]. *)
Lemma portrait_phrase_differs :
  find (fun c => String.eqb (toLowerCase (Character.name c))
                            (toLowerCase "Alice")) Sample.catalog
  = Some Sample.alice
  /\ truthy (Character.imageUrl Sample.alice) = true
  /\ includes "matches the provided reference image"
              (basePrompt Sample.style Sample.scene Sample.catalog) = false
  /\ basePrompt Sample.style Sample.scene Sample.catalog
     = "X. Location: Cafe. Time: Morning. Mood: Tense. Characters present: alice who looks like the provided image reference, Bob.".
Proof. vm_compute. repeat split. Qed.

Lemma describe_character_resolution_witness :
  In "Alice" (Scene.characters Sample.scene)
  /\ In "Bob" (Scene.characters Sample.scene)
  /\ toLowerCase "alice" = toLowerCase "Alice"
  /\ describe_character Sample.catalog "Alice"
     = "alice who looks like the provided image reference"
  /\ describe_character Sample.catalog "Bob" = "Bob"
  /\ ends_with
       "Characters present: alice who looks like the provided image reference, Bob."
       (basePrompt Sample.style Sample.scene Sample.catalog).
Proof.
  destruct (describe_character_resolution Sample.style Sample.scene
              Sample.catalog) as [Hres Hprompt].
  assert (HA : In "Alice" (Scene.characters Sample.scene))
    by (left; reflexivity).
  assert (HB : In "Bob" (Scene.characters Sample.scene))
    by (right; left; reflexivity).
  split; [exact HA|]. split; [exact HB|].
  pose proof (Hres "Alice" HA) as [_ [Hname Ha]].
  pose proof (Hres "Bob" HB) as [_ Hb].
  split; [exact Hname|]. split; [exact Ha|]. split; [exact Hb|].
  apply Hprompt; [discriminate | reflexivity | reflexivity].
Defined.

Lemma basePrompt_without_characters_witness :
  characterDetails Sample.empty_scene Sample.catalog = ""
  /\ single_spaced (basePrompt Sample.style Sample.empty_scene Sample.catalog)
     = true
  /\ ends_with "Characters present: None."
               (basePrompt Sample.style Sample.empty_scene Sample.catalog)
  /\ prompt_line Sample.style Sample.empty_scene "None"
     = "X. Location: Cafe. Time: Morning. Mood: Tense. Characters present: None."
  /\ basePrompt Sample.style Sample.empty_scene Sample.catalog
     = prompt_line Sample.style Sample.empty_scene "None".
Proof.
  destruct (basePrompt_without_characters Sample.style Sample.empty_scene
              Sample.catalog eq_refl) as (Hss & Hend & _ & Hline).
  split; [reflexivity|]. split; [exact Hss|]. split; [exact Hend|].
  split; [reflexivity|].
  exact (Hline eq_refl eq_refl eq_refl eq_refl).
Defined.

Lemma end_frame_not_attempted_witness :
  let w :=
    Sample.world (mkNet [Throw (JsError "boom")] [] [] [])
                 SceneCard_initial Sample.empty_app in
  let start :=
    handleGenerateStartFrame Sample.parse_json Sample.render Sample.quarters
      SceneCard_initial Sample.scene Sample.catalog w in
  let both :=
    handleGenerateImages Sample.parse_json Sample.render Sample.quarters
      SceneCard_initial Sample.scene Sample.catalog w in
  start = (Throw (JsError "boom"), snd start)
  /\ both = (Ok tt, snd start)
  /\ endFrame (card (ext (snd both))) = endFrame SceneCard_initial
  /\ List.length (calls (trace (snd both))) = 1.
Proof.
  intros w start both.
  assert (Hstart : start = (Throw (JsError "boom"), snd start))
    by (vm_compute; reflexivity).
  destruct (end_frame_not_attempted Sample.parse_json Sample.render
              Sample.quarters SceneCard_initial Sample.scene Sample.catalog w
              (JsError "boom") (snd start) Hstart) as (Hboth & Hend & _).
  split; [exact Hstart|]. split; [exact Hboth|].
  fold both in Hboth. rewrite Hboth. split; [exact Hend|].
  vm_compute. reflexivity.
Defined.

Lemma video_seed_image_witness :
  no_comma "data:image/jpeg;base64" = true
  /\ no_comma "QUJD" = true
  /\ video_request "a prompt" "data:image/jpeg;base64,QUJD"
     = mkVideosRequest "veo-2.0-generate-001" "a prompt" (Some "QUJD")
                       "image/png" 1.
Proof.
  split; [reflexivity|]. split; [reflexivity|].
  exact (proj1 (video_seed_image Sample.parse_json Sample.quarters "KEY" 0
                  "a prompt" "data:image/jpeg;base64" "QUJD"
                  (Sample.world Sample.empty_net SceneCard_initial
                                Sample.empty_app)
                  eq_refl eq_refl)).
Defined.

(* --------------------------------------------------------------------- *)
(** *** The further properties on the concrete platform *)
(* --------------------------------------------------------------------- *)

Lemma callApiWithRetry_first_settling_outcome_witness :
  limited_run Sample.parse_json Sample.flaky 2 0 2
  /\ Sample.flaky 2 = (Ok "done", 3)
  /\ (Z.of_nat 2 < 5)%Z
  /\ exists w',
      callApiWithRetry Sample.parse_json Sample.quarters
        (invoke (COperation "flaky") Sample.flaky) 5 1000 (mkWorld 0 [] 0)
      = (Ok "done", w')
      /\ ext w' = 3
      /\ List.length (calls (trace w')) = 3
      /\ List.length (sleeps (trace w')) = 2
      /\ rand_idx w' = 2.
Proof.
  assert (Hrun : limited_run Sample.parse_json Sample.flaky 2 0 2).
  { apply (limited_more Sample.parse_json Sample.flaky 1 0 1 2
             (JsError Sample.rate_limit_message)); [reflexivity..|].
    apply (limited_more Sample.parse_json Sample.flaky 0 1 2 2
             (JsError Sample.rate_limit_message)); [reflexivity..|].
    apply limited_none. }
  split; [exact Hrun|]. split; [reflexivity|]. split; [lia|].
  exact (callApiWithRetry_first_settling_outcome Sample.parse_json
           Sample.quarters Sample.flaky (COperation "flaky") 5 1000
           2 (mkWorld 0 [] 0) 2 (Ok "done") 3 Hrun eq_refl I ltac:(lia)).
Defined.

Lemma callApiWithRetry_without_attempts_witness :
  (0 <= 0)%Z
  /\ callApiWithRetry Sample.parse_json Sample.quarters
       (invoke (COperation "never invoked") Sample.always_fatal) 0 1000
       (mkWorld tt [] 0)
     = (Throw (JsNonError VUndefined), mkWorld tt [] 0).
Proof.
  split; [lia|].
  apply (callApiWithRetry_without_attempts Sample.parse_json Sample.quarters
           (invoke (COperation "never invoked") Sample.always_fatal) 0 1000
           (mkWorld tt [] 0)).
  lia.
Defined.

Lemma callApiWithRetry_exhaustion_time_witness :
  (forall n, 0 <= Sample.quarters n /\ Sample.quarters n < 1)%Q
  /\ (forall s, exists e s',
         Sample.always_limited s = (Throw e, s')
         /\ isRateLimitError Sample.parse_json e = true)
  /\ exists e w' tr ds last,
      callApiWithRetry Sample.parse_json Sample.quarters
        (invoke (COperation "always limited") Sample.always_limited)
        default_maxRetries default_initialDelay (mkWorld tt [] 0)
      = (Throw e, w')
      /\ trace w' = ([] ++ tr ++ [EvSleep last])%list
      /\ sleeps (tr ++ [EvSleep last]) = (ds ++ [last])%list
      /\ List.length (calls tr) = 5
      /\ (16000 <= last)%Q
      /\ (31000 <= total_delay (ds ++ [last]))%Q
      /\ (total_delay (ds ++ [last]) <= 36000)%Q.
Proof.
  assert (H1 : forall s, exists e s',
             Sample.always_limited s = (Throw e, s')
             /\ isRateLimitError Sample.parse_json e = true).
  { intros s. exists (JsError Sample.rate_limit_message), s.
    split; reflexivity. }
  split; [exact quarters_range|]. split; [exact H1|].
  exact (callApiWithRetry_exhaustion_time Sample.parse_json Sample.quarters
           Sample.always_limited (COperation "always limited")
           (mkWorld tt [] 0) quarters_range H1).
Defined.

Lemma getApiErrorMessage_shows_witness :
  Sample.render (VStr "API key not valid") = "API key not valid"
  /\ Sample.parse_json "boom" = None
  /\ getApiErrorMessage Sample.parse_json Sample.render (JsError "boom")
     = "boom"
  /\ getApiErrorMessage Sample.parse_json Sample.render
       (JsError Sample.api_error_message)
     = "API key not valid"
  /\ getApiErrorMessage Sample.parse_json Sample.render (JsError "{}")
     = unexpected_error_message
  /\ getApiErrorMessage Sample.parse_json Sample.render (JsNonError (VNum 0))
     = unexpected_error_message.
Proof.
  destruct (getApiErrorMessage_shows Sample.parse_json Sample.render
              (fun s => eq_refl)) as (Hraw & Hmsg & Hnone & Hother).
  split; [reflexivity|]. split; [reflexivity|].
  split; [exact (Hraw "boom" eq_refl)|].
  split.
  - eapply Hmsg; [vm_compute; reflexivity | reflexivity | reflexivity
                  | discriminate].
  - split; [| exact (Hother (VNum 0))].
    eapply Hnone; [vm_compute; reflexivity | discriminate | discriminate
                   | reflexivity].
Defined.

Lemma generateImageForPrompt_first_image_witness :
  let w :=
    Sample.world (mkNet [Ok Sample.image_response] [] [] [])
                 SceneCard_initial Sample.empty_app in
  content_q (net (ext w)) = [Ok Sample.image_response]
  /\ plain_mime "image/png" = true
  /\ no_comma "QUJD" = true
  /\ fst (generateImageForPrompt Sample.parse_json Sample.quarters
            "a cat" AR_1_1 w)
     = Ok "data:image/png;base64,QUJD"
  /\ getBase64Data "data:image/png;base64,QUJD"
     = mkInlineData (Some "QUJD") "image/png"
  /\ gv_imageBytes (video_request "move" "data:image/png;base64,QUJD")
     = Some "QUJD".
Proof.
  intros w.
  destruct (generateImageForPrompt_first_image Sample.parse_json
              Sample.quarters "a cat" AR_1_1 w Sample.image_response []
              (mkCandidate
                 (Some [mkResponsePart None (Some "here you go");
                        mkResponsePart (Some ("QUJD", "image/png")) None]))
              []
              [mkResponsePart None (Some "here you go")]
              (mkResponsePart (Some ("QUJD", "image/png")) None)
              [] "QUJD" "image/png"
              eq_refl eq_refl eq_refl
              (Forall_cons (mkResponsePart None (Some "here you go"))
                           (eq_refl : no_inline
                                        (mkResponsePart None
                                           (Some "here you go")))
                           (Forall_nil _))
              eq_refl eq_refl eq_refl) as (Hrun & Hdata & Hseed).
  split; [reflexivity|]. split; [reflexivity|]. split; [reflexivity|].
  split; [now rewrite Hrun|]. split; [exact Hdata | exact (Hseed "move")].
Defined.

Lemma start_frame_without_image_witness :
  let resp := mkContentResponse (Some "I cannot draw that.") None in
  let w :=
    Sample.world (mkNet [Ok resp] [] [] [])
                 Sample.card_with_start_frame Sample.empty_app in
  first_candidate_parts resp = None
  /\ Sample.parse_json "Image generation failed to return an image." = None
  /\ exists w',
      handleGenerateStartFrame Sample.parse_json Sample.render Sample.quarters
        Sample.card_with_start_frame Sample.scene Sample.catalog w
      = (Throw (JsError "Image generation failed to return an image."), w')
      /\ List.length (calls (trace w')) = List.length (calls (trace w)) + 1
      /\ sleeps (trace w') = sleeps (trace w)
      /\ startFrame (card (ext w')) = startFrame (card (ext w))
      /\ isGeneratingStartFrame (card (ext w')) = false
      /\ card_error (card (ext w'))
         = Some "Failed to generate start frame: Image generation failed to return an image.".
Proof.
  intros resp w. split; [reflexivity|]. split; [reflexivity|].
  exact (start_frame_without_image Sample.parse_json Sample.render
           Sample.quarters Sample.card_with_start_frame Sample.scene
           Sample.catalog w resp [] eq_refl I eq_refl).
Defined.

Lemma script_analysis_returns_any_json_witness :
  let resp := mkContentResponse (Some " {} ") None in
  let w :=
    Sample.world (mkNet [Ok resp] [] [] [])
                 SceneCard_initial Sample.empty_app in
  content_q (net (ext w)) = [Ok resp]
  /\ Sample.parse_json (trim " {} ") = Some (VObj [])
  /\ fst (parseScriptToScenes Sample.parse_json Sample.quarters "INT. CAFE" w)
     = Ok (VObj [])
  /\ fst (extractCharactersFromScript Sample.parse_json Sample.quarters
            "INT. CAFE" w)
     = Ok (VObj []).
Proof.
  intros resp w.
  destruct (script_analysis_returns_any_json Sample.parse_json
              Sample.quarters "INT. CAFE" w resp [] eq_refl) as [Hany _].
  destruct (Hany " {} " (VObj []) eq_refl eq_refl) as [Hs Hc].
  split; [reflexivity|]. split; [reflexivity|].
  rewrite Hs, Hc. split; reflexivity.
Defined.

Lemma handleGenerateVideo_outcomes_witness :
  let snap := Sample.card_with_start_frame in
  let w :=
    Sample.world
      (mkNet [] [Ok Sample.not_done; Ok Sample.done_without_uri] [] [])
      snap Sample.empty_app in
  let run :=
    handleGenerateVideo Sample.parse_json Sample.quarters "KEY" 4 snap
      Sample.scene w in
  Frame.imageUrl (startFrame snap) = Some "data:image/jpeg;base64,AAAA"
  /\ fst run = Ok tt
  /\ videoState (card (ext (snd run))) = VideoState.mk ERROR None ""
  /\ ends_with experimental_suffix
       (match card_error (card (ext (snd run))) with
        | Some m => m
        | None => ""
        end)
  /\ startFrame (card (ext (snd run))) = startFrame snap
  /\ endFrame (card (ext (snd run))) = endFrame snap.
Proof.
  intros snap w run.
  destruct (handleGenerateVideo_outcomes Sample.parse_json Sample.quarters
              "KEY" 4 snap Sample.scene w "data:image/jpeg;base64,AAAA"
              eq_refl ltac:(discriminate))
    as (_ & _ & Hok & Hstart & Hend).
  assert (Hrun : fst run = Ok tt) by (vm_compute; reflexivity).
  split; [reflexivity|]. split; [exact Hrun|].
  destruct (Hok Hrun) as [(url & Hs & _) | (m & Hs & He)].
  - fold run in Hs. exfalso.
    assert (E : VideoState.status (videoState (card (ext (snd run)))) = ERROR)
      by (vm_compute; reflexivity).
    rewrite Hs in E. discriminate E.
  - fold run in Hs, He. split; [exact Hs|]. split.
    + rewrite He. now exists m.
    + split; [exact Hstart | exact Hend].
Defined.

Lemma video_button_after_run_witness :
  let snap :=
    mkCard (Frame.mk "start prompt" (Some "data:image/jpeg;base64,AAAA"))
           (Frame.mk "end prompt" (Some "data:image/jpeg;base64,BBBB"))
           (VideoState.mk IDLE None "") false false None in
  let w :=
    Sample.world (mkNet [] [Throw (JsError "boom")] [] [])
                 snap Sample.empty_app in
  let c' :=
    card (ext (snd (handleGenerateVideo Sample.parse_json Sample.quarters
                      "KEY" 4 snap Sample.scene w))) in
  canGenerateVideo snap = true
  /\ video_button_disabled snap = false
  /\ canGenerateVideo c' = false
  /\ video_button_disabled c' = true.
Proof.
  intros snap w c'.
  destruct (video_button_after_run Sample.parse_json Sample.quarters "KEY" 4
              snap Sample.scene w "data:image/jpeg;base64,AAAA"
              eq_refl ltac:(discriminate)) as (_ & Hcan & Hdis).
  split; [reflexivity|]. split; [reflexivity|].
  split; [exact Hcan | exact Hdis].
Defined.

Lemma video_job_any_length_witness :
  let snap := Sample.card_with_start_frame in
  let nds := [Sample.not_done; Sample.not_done; Sample.not_done] in
  let w :=
    Sample.world
      (mkNet [] (map Ok nds ++ [Ok Sample.done_with_uri])%list
             [Ok (mkFetchResponse true "bytes")] [])
      snap Sample.empty_app in
  let run :=
    handleGenerateVideo Sample.parse_json Sample.quarters "KEY" 3 snap
      Sample.scene w in
  Forall (fun o => done o = false) nds
  /\ done Sample.done_with_uri = true
  /\ List.length nds <= 3
  /\ downloadLink Sample.done_with_uri
     = Some "https://video.example/clip?alt=media"
  /\ fst run = Ok tt
  /\ sleeps (trace (snd run)) = repeat (inject_Z 10000) 3
  /\ List.length (status_calls (trace (snd run))) = 4
  /\ VideoState.status (videoState (card (ext (snd run)))) = DONE.
Proof.
  intros snap nds w run.
  assert (Hnds : Forall (fun o => done o = false) nds)
    by (repeat constructor).
  destruct (video_job_any_length Sample.parse_json Sample.quarters "KEY" 3
              snap Sample.scene w "data:image/jpeg;base64,AAAA"
              nds Sample.done_with_uri []
              "https://video.example/clip?alt=media" true "bytes" []
              eq_refl ltac:(discriminate) eq_refl Hnds eq_refl (le_n 3)
              eq_refl ltac:(discriminate) eq_refl)
    as (videoUrl & tr & Hrun & Htrace & _ & Hsleeps & Hcalls & Hstatus & _).
  fold run in Hrun, Htrace, Hstatus.
  split; [exact Hnds|]. split; [reflexivity|]. split; [apply le_n|].
  split; [reflexivity|]. split; [exact Hrun|].
  rewrite Htrace. change (trace w) with (@nil Event).
  split; [exact Hsleeps|]. split; [exact Hcalls | exact Hstatus].
Defined.

Lemma video_job_never_done_witness :
  let snap := Sample.card_with_start_frame in
  let nds := [Sample.not_done; Sample.not_done] in
  let w :=
    Sample.world (mkNet [] (map Ok nds) [] []) snap Sample.empty_app in
  let run :=
    handleGenerateVideo Sample.parse_json Sample.quarters "KEY" 7 snap
      Sample.scene w in
  Forall (fun o => done o = false) nds
  /\ fst run = Pending
  /\ videoState (card (ext (snd run)))
     = VideoState.mk GENERATING None VIDEO_GENERATION_MESSAGES_0
  /\ video_button_disabled (card (ext (snd run))) = true.
Proof.
  intros snap nds w run.
  assert (Hnds : Forall (fun o => done o = false) nds)
    by (repeat constructor).
  split; [exact Hnds|].
  exact (video_job_never_done Sample.parse_json Sample.quarters "KEY" 7
           snap Sample.scene w "data:image/jpeg;base64,AAAA" nds
           eq_refl ltac:(discriminate) eq_refl Hnds).
Defined.

Lemma handleGenerateImages_both_frames_witness :
  let second :=
    mkContentResponse None
      (Some [mkCandidate
               (Some [mkResponsePart (Some ("REVG", "image/jpeg")) None])]) in
  let w :=
    Sample.world (mkNet [Ok Sample.image_response; Ok second] [] [] [])
                 Sample.card_with_start_frame Sample.empty_app in
  let run :=
    handleGenerateImages Sample.parse_json Sample.render Sample.quarters
      Sample.card_with_start_frame Sample.scene Sample.catalog w in
  first_inline [mkResponsePart None (Some "here you go");
                mkResponsePart (Some ("QUJD", "image/png")) None]
  = Some ("QUJD", "image/png")
  /\ fst run = Ok tt
  /\ startFrame (card (ext (snd run)))
     = Frame.mk "start prompt" (Some "data:image/png;base64,QUJD")
  /\ endFrame (card (ext (snd run)))
     = Frame.mk "end prompt" (Some "data:image/jpeg;base64,REVG")
  /\ card_error (card (ext (snd run))) = None
  /\ List.length (trace (snd run)) = 2.
Proof.
  intros second w run.
  destruct (handleGenerateImages_both_frames Sample.parse_json Sample.render
              Sample.quarters Sample.card_with_start_frame Sample.scene
              Sample.catalog w Sample.image_response second []
              [mkResponsePart None (Some "here you go");
               mkResponsePart (Some ("QUJD", "image/png")) None]
              [mkResponsePart (Some ("REVG", "image/jpeg")) None]
              "QUJD" "image/png" "REVG" "image/jpeg"
              eq_refl eq_refl eq_refl eq_refl eq_refl)
    as (Hrun & Hstart & Hend & _ & _ & Herr & _ & Htrace & _).
  fold run in Hrun, Hstart, Hend, Herr, Htrace.
  split; [reflexivity|]. split; [exact Hrun|]. split; [exact Hstart|].
  split; [exact Hend|]. split; [exact Herr|].
  rewrite Htrace. reflexivity.
Defined.

Lemma handleGenerateImages_end_frame_fails_witness :
  let w :=
    Sample.world
      (mkNet [Ok Sample.image_response; Throw (JsError "boom")] [] [] [])
      Sample.card_with_start_frame Sample.empty_app in
  let run :=
    handleGenerateImages Sample.parse_json Sample.render Sample.quarters
      Sample.card_with_start_frame Sample.scene Sample.catalog w in
  isRateLimitError Sample.parse_json (JsError "boom") = false
  /\ fst run = Ok tt
  /\ startFrame (card (ext (snd run)))
     = Frame.mk "start prompt" (Some "data:image/png;base64,QUJD")
  /\ endFrame (card (ext (snd run))) = Frame.mk "end prompt" None
  /\ card_error (card (ext (snd run)))
     = Some "Failed to generate end frame: boom"
  /\ List.length (calls (trace (snd run))) = 2.
Proof.
  intros w run.
  destruct (handleGenerateImages_end_frame_fails Sample.parse_json
              Sample.render Sample.quarters Sample.card_with_start_frame
              Sample.scene Sample.catalog w Sample.image_response
              (JsError "boom") []
              [mkResponsePart None (Some "here you go");
               mkResponsePart (Some ("QUJD", "image/png")) None]
              "QUJD" "image/png" eq_refl eq_refl eq_refl eq_refl)
    as (Hrun & Hstart & Hend & _ & _ & Herr & Hcalls & _).
  fold run in Hrun, Hstart, Hend, Herr, Hcalls.
  split; [reflexivity|]. split; [exact Hrun|]. split; [exact Hstart|].
  split; [exact Hend|]. split; [exact Herr | exact Hcalls].
Defined.

Lemma portrait_reaches_prompt_witness :
  let bob := Character.mk "BOB" "short, grey hat" None in
  let characters := [Sample.alice; bob] in
  let updated :=
    update_characters (with_portrait bob "data:image/png;base64,QUJD")
                      characters in
  find (fun c => String.eqb (toLowerCase (Character.name c))
                            (toLowerCase "Bob")) characters
  = Some bob
  /\ describe_character characters "Bob" = "BOB (short, grey hat)"
  /\ describe_character updated "Bob"
     = "BOB who looks like the provided image reference"
  /\ In (PartInline (getBase64Data "data:image/png;base64,QUJD"))
        (character_images Sample.scene updated).
Proof.
  intros bob characters updated.
  destruct (portrait_reaches_prompt Sample.scene characters "Bob" bob
              "data:image/png;base64,QUJD" eq_refl ltac:(discriminate))
    as [Hdesc Himg].
  split; [reflexivity|]. split; [reflexivity|]. split; [exact Hdesc|].
  apply Himg. right. left. reflexivity.
Defined.

Lemma portrait_generated_witness :
  let bob := Character.mk "BOB" "short, grey hat" None in
  let w :=
    mkWorld
      (mkStudio
         (mkSys (mkNet [Ok Sample.image_response] [] [] [])
                SceneCard_initial Sample.empty_app)
         (mkCharacterCard false None None)
         [Sample.alice; bob])
      [] 0 in
  let run :=
    handleGeneratePortrait Sample.parse_json Sample.render Sample.quarters
      bob Sample.style w in
  content_q (net (session (ext w))) = [Ok Sample.image_response]
  /\ fst run = Ok tt
  /\ portrait (ext (snd run))
     = mkCharacterCard false (Some "data:image/png;base64,QUJD") None
  /\ catalog (ext (snd run))
     = [Sample.alice;
        Character.mk "BOB" "short, grey hat"
                     (Some "data:image/png;base64,QUJD")]
  /\ calls (trace (snd run))
     = [CGenerateContent
          (mkContentRequest "gemini-2.5-flash-image-preview"
             (ContentsParts
                [PartText "Character portrait of BOB, short, grey hat. Style: X. Centered, high-detail, neutral background.. Aspect ratio: 1:1."])
             (ModalitiesConfig [IMAGE; TEXT]))].
Proof.
  intros bob w run.
  destruct (portrait_generated Sample.parse_json Sample.render
              Sample.quarters bob Sample.style w Sample.image_response []
              [mkResponsePart None (Some "here you go");
               mkResponsePart (Some ("QUJD", "image/png")) None]
              "QUJD" "image/png" eq_refl eq_refl eq_refl)
    as (Hrun & Hportrait & Hcatalog & _ & Htrace).
  fold run in Hrun, Hportrait, Hcatalog, Htrace.
  split; [reflexivity|]. split; [exact Hrun|]. split; [exact Hportrait|].
  split; [rewrite Hcatalog; reflexivity|].
  rewrite Htrace. reflexivity.
Defined.
